(** * compone: the component object model, embedded and verified

    A shallow embedding of [compone/component.py]: the property bag
    ([_ComponentBase]), the children container and the parent-tracking slot
    ([_ChildrenMixin]), lazy binding ([_LazyComponent]), the render pipeline
    ([_ContentMixin], [_FuncComponent], [_ClassComponent]) and element
    serialization ([_HTMLComponentBase] and its two subclasses).

    Python objects live in a store indexed by object identity; methods that
    mutate or allocate return the new store.  Exceptions are values of the
    [result] monad. *)

From stdpp Require Import base strings list gmap pretty.
From Stdlib Require Import ZArith Lia Ascii String.
Abbreviation length := List.length.

Set Warnings "-register-all".
Open Scope string_scope.
Open Scope Z_scope.
Open Scope list_scope.

(** ** Text primitives (Python [str] methods used by the source) *)

Module Str.

(** [c in s] for a one-character needle. *)
Fixpoint contains (c : ascii) (s : string) : bool :=
match s with
| EmptyString => false
| String a s' => if Ascii.eqb a c then true else contains c s'
end.

(** [s.replace(a, b)] for one-character [a] and [b]. *)
Fixpoint replace (a b : ascii) (s : string) : string :=
match s with
| EmptyString => EmptyString
| String x s' => String (if Ascii.eqb x a then b else x) (replace a b s')
end.

(** [sep.join(l)]. *)
Fixpoint join (sep : string) (l : list string) : string :=
match l with
| [] => ""
| [x] => x
| x :: xs => x +:+ sep +:+ join sep xs
end.

(** [s[:-1]]: everything but the last character (empty stays empty). *)
Fixpoint drop_last (s : string) : string :=
match s with
| EmptyString => EmptyString
| String _ EmptyString => EmptyString
| String a s' => String a (drop_last s')
end.

(** Iterating a string yields its one-character substrings. *)
Fixpoint chars (s : string) : list string :=
match s with
| EmptyString => []
| String a s' => String a EmptyString :: chars s'
end.

Fixpoint repeat_nat (s : string) (n : nat) : string :=
match n with
| O => ""
| S n' => s +:+ repeat_nat s n'
end.

(** [s * n]: repetition, empty for [n <= 0]. *)
Definition repeat (s : string) (n : Z) : string := repeat_nat s (Z.to_nat n).

Definition concat (l : list string) : string := join "" l.

End Str.

(** [keyword.kwlist] of the Python versions the source runs on (it uses the
    walrus operator, so 3.8 and later). *)
Definition kwlist : list string :=
  [ "False"; "None"; "True"; "and"; "as"; "assert"; "async"; "await";
    "break"; "class"; "continue"; "def"; "del"; "elif"; "else"; "except";
    "finally"; "for"; "from"; "global"; "if"; "import"; "in"; "is";
    "lambda"; "nonlocal"; "not"; "or"; "pass"; "raise"; "return"; "try";
    "while"; "with"; "yield" ].

Definition iskeyword (s : string) : bool := bool_decide (s ∈ kwlist).

(** ** Python values *)

(** Object identity of a component instance. *)
Definition loc := nat.

(** Plain data: what a property value is in this development.  The values
    are immutable here, so [copy.deepcopy] of plain data is the value itself.
    [DSafe] is the [safe] marker subclass of [str]. *)
Inductive data :=
| DNone
| DBool (b : bool)
| DInt (z : Z)
| DStr (s : string)
| DSafe (s : string)
| DSeq (ds : list data).

(** Content: what can be attached as a child or returned by a content
    function.  [VRef] is a component instance; [VSeq] is a sequence that may
    hold component instances. *)
Inductive value :=
| VData (d : data)
| VRef (l : loc)
| VSeq (vs : list value).

Coercion VData : data >-> value.

(** Exceptions raised by the source (and by the interpreter underneath). *)
Inductive exn :=
| ValueError (msg : string)
| KeyError (msg : string)
| TypeError (msg : string)
| AttributeError (msg : string)
| RecursionError.

Inductive result (A : Type) :=
| Ok (a : A)
| Raise (e : exn).
Arguments Ok {A} a.
Arguments Raise {A} e.

#[global] Instance result_ret : MRet result := fun _ a => Ok a.
#[global] Instance result_bind : MBind result := fun _ _ f m =>
  match m with Ok a => f a | Raise e => Raise e end.
#[global] Instance result_fmap : FMap result := fun _ _ f m =>
  match m with Ok a => Ok (f a) | Raise e => Raise e end.

Definition is_ok {A} (r : result A) : bool :=
  match r with Ok _ => true | Raise _ => false end.

(** [mapM] over a list, left to right, stopping at the first exception. *)
Fixpoint result_mapM {A B} (f : A → result B) (l : list A) : result (list B) :=
  match l with
  | [] => Ok []
  | x :: xs => y ← f x; ys ← result_mapM f xs; Ok (y :: ys)
  end.

(** ** Dictionaries

    A [dict] keeps insertion order (attribute order and [__repr__] depend on
    it): an association list in which assigning to a present key keeps its
    position. *)

Abbreviation dict V := (list (string * V)) (only parsing).

Module Dict.
Section ops.
Context {V : Type}.

Fixpoint get (k : string) (d : dict V) : option V :=
match d with
| [] => None
| (k', v) :: d' => if String.eqb k' k then Some v else get k d'
end.

Definition mem (k : string) (d : dict V) : bool :=
match get k d with Some _ => true | None => false end.

(** [d[k] = v] *)
Fixpoint set (k : string) (v : V) (d : dict V) : dict V :=
match d with
| [] => [(k, v)]
| (k', v') :: d' =>
  if String.eqb k' k then (k, v) :: d' else (k', v') :: set k v d'
end.

(** [d.update(e)], also [{**d, **e}] on a fresh copy of [d]. *)
Definition update (d e : dict V) : dict V :=
fold_left (fun acc kv => set kv.1 kv.2 acc) e d.

(** [dict(pairs)]. *)
Definition of_pairs (kvs : list (string * V)) : dict V := update [] kvs.

Definition keys (d : dict V) : list string := map fst d.

(** Python's [==] on dictionaries: the same keys with the same values,
whatever the order. *)
Definition equiv (d e : dict V) : Prop := ∀ k, get k d = get k e.
End ops.
End Dict.

(** ** The collaborators outside [component.py]

    [escape.py] and the interpreter's [repr] of text are not part of the
    component module; the development is parametric in them. *)

Class Prims := {
  (** [escape] on raw text: the HTML-entity escaping of its characters. *)
  escape_text : string → string;
  (** [repr] of a [str] ([false]) or of a [safe] string ([true]). *)
  repr_text : bool → string → string
}.

Section builtins.
Context `{!Prims}.

Definition truthy (d : data) : bool :=
  match d with
  | DNone => false
  | DBool b => b
  | DInt z => negb (z =? 0)
  | DStr s | DSafe s => negb (String.eqb s "")
  | DSeq ds => match ds with [] => false | _ => true end
  end.

(** [isinstance(d, str)]: [safe] is a subclass of [str]. *)
Definition is_str (d : data) : bool :=
  match d with DStr _ | DSafe _ => true | _ => false end.

Definition is_bool (d : data) : bool :=
  match d with DBool _ => true | _ => false end.

(** [isinstance(d, int)]: [bool] is a subclass of [int]. *)
Definition is_int (d : data) : bool :=
  match d with DInt _ | DBool _ => true | _ => false end.

Definition is_none (d : data) : bool :=
  match d with DNone => true | _ => false end.

(** The list display [[a, b, c]] of already-printed elements. *)
Definition seq_text (elems : list string) : string :=
  "[" +:+ Str.join ", " elems +:+ "]".

Fixpoint data_repr (d : data) : string :=
  match d with
  | DNone => "None"
  | DBool true => "True"
  | DBool false => "False"
  | DInt z => pretty z
  | DStr s => repr_text false s
  | DSafe s => repr_text true s
  | DSeq ds => seq_text (map data_repr ds)
  end.

(** [str(d)]. *)
Definition data_str (d : data) : string :=
  match d with
  | DStr s | DSafe s => s
  | _ => data_repr d
  end.

(** Modelled from the spec: [escape(value) -> SafeString]; a SafeString
    passes unchanged, a plain string is escaped, any other value is escaped
    via its text representation.  ([escape.py] is not among the sources.) *)
Definition escape_data (d : data) : string :=
  match d with
  | DSafe s => s
  | DStr s => escape_text s
  | _ => escape_text (data_str d)
  end.

Definition int_of (d : data) : option Z :=
  match d with
  | DInt z => Some z
  | DBool b => Some (if b then 1 else 0)
  | _ => None
  end.

(** [a + b] on plain data.  Modelled from the spec for the [safe] cases:
    SafeString supports [+], the result remains a SafeString (a raw operand
    is escaped on the way in). *)
Definition py_add (a b : data) : result data :=
  match int_of a, int_of b with
  | Some x, Some y => Ok (DInt (x + y))
  | _, _ =>
      match a, b with
      | DStr x, DStr y => Ok (DStr (x +:+ y))
      | DSafe x, DSafe y => Ok (DSafe (x +:+ y))
      | DSafe x, DStr y => Ok (DSafe (x +:+ escape_text y))
      | DStr x, DSafe y => Ok (DSafe (escape_text x +:+ y))
      | DSeq x, DSeq y => Ok (DSeq (x ++ y))
      | _, _ => Raise (TypeError "unsupported operand type(s) for +")
      end
  end.
End builtins.

(** ** Signatures, functions and user classes *)

(** The fields of [inspect.getfullargspec] the source reads. *)
Record argspec := {
  args : list string;
  varargs : option string;
  varkw : option string;
  defaults : option (list data);
  kwonlyargs : list string;
  kwonlydefaults : option (dict data)
}.

(** A Python function: its signature and its body.  The body sees its bound
    parameters and may turn a component into text ([str(c)], [safe(c)])
    through the first argument. *)
Record pyfunc := {
  fn_name : string;
  fn_spec : argspec;
  fn_body : (loc → result string) → dict data → result value
}.

(** A user class given to [Component]: [__init__]'s signature, and [render]
    when the class has one.  [render] sees the attributes [__init__] stored
    (here: its bound parameters) and its own bound parameters. *)
Record userclass := {
  uc_name : string;
  uc_init : argspec;
  uc_render : option (argspec *
                      ((loc → result string) → dict data → dict data → result value))
}.

Module Call.
(** Binding of a call with positional arguments [pos] and keyword
    arguments [kw] to the parameters of [spec]. *)

Fixpoint bind_pos (names : list string) (pos : list data)
  : result (dict data) :=
  match pos, names with
  | [], _ => Ok []
  | _ :: _, [] => Raise (TypeError "too many positional arguments")
  | v :: pos', n :: names' =>
      rest ← bind_pos names' pos'; Ok ((n, v) :: rest)
  end.

Definition bind_kw (spec : argspec) (bound : dict data) (kv : string * data)
  : result (dict data) :=
  let (k, v) := kv in
  if Dict.mem k bound then Raise (TypeError "got multiple values for argument")
  else if bool_decide (k ∈ args spec ++ kwonlyargs spec)
       then Ok (Dict.set k v bound)
       else match varkw spec with
            | Some _ => Ok bound
            | None => Raise (TypeError "got an unexpected keyword argument")
            end.

Fixpoint bind_kws (spec : argspec) (bound : dict data) (kw : dict data)
  : result (dict data) :=
  match kw with
  | [] => Ok bound
  | kv :: kw' => b ← bind_kw spec bound kv; bind_kws spec b kw'
  end.

(** [args[-n:]] *)
Definition last_n {A} (n : nat) (l : list A) : list A :=
  match n with
  | O => l
  | _ => drop (length l - n)%nat l
  end.

Definition default_pairs (spec : argspec) : dict data :=
  match defaults spec with
  | Some ds => zip (last_n (length ds) (args spec)) ds
  | None => []
  end ++ default [] (kwonlydefaults spec).

Definition fill_defaults (spec : argspec) (bound : dict data) : dict data :=
  fold_left (fun acc kv => if Dict.mem kv.1 acc then acc else Dict.set kv.1 kv.2 acc)
            (default_pairs spec) bound.

Definition bind (spec : argspec) (pos : list data) (kw : dict data)
  : result (dict data) :=
  b0 ← bind_pos (args spec) pos;
  b1 ← bind_kws spec b0 kw;
  let b2 := fill_defaults spec b1 in
  if forallb (fun n => Dict.mem n b2) (args spec ++ kwonlyargs spec)
  then Ok b2
  else Raise (TypeError "missing required argument").

Definition call (str_of : loc → result string) (f : pyfunc)
    (pos : list data) (kw : dict data) : result value :=
  b ← bind (fn_spec f) pos kw; fn_body f str_of b.
End Call.

(** ** Component types and instances *)

(** Which of the four concrete bases a component type derives from. *)
Inductive kind :=
| KFunc (f : pyfunc)          (* _FuncComponent, with its [_func] *)
| KClass (u : userclass)      (* _ClassComponent, with its [_user_class] *)
| KHtml                       (* _HTMLComponent *)
| KSelfClosing.               (* _SelfClosingHTMLComponent *)

(** A component type: the class attributes the source reads.  [_attributes]
    is the class-level attribute set of [_HTMLComponentBase] ([None] unless a
    subclass fixes some attributes). *)
Record comp_class := {
  cls_name : string;
  cls_kind : kind;
  _argnames : list string;
  _defaults : option (dict data);
  _pass_children : bool;
  _html_tag : string;
  _attributes : option (dict data)
}.

(** A component instance.  [saved] holds [_parent_frame_id] and [_parent],
    attributes that exist only once [__enter__] has run; [_children] and
    [_lazy] are meaningful for the kinds that derive from [_ChildrenMixin]. *)
Record obj := {
  cls : comp_class;
  props : dict data;
  _children : value;
  _lazy : bool;
  saved : option (option Z * option loc);
  _original_kwargs : dict data;
  _keyval_args : dict data;
  _bool_args : list string
}.

(** The interpreter state the component module touches: the instances and
    the [last_parent] context variable (default [(None, None)]). *)
Record store := {
  heap : gmap loc obj;
  last_parent : option Z * option loc
}.

Definition empty_store : store := {| heap := ∅; last_parent := (None, None) |}.

Definition get_obj (s : store) (l : loc) : result obj :=
  match heap s !! l with
  | Some o => Ok o
  | None => Raise (AttributeError "no such object")
  end.

Definition set_obj (s : store) (l : loc) (o : obj) : store :=
  {| heap := <[l := o]> (heap s); last_parent := last_parent s |}.

Definition alloc (s : store) (o : obj) : store * loc :=
  let l := fresh (dom (heap s)) in (set_obj s l o, l).

Definition has_children_mixin (k : kind) : bool :=
  match k with KSelfClosing => false | _ => true end.

Definition is_html (k : kind) : bool :=
  match k with KHtml | KSelfClosing => true | _ => false end.

(** ** The component factory *)

Module Factory.

(** [_make_defaults] *)
Definition _make_defaults (sp : argspec) : result (option (dict data)) :=
  if bool_decide (varargs sp ≠ None) || bool_decide (varkw sp ≠ None) then
    Raise (TypeError "Components cannot have *args or **kwargs")
  else if bool_decide (args sp = []) && bool_decide (kwonlyargs sp = []) then
    Ok None
  else
    let props0 : dict data := [] in
    let props1 :=
      match defaults sp with
      | Some ds =>
          let names_with_defaults := Call.last_n (length ds) (args sp) in
          Dict.update props0 (Dict.of_pairs (zip names_with_defaults ds))
      | None => props0
      end in
    let props2 :=
      match kwonlydefaults sp with
      | Some kd =>
          Dict.update props1 (filter (fun kv => negb (is_none kv.2) = true) kd)
      | None => props1
      end in
    Ok (Some props2).

(** [list.remove(x)]: drops the first occurrence, [ValueError] when absent. *)
Fixpoint list_remove (x : string) (l : list string) : result (list string) :=
  match l with
  | [] => Raise (ValueError "list.remove(x): x not in list")
  | y :: l' => if String.eqb y x then Ok l'
               else r ← list_remove x l'; Ok (y :: r)
  end.

(** [_make_func_component] *)
Definition _make_func_component (func : pyfunc) : result comp_class :=
  let argspec := fn_spec func in
  let pass_children := bool_decide ("children" ∈ kwonlyargs argspec) in
  dflt ← _make_defaults argspec;
  Ok {| cls_name := fn_name func;
        cls_kind := KFunc func;
        _argnames := args argspec;
        _defaults := dflt;
        _pass_children := pass_children;
        _html_tag := "";
        _attributes := None |}.

(** [_make_class_component] *)
Definition _make_class_component (user_class : userclass) : result comp_class :=
  match uc_render user_class with
  | None => Raise (TypeError (uc_name user_class +:+ " doesn't have a .render() method."))
  | Some (render_argspec, _) =>
      init_args ← list_remove "self" (args (uc_init user_class));
      let init_argspec :=
        {| args := init_args;
           varargs := varargs (uc_init user_class);
           varkw := varkw (uc_init user_class);
           defaults := defaults (uc_init user_class);
           kwonlyargs := kwonlyargs (uc_init user_class);
           kwonlydefaults := kwonlydefaults (uc_init user_class) |} in
      let pass_children :=
        bool_decide ("children" ∈ args render_argspec ++ kwonlyargs render_argspec) in
      dflt ← _make_defaults init_argspec;
      Ok {| cls_name := uc_name user_class;
            cls_kind := KClass user_class;
            _argnames := init_args;
            _defaults := dflt;
            _pass_children := pass_children;
            _html_tag := "";
            _attributes := None |}
  end.

(** What [Component] can be applied to. *)
Inductive pyobj :=
| PyFunction (f : pyfunc)
| PyClass (u : userclass)
| PyOther.

(** [Component] *)
Definition Component (func_or_class : pyobj) : result comp_class :=
  match func_or_class with
  | PyFunction f => _make_func_component f
  | PyClass u => _make_class_component u
  | PyOther => Raise (TypeError "Components can only be classes or functions")
  end.

(** [str.capitalize] on the first letter; tag names are lower-case ASCII. *)
Definition capitalize (s : string) : string :=
  match s with
  | EmptyString => EmptyString
  | String a s' =>
      let n := nat_of_ascii a in
      String (if (97 <=? n)%nat && (n <=? 122)%nat
              then ascii_of_nat (n - 32) else a) s'
  end.

(** [_HtmlElem], with the parent class given by its kind. *)
Definition _HtmlElem (html_tag : string) (parent_class : kind) : comp_class :=
  {| cls_name := capitalize html_tag;
     cls_kind := parent_class;
     _argnames := [];
     _defaults := None;
     _pass_children := false;
     _html_tag := html_tag;
     _attributes := None |}.

Definition _Elem (html_tag : string) : comp_class := _HtmlElem html_tag KHtml.
Definition _SelfElem (html_tag : string) : comp_class :=
  _HtmlElem html_tag KSelfClosing.

(** A subclass of an element type that fixes some attributes:
    [class Sub(Base): _attributes = attrs]. *)
Definition with_attributes (name : string) (base : comp_class)
    (attrs : dict data) : comp_class :=
  {| cls_name := name;
     cls_kind := cls_kind base;
     _argnames := _argnames base;
     _defaults := _defaults base;
     _pass_children := _pass_children base;
     _html_tag := _html_tag base;
     _attributes := Some attrs |}.
End Factory.

(** Field updates on an instance. *)
Definition with_children (o : obj) (v : value) : obj :=
  {| cls := cls o; props := props o; _children := v; _lazy := _lazy o;
     saved := saved o; _original_kwargs := _original_kwargs o;
     _keyval_args := _keyval_args o; _bool_args := _bool_args o |}.

Definition with_lazy (o : obj) (b : bool) : obj :=
  {| cls := cls o; props := props o; _children := _children o; _lazy := b;
     saved := saved o; _original_kwargs := _original_kwargs o;
     _keyval_args := _keyval_args o; _bool_args := _bool_args o |}.

Definition with_saved (o : obj) (sv : option Z * option loc) : obj :=
  {| cls := cls o; props := props o; _children := _children o; _lazy := _lazy o;
     saved := Some sv; _original_kwargs := _original_kwargs o;
     _keyval_args := _keyval_args o; _bool_args := _bool_args o |}.

Definition with_last_parent (s : store) (p : option Z * option loc) : store :=
  {| heap := heap s; last_parent := p |}.

(** ** Element serialization: [_HTMLComponentBase] *)

Module Html.
Section html.
Context `{!Prims}.

Definition dquote : ascii := Ascii.ascii_of_nat 34.
Definition squote : ascii := Ascii.ascii_of_nat 39.
Definition underscore : ascii := Ascii.ascii_of_nat 95.
Definition hyphen : ascii := Ascii.ascii_of_nat 45.

(** The first test of the loop: [val] is a [str] holding a double quote
and a single quote. *)
Definition both_quotes (val : data) : bool :=
match val with
| DStr s | DSafe s => Str.contains dquote s && Str.contains squote s
| _ => false
end.

Definition converted : Type := dict data * dict data * list string.

(** One iteration of the loop of [_convert_kwargs]. *)
Definition convert_item (acc : converted) (kv : string * data)
: result converted :=
let '(new_kwargs, keyval_args, bool_args) := acc in
let (key, val) := kv in
if both_quotes val then
Raise (ValueError "Both single and double quotes in attribute value")
else
let no_underscore := Str.drop_last key in
if iskeyword no_underscore then
  Ok (Dict.set no_underscore val new_kwargs,
      Dict.set no_underscore val keyval_args, bool_args)
else match val with
     | DBool true => Ok (new_kwargs, keyval_args, bool_args ++ [key])
     | DBool false => Ok acc
     | _ => Ok (Dict.set key val new_kwargs,
                Dict.set key val keyval_args, bool_args)
     end.

Fixpoint convert_loop (acc : converted) (kwargs : dict data)
: result converted :=
match kwargs with
| [] => Ok acc
| kv :: rest => acc' ← convert_item acc kv; convert_loop acc' rest
end.

(** [_convert_kwargs] *)
Definition _convert_kwargs (kwargs : dict data) : result converted :=
convert_loop ([], [], []) kwargs.

(** [conv]: underscores of an attribute name become hyphens, then the
name is escaped. *)
Definition conv (s : string) : string :=
escape_text (Str.replace underscore hyphen s).

(** The text of one key/value attribute. *)
Definition html_attr (k : string) (v : data) : string :=
let html_key := conv k in
let html_val := escape_data v in
if Str.contains dquote html_val
then html_key +:+ "='" +:+ html_val +:+ "'"
else html_key +:+ "=" +:+ String dquote html_val +:+ String dquote "".

Definition lead_space (joined : string) : string :=
if String.eqb joined "" then "" else " " +:+ joined.

(** [_get_attributes] *)
Definition _get_attributes (o : obj) : string :=
let bool_args := Str.join " " (map conv (_bool_args o)) in
let bool_args := lead_space bool_args in
let kv_args :=
map (fun kv => html_attr kv.1 kv.2)
    (filter (fun kv => is_none kv.2 = false) (_keyval_args o)) in
let kv_args := Str.join " " kv_args in
let kv_args := lead_space kv_args in
bool_args +:+ kv_args.
End html.
End Html.

(** ** Construction and the property bag: [_ComponentBase] *)

Section component.
Context `{!Prims}.

(** [_ComponentBase.__init__] : the props of the new instance. *)
Definition base_init (c : comp_class) (pos : list data) (kwargs : dict data)
  : dict data :=
  let props0 : dict data :=
    match _defaults c with
    | Some d => match d with [] => [] | _ => d end
    | None => []
    end in
  let props1 :=
    match pos with
    | [] => props0
    | _ => fold_left (fun acc nv => Dict.set nv.1 nv.2 acc)
                     (zip (_argnames c) pos) props0
    end in
  Dict.update props1 kwargs.

(** The instance a call [c(pos, kwargs)] initialises, following the
    [__init__] chain of [c]'s bases. *)
Definition init_instance (c : comp_class) (pos : list data)
    (kwargs : dict data) : result obj :=
  if is_html (cls_kind c) then
    match pos with
    | _ :: _ => Raise (TypeError "__init__() takes 1 positional argument")
    | [] =>
        let kwargs :=
          match _attributes c with
          | Some a => Dict.update kwargs a
          | None => kwargs
          end in
        '(new_kwargs, keyval_args, bool_args) ← Html._convert_kwargs kwargs;
        Ok {| cls := c; props := base_init c [] new_kwargs;
              _children := VSeq []; _lazy := false; saved := None;
              _original_kwargs := kwargs;
              _keyval_args := keyval_args; _bool_args := bool_args |}
    end
  else
    Ok {| cls := c; props := base_init c pos kwargs;
          _children := VSeq []; _lazy := false; saved := None;
          _original_kwargs := []; _keyval_args := []; _bool_args := [] |}.

(** Calling a component type: a new instance in the store. *)
Definition construct (s : store) (c : comp_class) (pos : list data)
    (kwargs : dict data) : result (store * loc) :=
  o ← init_instance c pos kwargs; Ok (alloc s o).

(** [__repr__] *)
Definition __repr__ (o : obj) : string :=
  let proplist :=
    Str.join ", " (map (fun kv => kv.1 +:+ "=" +:+ data_repr kv.2) (props o)) in
  "<" +:+ cls_name (cls o) +:+ "(" +:+ proplist +:+ ")>".

(** [_merge] *)
Definition _merge (s : store) (self : loc) (kwargs : dict data)
  : result (store * loc) :=
  o ← get_obj s self;
  let merged_props := Dict.update (props o) kwargs in
  construct s (cls o) [] merged_props.

End component.

(** The methods as [_ComponentBase] defines them. *)
Module Base.
Section base.
  Context `{!Prims}.

Definition replace (s : store) (self : loc) (kwargs : dict data) :=
  _merge s self kwargs.

Fixpoint append_loop (pr : dict data) (appended : dict data)
    (kwargs : dict data) : result (dict data) :=
  match kwargs with
  | [] => Ok appended
  | (key, val) :: rest =>
      val' ← match Dict.get key pr with
             | Some old => py_add old val
             | None => Ok val
             end;
      append_loop pr (Dict.set key val' appended) rest
  end.

Definition append (s : store) (self : loc) (kwargs : dict data)
  : result (store * loc) :=
  o ← get_obj s self;
  appended ← append_loop (props o) [] kwargs;
  _merge s self appended.

Definition overlapping (pr kwargs : dict data) : list string :=
  filter (fun key => Dict.mem key pr = true) (Dict.keys kwargs).

Definition merge_message (o : obj) (overlapping : list string) : string :=
  let overlapping_keys := Str.join ", " overlapping in
  overlapping_keys +:+ " already specified in " +:+ __repr__ o +:+ ", " +:+
  "use the replace method if you want to replace arguments".

Definition merge (s : store) (self : loc) (kwargs : dict data)
  : result (store * loc) :=
  o ← get_obj s self;
  match overlapping (props o) kwargs with
  | [] => _merge s self kwargs
  | ov => Raise (KeyError (merge_message o ov))
  end.

Definition copy (s : store) (self : loc) : result (store * loc) :=
  _merge s self [].
End base.
End Base.

(** ** The methods of a component instance, by dynamic dispatch *)

Section methods.
Context `{!Prims}.

(** [_HTMLComponentBase] overrides [replace], [append] and [merge]: the
    keywords are converted first. *)
Definition html_converted (o : obj) (kwargs : dict data) : result (dict data) :=
  if is_html (cls_kind (cls o)) then
    '(converted, _, _) ← Html._convert_kwargs kwargs; Ok converted
  else Ok kwargs.

Definition replace (s : store) (self : loc) (kwargs : dict data)
  : result (store * loc) :=
  o ← get_obj s self;
  converted ← html_converted o kwargs;
  Base.replace s self converted.

Definition append (s : store) (self : loc) (kwargs : dict data)
  : result (store * loc) :=
  o ← get_obj s self;
  converted ← html_converted o kwargs;
  Base.append s self converted.

Definition merge (s : store) (self : loc) (kwargs : dict data)
  : result (store * loc) :=
  o ← get_obj s self;
  converted ← html_converted o kwargs;
  Base.merge s self converted.

Definition copy (s : store) (self : loc) : result (store * loc) :=
  Base.copy s self.

(** The outcome of a binary operator method. *)
Inductive binop_result :=
| NotImplemented
| Returned (l : loc).

(** The function [lambda: safe(self) * other] of [__mul__]. *)
Definition mul_lambda (self : loc) (other : Z) : pyfunc :=
  {| fn_name := "<lambda>";
     fn_spec := {| args := []; varargs := None; varkw := None;
                   defaults := None; kwonlyargs := [];
                   kwonlydefaults := None |};
     fn_body := fun str_of _ =>
                  text ← str_of self; Ok (VData (DSafe (Str.repeat text other))) |}.

Definition rename (c : comp_class) (name : string) : comp_class :=
  {| cls_name := name; cls_kind := cls_kind c; _argnames := _argnames c;
     _defaults := _defaults c; _pass_children := _pass_children c;
     _html_tag := _html_tag c; _attributes := _attributes c |}.

(** [__mul__] *)
Definition __mul__ (s : store) (self : loc) (other : value)
  : result (store * binop_result) :=
  o ← get_obj s self;
  match other with
  | VData d =>
      match int_of d with
      | None => Ok (s, NotImplemented)
      | Some n =>
          Multiple ← Factory.Component (Factory.PyFunction (mul_lambda self n));
          let Multiple := rename Multiple ("Multi" +:+ cls_name (cls o)) in
          '(s', m) ← construct s Multiple [] [];
          Ok (s', Returned m)
      end
  | _ => Ok (s, NotImplemented)
  end.

(** *** The children container and the parent-tracking slot:
    [_ChildrenMixin] *)

(** [container.append(x)] on what [_children] holds. *)
Definition py_append (container : value) (x : value) : result value :=
  match container with
  | VSeq vs => Ok (VSeq (vs ++ [x]))
  | VData (DSeq ds) => Ok (VSeq (map VData ds ++ [x]))
  | _ => Raise (AttributeError "object has no attribute 'append'")
  end.

Definition children_capable (s : store) (self : loc) : result obj :=
  o ← get_obj s self;
  if has_children_mixin (cls_kind (cls o)) then Ok o
  else Raise (AttributeError "not a _ChildrenMixin").

(** [__enter__]; [caller] is [id(inspect.currentframe().f_back)]. *)
Definition __enter__ (s : store) (self : loc) (caller : Z)
  : result (store * loc) :=
  o ← children_capable s self;
  let '(parent_frame_id, parent) := last_parent s in
  let s1 := set_obj s self (with_saved o (parent_frame_id, parent)) in
  let current_frame_id := caller in
  Ok (with_last_parent s1 (Some current_frame_id, Some self), self).

(** [__exit__]; [exc] is the exception that leaves the block, if any.  The
    method returns [None]: the exception is not suppressed. *)
Definition __exit__ (s : store) (self : loc) (caller : Z) (exc : option exn)
  : result store :=
  o ← children_capable s self;
  match saved o with
  | None => Raise (AttributeError "_parent")
  | Some (_parent_frame_id, _parent) =>
      let current_frame_id := caller in
      s1 ← match _parent with
           | Some p =>
               if bool_decide (Some current_frame_id = _parent_frame_id) then
                 po ← get_obj s p;
                 ch ← py_append (_children po) (VRef self);
                 Ok (set_obj s p (with_children po ch))
               else Ok s
           | None => Ok s
           end;
      Ok (with_last_parent s1 (_parent_frame_id, _parent))
  end.

(** [__iadd__] *)
Definition __iadd__ (s : store) (self : loc) (other : value)
  : result (store * loc) :=
  o ← children_capable s self;
  ch ← py_append (_children o) other;
  Ok (set_obj s self (with_children o ch), self).

(** [lazy] *)
Definition lazy (s : store) (self : loc) : result (store * loc) :=
  _ ← children_capable s self;
  '(s', new) ← copy s self;
  o ← get_obj s' new;
  Ok (set_obj s' new (with_lazy o true), new).
End methods.

(** ** The render pipeline *)

Section render.
Context `{!Prims}.

(** Truth value of a content value; a component instance defines neither
    [__bool__] nor [__len__]. *)
Definition value_truthy (v : value) : bool :=
  match v with
  | VData d => truthy d
  | VRef _ => true
  | VSeq vs => match vs with [] => false | _ => true end
  end.

(** [isinstance(v, (str, safe, _ChildrenMixin))] *)
Definition is_text_or_children_mixin (s : store) (v : value) : bool :=
  match v with
  | VData d => is_str d
  | VRef l => match heap s !! l with
              | Some o => has_children_mixin (cls_kind (cls o))
              | None => false
              end
  | VSeq _ => false
  end.

(** Modelled from the spec: [_is_iterable] of [utils.py], which is not
    among the sources.  Text and sequences are iterable, and so is a
    children-capable component, because it defines item access. *)
Definition _is_iterable (s : store) (v : value) : bool :=
  match v with
  | VData (DStr _) | VData (DSafe _) | VData (DSeq _) => true
  | VData _ => false
  | VRef l => match heap s !! l with
              | Some o => has_children_mixin (cls_kind (cls o))
              | None => false
              end
  | VSeq _ => true
  end.

(** [for ch in v]: the items of a sequence, the characters of a text.
    Iterating a component instance goes through repeated item access on
    it and does not come back with a list of items; it is reported as
    [RecursionError] here and no result below relies on it. *)
Definition py_iter (v : value) : result (list value) :=
  match v with
  | VSeq vs => Ok vs
  | VData (DSeq ds) => Ok (map VData ds)
  | VData (DStr t) | VData (DSafe t) => Ok (map (fun c => VData (DStr c)) (Str.chars t))
  | VData _ => Raise (TypeError "object is not iterable")
  | VRef _ => Raise RecursionError
  end.

(** [repr] of a content value. *)
Fixpoint value_repr (s : store) (v : value) : string :=
  match v with
  | VData d => data_repr d
  | VRef l => match heap s !! l with
              | Some o => __repr__ o
              | None => "<object>"
              end
  | VSeq vs => seq_text (map (value_repr s) vs)
  end.

(** [escape(v)] for a value that is not a component instance (the
    pipeline turns those into text itself): see [escape_data]. *)
Definition escape (s : store) (v : value) : string :=
  match v with
  | VData d => escape_data d
  | _ => escape_text (value_repr s v)
  end.

Section step.
(** One level of rendering; [str_of] renders a nested component. *)
Variable s : store.
Variable str_of : loc → result string.

(** [_escape] *)
Definition _escape (children : value) : result (list string) :=
  items ← py_iter children;
  result_mapM (fun ch => match ch with
                         | VRef l => str_of l          (* safe(ch) *)
                         | _ => Ok (escape s ch)
                         end) items.

(** [_FuncComponent._get_content] *)
Definition func_arguments (o : obj) (children : string)
  : result (list data * dict data) :=
  args ← result_mapM (fun argname =>
             match Dict.get argname (props o) with
             | Some v => Ok v
             | None => Raise (KeyError argname)
             end) (_argnames (cls o));
  let kwargs : dict data :=
    filter (fun kv => kv.1 ∉ _argnames (cls o)) (props o) in
  let kwargs := if _pass_children (cls o)
                then Dict.set "children" (DSafe children) kwargs
                else kwargs in
  Ok (args, kwargs).

Definition func_get_content (func : pyfunc) (o : obj) (children : string)
  : result value :=
  '(args, kwargs) ← func_arguments o children;
  Call.call str_of func args kwargs.

(** A bound method does not list [self]. *)
Definition bound_spec (sp : argspec) : argspec :=
  {| args := match args sp with
             | a :: rest => if String.eqb a "self" then rest else a :: rest
             | [] => []
             end;
     varargs := varargs sp; varkw := varkw sp; defaults := defaults sp;
     kwonlyargs := kwonlyargs sp; kwonlydefaults := kwonlydefaults sp |}.

(** The positional arguments [_ClassComponent._get_content] gives to
    [render]. *)
Definition class_render_arguments (o : obj) (children : string) : list data :=
  if _pass_children (cls o) then [DSafe children] else [].

(** [_ClassComponent._get_content], with [_user_instance]. *)
Definition class_get_content (u : userclass) (o : obj) (children : string)
  : result value :=
  _user_instance ← Call.bind (bound_spec (uc_init u)) [] (props o);
  match uc_render u with
  | None => Raise (AttributeError "render")
  | Some (render_spec, render) =>
      bound ← Call.bind (bound_spec render_spec)
                        (class_render_arguments o children) [];
      render str_of _user_instance bound
  end.

(** [_ContentMixin._render] on the content obtained. *)
Definition render_content (content : value) : result string :=
  match content with
  | VData (DSafe c) => Ok c
  | VRef l => str_of l
  | VData (DStr c) => Ok (escape s content)
  | _ => if _is_iterable s content
         then escaped ← _escape content; Ok (Str.concat escaped)
         else Ok (escape s content)
  end.

(** [_render]: [_ContentMixin._render] or [_HTMLComponent._render]. *)
Definition _render (o : obj) (children : string) : result string :=
  match cls_kind (cls o) with
  | KFunc func => content ← func_get_content func o children;
                  render_content content
  | KClass u => content ← class_get_content u o children;
                render_content content
  | KHtml =>
      let attributes := Html._get_attributes o in
      let tag := _html_tag (cls o) in
      Ok ("<" +:+ tag +:+ attributes +:+ ">" +:+ children +:+
          "</" +:+ tag +:+ ">")
  | KSelfClosing => Raise (AttributeError "_render")
  end.

(** [__render] *)
Definition __render (o : obj) (children : value) : result string :=
  if negb (value_truthy children) then _render o ""
  else
    escaped_children ← _escape children;
    let safe_children := Str.concat escaped_children in
    _render o safe_children.

(** [__str__]: [_ChildrenMixin.__str__] or
    [_SelfClosingHTMLComponent.__str__]. *)
Definition __str__ (self : loc) : result string :=
  o ← get_obj s self;
  match cls_kind (cls o) with
  | KSelfClosing =>
      let attributes := Html._get_attributes o in
      Ok ("<" +:+ _html_tag (cls o) +:+ attributes +:+ " />")
  | _ => __render o (_children o)
  end.
End step.

(** [str(c)], also [safe(c)]: the recursion of the pipeline, bounded by
    the interpreter's recursion limit. *)
Fixpoint py_str (limit : nat) (s : store) (self : loc) : result string :=
  match limit with
  | O => Raise RecursionError
  | S n => __str__ s (py_str n s) self
  end.

(** [_ChildrenMixin.__getitem__] *)
Definition base_getitem (limit : nat) (s : store) (self : loc)
    (children : value) : result string :=
  o ← children_capable s self;
  let children :=
    if _is_iterable s children then
      if is_text_or_children_mixin s children then VSeq [children]
      else children
    else VSeq [children] in
  __render s (py_str limit s) o children.

Inductive getitem_result :=
| Rendered (text : string)
| Bound (self : loc).

(** [_LazyComponent.__getitem__] *)
Definition __getitem__ (limit : nat) (s : store) (self : loc)
    (children : value) : result (store * getitem_result) :=
  o ← children_capable s self;
  if negb (_lazy o) then
    text ← base_getitem limit s self children; Ok (s, Rendered text)
  else if value_truthy (_children o) then
    Raise (ValueError "Lazy component already has children")
  else
    Ok (set_obj s self (with_children o children), Bound self).

(** [__class_getitem__] *)
Definition __class_getitem__ (limit : nat) (s : store) (c : comp_class)
    (key : value) : result (store * getitem_result) :=
  '(s', new) ← construct s c [] [];
  __getitem__ limit s' new key.
End render.

(** ** A concrete instance of the collaborators

    Modelled from the spec: [escape] is the HTML-entity escaping of the five
    characters that require it, [&], [<], [>] and the two quotes.  The
    [repr] of a text is its single-quoted form, which is what Python prints
    for a text without quotes, backslashes or control characters. *)

Module Markup.
Definition escape_char (a : ascii) : string :=
  let n := nat_of_ascii a in
  if (n =? 38)%nat then "&amp;"
  else if (n =? 60)%nat then "&lt;"
  else if (n =? 62)%nat then "&gt;"
  else if (n =? 34)%nat then "&#34;"
  else if (n =? 39)%nat then "&#39;"
  else String a EmptyString.

Fixpoint escape_text (s : string) : string :=
  match s with
  | EmptyString => EmptyString
  | String a s' => escape_char a +:+ escape_text s'
  end.

Definition repr_text (is_safe : bool) (s : string) : string :=
  if is_safe then "safe('" +:+ s +:+ "')" else "'" +:+ s +:+ "'".
End Markup.

#[global] Instance markup_prims : Prims :=
  {| escape_text := Markup.escape_text; repr_text := Markup.repr_text |}.

(** * Vocabulary of the properties, and running examples *)

(** A well-formed dictionary has each key once. *)
Definition dict_wf {V} (d : dict V) : Prop := NoDup (Dict.keys d).

Section vocabulary.
Context `{!Prims}.





(** The rules as the specification words them, with the recursive
flattening of rule 4: a component renders through [str_of], a SafeString
passes, a plain string is escaped, an iterable is flattened by these same
rules, anything else is escaped via its text. *)
Fixpoint flattened_data (d : data) : string :=
  match d with
  | DSafe t => t
  | DStr t => escape_text t
  | DSeq ds => Str.concat (map flattened_data ds)
  | _ => escape_data d
  end.

Fixpoint flattened_item (str_of : loc → result string) (v : value)
  : result string :=
  match v with
  | VRef l => str_of l
  | VData d => Ok (flattened_data d)
  | VSeq vs =>
      texts ← (fix items (vs : list value) : result (list string) :=
                 match vs with
                 | [] => Ok []
                 | v :: vs' =>
                     t ← flattened_item str_of v; ts ← items vs'; Ok (t :: ts)
                 end) vs;
      Ok (Str.concat texts)
  end.

(** The rules the pipeline applies to one child: a component renders
through [str_of], a SafeString passes, a plain string is escaped, and any
other value, a nested sequence included, is escaped via its text
representation. *)
Definition assembled_item (s : store) (str_of : loc → result string)
    (v : value) : result string :=
  match v with
  | VRef l => str_of l
  | VData (DSafe t) => Ok t
  | VData (DStr t) => Ok (escape_text t)
  | VData d => Ok (escape_text (data_str d))
  | VSeq vs => Ok (escape_text (seq_text (map (value_repr s) vs)))
  end.

Definition quoting_error : exn :=
  ValueError "Both single and double quotes in attribute value".

(** What the loop of [_convert_kwargs] keeps, relative to the keywords
[src] it runs over: an entry of [new_kwargs] holds the value of some keyword
of [src], under a reserved word or else under that keyword's own name with
a value that is not a boolean; a name in [bool_args] is a keyword of [src]
whose value is [True]. *)
Definition converted_from (src : dict data) (acc : Html.converted) : Prop :=
  (∀ k v, (k, v) ∈ acc.1.1 →
          ∃ k0, (k0, v) ∈ src ∧
                (iskeyword k = true ∨ (is_bool v = false ∧ k0 = k))) ∧
  (∀ k, k ∈ acc.2 → (k, DBool true) ∈ src).

(** The keywords [_HTMLComponentBase.__init__] converts: the ones given,
overlaid with the attributes the class fixes. *)
Definition effective_kwargs (c : comp_class) (kwargs : dict data) : dict data :=
  match _attributes c with
  | Some fixed => Dict.update kwargs fixed
  | None => kwargs
  end.

(** An instance as its constructor leaves it: the props are a dictionary
and hold every key of the defaults of its type. *)
Definition props_cover_defaults (o : obj) : Prop :=
  dict_wf (props o) ∧
  ∀ d k, _defaults (cls o) = Some d → k ∈ Dict.keys d → k ∈ Dict.keys (props o).

(** What [_ComponentBase.__init__] starts from. *)
Definition initial_props (c : comp_class) : dict data :=
  match _defaults c with
  | Some d => d
  | None => []
  end.

(** A keyword that conversion leaves as it is: no text with both quotes,
not a reserved word once its last character is dropped, not a boolean. *)
Definition plain_keyword (kv : string * data) : Prop :=
  Html.both_quotes kv.2 = false ∧
  iskeyword (Str.drop_last kv.1) = false ∧
  is_bool kv.2 = false.

(** The instance [new] of [s2] was built next to the receiver, which is
left as it was. *)
Definition rebuilt_next_to (s s2 : store) (self new : loc) (o o' : obj)
  : Prop :=
  heap s !! new = None ∧ new ≠ self ∧
  heap s2 = <[new := o']> (heap s) ∧
  heap s2 !! self = Some o ∧
  last_parent s2 = last_parent s.

(** [with c: pass], written in scope [f]. *)
Definition run_leaf_block (f : Z) (s : store) (c : loc) : result store :=
  '(s1, _) ← __enter__ s c f; __exit__ s1 c f None.

(** A sequence of such blocks, one after the other. *)
Fixpoint run_leaf_blocks (f : Z) (s : store) (cs : list loc) : result store :=
  match cs with
  | [] => Ok s
  | c :: cs' => s1 ← run_leaf_block f s c; run_leaf_blocks f s1 cs'
  end.

(** The name a keyword is serialized under: without its last character when
that is a reserved word. *)
Definition attr_name (k : string) : string :=
  if iskeyword (Str.drop_last k) then Str.drop_last k else k.

(** A presence-only attribute: [True] under a key that is not of the
reserved-word form. *)
Definition is_flag (kv : string * data) : bool :=
  negb (iskeyword (Str.drop_last kv.1)) &&
  match kv.2 with DBool true => true | _ => false end.

(** A key/value attribute: a key of the reserved-word form, or a value that
is not a boolean. *)
Definition is_keyval (kv : string * data) : bool :=
  iskeyword (Str.drop_last kv.1) || negb (is_bool kv.2).

Definition classified_flags (kwargs : dict data) : list string :=
  map fst (filter (fun kv => is_flag kv = true) kwargs).

Definition classified_keyvals (kwargs : dict data) : dict data :=
  map (fun kv => (attr_name kv.1, kv.2))
      (filter (fun kv => is_keyval kv = true) kwargs).

End vocabulary.

(** A running example: a [Div] instance at identity 0 that has been entered
    in scope 7, and a second [Div] instance at identity 1. *)
Module Scene.
Definition Div : comp_class := Factory._Elem "div".
Definition Hr : comp_class := Factory._SelfElem "hr".

Definition fresh_div : obj :=
  {| cls := Div; props := []; _children := VSeq []; _lazy := false;
     saved := None; _original_kwargs := []; _keyval_args := [];
     _bool_args := [] |}.

Definition parent_entered : store :=
  {| heap := <[1%nat := fresh_div]>
               (<[0%nat := with_saved fresh_div (None, None)]> ∅);
     last_parent := (Some 7, Some 0%nat) |}.

End Scene.

(** The integer an operand of [*] stands for, if [isinstance(other, int)]. *)
Definition operand_int (other : value) : option Z :=
  match other with
  | VData d => int_of d
  | _ => None
  end.

Module MulScene.
Definition hr : obj :=
  {| cls := Scene.Hr; props := []; _children := VSeq []; _lazy := false;
     saved := None; _original_kwargs := []; _keyval_args := [];
     _bool_args := [] |}.
Definition st : store := {| heap := {[ 0%nat := hr ]}; last_parent := (None, None) |}.
End MulScene.

Module ChildrenArg.
Definition spec_of (positional kwonly : list string) : argspec :=
  {| args := positional; varargs := None; varkw := None; defaults := None;
     kwonlyargs := kwonly; kwonlydefaults := None |}.

(** A content function that returns its [children] parameter. *)
Definition echo_body (_ : loc → result string) (bound : dict data)
  : result value :=
  match Dict.get "children" bound with
  | Some d => Ok (VData d)
  | None => Ok (VData (DStr "no children"))
  end.

(** [def Echo(children): return children] *)
Definition echo_positional : pyfunc :=
  {| fn_name := "Echo"; fn_spec := spec_of ["children"] [];
     fn_body := echo_body |}.

(** The same function with [children] declared keyword-only (after a
    bare star). *)
Definition echo_kwonly : pyfunc :=
  {| fn_name := "Echo"; fn_spec := spec_of [] ["children"];
     fn_body := echo_body |}.

(** A user class whose [render(self, children)] returns [children]. *)
Definition echo_class : userclass :=
  {| uc_name := "Echo"; uc_init := spec_of ["self"] [];
     uc_render := Some (spec_of ["self"; "children"] [],
                        fun str_of _ bound => echo_body str_of bound) |}.

(** What [Component] makes of them. *)
Definition kwonly_component : comp_class :=
  {| cls_name := "Echo"; cls_kind := KFunc echo_kwonly;
     _argnames := []; _defaults := Some []; _pass_children := true;
     _html_tag := ""; _attributes := None |}.

Definition class_component : comp_class :=
  {| cls_name := "Echo"; cls_kind := KClass echo_class;
     _argnames := []; _defaults := None; _pass_children := true;
     _html_tag := ""; _attributes := None |}.

Definition instance_of (c : comp_class) (pr : dict data) : obj :=
  {| cls := c; props := pr; _children := VSeq []; _lazy := false;
     saved := None; _original_kwargs := []; _keyval_args := [];
     _bool_args := [] |}.

Definition store_of (o : obj) : store :=
  {| heap := {[ 0%nat := o ]}; last_parent := (None, None) |}.
End ChildrenArg.

Module LazyScene.
(** A lazy [Div] instance with an empty children container. *)
Definition lazy_div : obj := with_lazy Scene.fresh_div true.
Definition st : store :=
  {| heap := {[ 0%nat := lazy_div ]}; last_parent := (None, None) |}.
End LazyScene.

Module AssemblyScene.
(** [Div[["a", "b"], "c"]]: the first child is itself a list. *)
Definition nested : value :=
  VSeq [VData (DSeq [DStr "a"; DStr "b"]); VData (DStr "c")].
Definition st : store :=
  {| heap := {[ 0%nat := Scene.fresh_div ]}; last_parent := (None, None) |}.
End AssemblyScene.

Module AssemblyWitness.
Definition vs : list value := [VData (DSafe "<b>"); VData (DStr "<i>")].
Definition str_of : loc → result string := py_str 3 AssemblyScene.st.
End AssemblyWitness.

Module AttrScene.
Definition Input : comp_class := Factory._SelfElem "input".
Definition Script : comp_class := Factory._Elem "script".

(** One double-quote character, as a text. *)
Definition q : string := String Html.dquote "".

(** The rendering of an instance of [c] built from the keywords
[kwargs]. *)
Definition rendered (c : comp_class) (kwargs : dict data) : result string :=
  '(s, l) ← construct empty_store c [] kwargs; py_str 2 s l.
End AttrScene.

(** The value is a text ([str] or [safe]) that holds a double quote and a
single quote. *)
Definition text_with_both_quotes (v : data) : Prop :=
  ∃ t, (v = DStr t ∨ v = DSafe t) ∧
       Str.contains Html.dquote t = true ∧ Str.contains Html.squote t = true.

Module QuoteScene.
(** The text [it's "x"]. *)
Definition both : string :=
  "it" +:+ String Html.squote "s " +:+ String Html.dquote "x" +:+
  String Html.dquote "".
End QuoteScene.

(** The component types of markup elements: those made by [_HtmlElem] and
their subclasses that fix attributes. *)
Inductive element_class : comp_class → Prop :=
| element_made (tag : string) (k : kind) :
    is_html k = true → element_class (Factory._HtmlElem tag k)
| element_sub (name : string) (base : comp_class) (fixed : dict data) :
    element_class base → element_class (Factory.with_attributes name base fixed).

(** The name without one trailing underscore. *)
Definition strip_trailing_underscore (k : string) : string :=
  match String.rev k with
  | String a _ => if Ascii.eqb a Html.underscore then Str.drop_last k else k
  | EmptyString => k
  end.

Module FlagScene.
(** [Div(hidden=True, id="x")], built in the empty store. *)
Definition kwargs : dict data := [("hidden", DBool true); ("id", DStr "x")].
Definition built : store * loc :=
  match construct empty_store Scene.Div [] kwargs with
  | Ok r => r
  | Raise _ => (empty_store, 0%nat)
  end.
End FlagScene.

Module BagScene.
(** [Div(id="a")], built in the empty store. *)
Definition built : store * loc :=
  match construct empty_store Scene.Div [] [("id", DStr "a")] with
  | Ok r => r
  | Raise _ => (empty_store, 0%nat)
  end.

(** A function component [def Card(title, size=1)] and [Card("t")], built
in the empty store. *)
Definition card_fn : pyfunc :=
  {| fn_name := "Card";
     fn_spec := {| args := ["title"; "size"]; varargs := None; varkw := None;
                   defaults := Some [DInt 1]; kwonlyargs := [];
                   kwonlydefaults := None |};
     fn_body := fun _ bound =>
                  match Dict.get "title" bound with
                  | Some d => Ok (VData d)
                  | None => Ok (VData DNone)
                  end |}.

Definition Card : comp_class :=
  match Factory.Component (Factory.PyFunction card_fn) with
  | Ok c => c
  | Raise _ => Scene.Div
  end.

Definition card : obj :=
  {| cls := Card; props := [("size", DInt 1); ("title", DStr "t")];
     _children := VSeq []; _lazy := false; saved := None;
     _original_kwargs := []; _keyval_args := []; _bool_args := [] |}.

Definition card_store : store :=
  {| heap := {[ 0%nat := card ]}; last_parent := (None, None) |}.
End BagScene.

(** The value [append] stores under [k] for the keyword [k=v]: the sum with
the prop already there, or [v] itself. *)
Definition appended_value `{!Prims} (pr : dict data) (k : string) (v : data)
  : result data :=
  match Dict.get k pr with
  | Some old => py_add old v
  | None => Ok v
  end.

(** An instance of a function- or class-backed type is in order when the
defaults of its type are a dictionary and its props cover them. *)
Definition instance_in_order (o : obj) : Prop :=
  is_html (cls_kind (cls o)) = false →
  props_cover_defaults o ∧ ∀ d, _defaults (cls o) = Some d → dict_wf d.

Definition store_in_order (s : store) : Prop :=
  ∀ l o, heap s !! l = Some o → instance_in_order o.

Module CardWitness.
(** [Card("t", size=5)]: the keyword overrides the default of [size]. *)
Definition pos : list data := [DStr "t"].
Definition kwargs : dict data := [("size", DInt 5)].
End CardWitness.

Section steps.
Context `{!Prims}.

(** One call into the component module, as a transition of the store. *)
Inductive module_step : store → store → Prop :=
| step_component (x : Factory.pyobj) (c : comp_class) (pos : list data)
    (kwargs : dict data) (s s2 : store) (new : loc) :
    Factory.Component x = Ok c →
    construct s c pos kwargs = Ok (s2, new) → module_step s s2
| step_element (c : comp_class) (kwargs : dict data) (s s2 : store) (new : loc) :
    element_class c →
    construct s c [] kwargs = Ok (s2, new) → module_step s s2
| step_replace (self : loc) (K : dict data) (s s2 : store) (new : loc) :
    replace s self K = Ok (s2, new) → module_step s s2
| step_append (self : loc) (K : dict data) (s s2 : store) (new : loc) :
    append s self K = Ok (s2, new) → module_step s s2
| step_merge (self : loc) (K : dict data) (s s2 : store) (new : loc) :
    merge s self K = Ok (s2, new) → module_step s s2
| step_copy (self : loc) (s s2 : store) (new : loc) :
    copy s self = Ok (s2, new) → module_step s s2
| step_lazy (self : loc) (s s2 : store) (new : loc) :
    lazy s self = Ok (s2, new) → module_step s s2
| step_mul (self : loc) (other : value) (s s2 : store) (r : binop_result) :
    __mul__ s self other = Ok (s2, r) → module_step s s2
| step_iadd (self : loc) (other : value) (s s2 : store) (r : loc) :
    __iadd__ s self other = Ok (s2, r) → module_step s s2
| step_enter (self : loc) (caller : Z) (s s2 : store) (r : loc) :
    __enter__ s self caller = Ok (s2, r) → module_step s s2
| step_exit (self : loc) (caller : Z) (exc : option exn) (s s2 : store) :
    __exit__ s self caller exc = Ok s2 → module_step s s2
| step_getitem (limit : nat) (self : loc) (content : value) (s s2 : store)
    (r : getitem_result) :
    __getitem__ limit s self content = Ok (s2, r) → module_step s s2.

(** The stores a program can reach from the empty one. *)
Definition reachable (s : store) : Prop := rtc module_step empty_store s.
End steps.

Module CardBuilt.
(** The store after [Card("t")] has been constructed in the empty store. *)
Definition built : store * loc :=
  match construct empty_store BagScene.Card [DStr "t"] [] with
  | Ok r => r
  | Raise _ => (empty_store, 0%nat)
  end.
End CardBuilt.

Module ElementWitness.
(** [Div(class_="a", hidden=True, title=None, data_id=3)]. *)
Definition kwargs : dict data :=
  [("class_", DStr "a"); ("hidden", DBool true); ("title", DNone);
   ("data_id", DInt 3)].
Definition built_obj : obj :=
  match init_instance Scene.Div [] kwargs with
  | Ok o => o
  | Raise _ => Scene.fresh_div
  end.
End ElementWitness.

Module SiblingScene.
(** Three [Div] instances at identities 1, 2 and 3 beside a [Div] at
identity 0 that has been entered in scope 7. *)
Definition st : store :=
  {| heap := <[3%nat := Scene.fresh_div]>
               (<[2%nat := Scene.fresh_div]> (heap Scene.parent_entered));
     last_parent := (Some 7, Some 0%nat) |}.
End SiblingScene.

(** [with c: with c: pass]: the same instance entered twice, both blocks
written in scope [f]. *)
Definition run_reentered_block `{!Prims} (f : Z) (s : store) (c : loc)
  : result store :=
  '(s1, _) ← __enter__ s c f;
  '(s2, _) ← __enter__ s1 c f;
  s3 ← __exit__ s2 c f None;
  __exit__ s3 c f None.

(** The text of an element around the content [inner]. *)
Definition element_text `{!Prims} (o : obj) (inner : string) : string :=
  "<" +:+ _html_tag (cls o) +:+ Html._get_attributes o +:+ ">" +:+ inner +:+
  "</" +:+ _html_tag (cls o) +:+ ">".

Module LoopScene.
(** A [Div] whose children are a text and the [Div] itself. *)
Definition looped : obj :=
  with_children Scene.fresh_div (VSeq [VData (DStr "a"); VRef 0%nat]).
Definition st : store :=
  {| heap := {[ 0%nat := looped ]}; last_parent := (None, None) |}.

(** [Card()] built without its required [title]. *)
Definition untitled : obj :=
  {| cls := BagScene.Card; props := [("size", DInt 1)];
     _children := VSeq []; _lazy := false; saved := None;
     _original_kwargs := []; _keyval_args := []; _bool_args := [] |}.
Definition untitled_store : store :=
  {| heap := {[ 0%nat := untitled ]}; last_parent := (None, None) |}.
End LoopScene.

(** Every instance of the store is an HTML element, with or without a
closing tag. *)
Definition elements_only (s : store) : Prop :=
  ∀ l o, heap s !! l = Some o → is_html (cls_kind (cls o)) = true.

Module NestScene.
(** [Div[Hr(), "x"]] with both instances in the store. *)
Definition outer : obj :=
  with_children Scene.fresh_div (VSeq [VRef 1%nat; VData (DStr "x")]).
Definition inner : obj :=
  {| cls := Scene.Hr; props := []; _children := VSeq []; _lazy := false;
     saved := None; _original_kwargs := []; _keyval_args := [];
     _bool_args := [] |}.
Definition st : store :=
  {| heap := <[1%nat := inner]> {[ 0%nat := outer ]};
     last_parent := (None, None) |}.
End NestScene.

Module BadgeScene.
(** [def Badge(label, tone="info", *, size=2, note=None)] *)
Definition badge_fn : pyfunc :=
  {| fn_name := "Badge";
     fn_spec := {| args := ["label"; "tone"]; varargs := None; varkw := None;
                   defaults := Some [DStr "info"];
                   kwonlyargs := ["size"; "note"];
                   kwonlydefaults := Some [("size", DInt 2); ("note", DNone)] |};
     fn_body := fun _ bound =>
                  match Dict.get "label" bound with
                  | Some d => Ok (VData d)
                  | None => Ok (VData DNone)
                  end |}.

Definition Badge : comp_class :=
  {| cls_name := "Badge"; cls_kind := KFunc badge_fn;
     _argnames := ["label"; "tone"];
     _defaults := Some [("tone", DStr "info"); ("size", DInt 2)];
     _pass_children := false; _html_tag := ""; _attributes := None |}.
End BadgeScene.

(** The keywords without the keyword [k]. *)
Definition without_keyword (k : string) (kwargs : dict data) : dict data :=
  filter (fun kv => kv.1 ≠ k) kwargs.

Module TextParentScene.
End TextParentScene.

Module FixedTitleScene.
(** [class Titled(Div): _attributes = {"title": "ok"}] *)
Definition Titled : comp_class :=
  Factory.with_attributes "Titled" Scene.Div [("title", DStr "ok")].
End FixedTitleScene.

Module FormScene.
(** [Input(form=True)], built in the empty store, and its copy. *)
Definition kwargs : dict data := [("form", DBool true)].
Definition built : store * loc :=
  match construct empty_store AttrScene.Input [] kwargs with
  | Ok r => r
  | Raise _ => (empty_store, 0%nat)
  end.
Definition copied : store * loc :=
  match copy built.1 built.2 with
  | Ok r => r
  | Raise _ => (empty_store, 0%nat)
  end.
End FormScene.

Module FixedFlagScene.
(** [class Hidden(Div): _attributes = {"hidden": True}], the instance
[Hidden(hidden=True)] built in the empty store, and its copy. *)
Definition Hidden : comp_class :=
  Factory.with_attributes "Hidden" Scene.Div [("hidden", DBool true)].
Definition kwargs : dict data := [("hidden", DBool true)].
Definition built : store * loc :=
  match construct empty_store Hidden [] kwargs with
  | Ok r => r
  | Raise _ => (empty_store, 0%nat)
  end.
Definition copied : store * loc :=
  match copy built.1 built.2 with
  | Ok r => r
  | Raise _ => (empty_store, 0%nat)
  end.
End FixedFlagScene.

(** * Properties *)

(** ** Dictionary lemmas *)

Section dict_lemmas.

Context {V : Type}.

Implicit Types (d e : dict V) (k : string) (v : V).

Lemma dict_get_set_eq d k v : Dict.get k (Dict.set k v d) = Some v.
Proof.
  induction d as [|[k' v'] d IH]; simpl.
  - by rewrite String.eqb_refl.
  - destruct (String.eqb k' k) eqn:E; simpl.
    + by rewrite String.eqb_refl.
    + by rewrite E.
Qed.

Lemma dict_get_set_ne d k k' v :
  k ≠ k' → Dict.get k' (Dict.set k v d) = Dict.get k' d.
Proof.
  intros Hne. induction d as [|[k0 v0] d IH]; simpl.
  - by apply String.eqb_neq in Hne as ->.
  - destruct (String.eqb k0 k) eqn:E; simpl.
    + apply String.eqb_eq in E as ->.
      by apply String.eqb_neq in Hne as ->.
    + by rewrite IH.
Qed.

Lemma dict_get_set d k k' v :
  Dict.get k' (Dict.set k v d) =
    if String.eqb k k' then Some v else Dict.get k' d.
Proof.
  destruct (String.eqb k k') eqn:E.
  - apply String.eqb_eq in E as ->. apply dict_get_set_eq.
  - apply String.eqb_neq in E. by apply dict_get_set_ne.
Qed.

Lemma dict_get_None d k : Dict.get k d = None ↔ k ∉ Dict.keys d.
Proof.
  induction d as [|[k' v'] d IH]; simpl.
  - split; [intros _; apply not_elem_of_nil|done].
  - rewrite not_elem_of_cons. destruct (String.eqb k' k) eqn:E.
    + apply String.eqb_eq in E as ->. split; [done|]. by intros [? _].
    + apply String.eqb_neq in E. rewrite IH.
      split; [intros ?; split; [congruence|done] | by intros [_ ?]].
Qed.

Lemma dict_mem_keys d k : Dict.mem k d = true ↔ k ∈ Dict.keys d.
Proof.
  unfold Dict.mem. destruct (Dict.get k d) eqn:E.
  - split; [intros _|done].
    destruct (decide (k ∈ Dict.keys d)) as [|Hn]; [done|].
    apply dict_get_None in Hn. congruence.
  - apply dict_get_None in E. split; [done|]. by intros ?.
Qed.

Lemma dict_keys_set d k v :
  Dict.keys (Dict.set k v d) =
    if Dict.mem k d then Dict.keys d else Dict.keys d ++ [k].
Proof.
  unfold Dict.mem. induction d as [|[k' v'] d IH]; simpl; [done|].
  destruct (String.eqb k' k) eqn:E; simpl.
  - by apply String.eqb_eq in E as ->.
  - rewrite IH. by destruct (Dict.get k d).
Qed.

Lemma dict_wf_set d k v : dict_wf d → dict_wf (Dict.set k v d).
Proof.
  unfold dict_wf. intros Hwf. rewrite dict_keys_set.
  destruct (Dict.mem k d) eqn:E; [done|].
  apply NoDup_app. split; [done|]. split; [|apply NoDup_singleton].
  intros x Hx ->%list_elem_of_singleton.
  apply dict_mem_keys in Hx. congruence.
Qed.

(** Assigning a list of pairs in order: the last assignment to a key
    wins, and keys never assigned keep their value. *)
Lemma dict_get_update_None d e k :
  Dict.get k e = None → Dict.get k (Dict.update d e) = Dict.get k d.
Proof.
  unfold Dict.update. revert d.
  induction e as [|[k' v'] e IH]; intros d; simpl; [done|].
  destruct (String.eqb k' k) eqn:E; [done|]. intros He.
  rewrite IH by done. apply dict_get_set_ne. by apply String.eqb_neq.
Qed.

Lemma dict_get_update_Some d e k v :
  dict_wf e → Dict.get k e = Some v →
  Dict.get k (Dict.update d e) = Some v.
Proof.
  unfold Dict.update, dict_wf. revert d.
  induction e as [|[k' v'] e IH]; intros d; simpl; [done|].
  intros [Hnotin Hwf]%NoDup_cons.
  destruct (String.eqb k' k) eqn:E.
  - apply String.eqb_eq in E as ->. intros [= ->].
    change (Dict.get k (Dict.update (Dict.set k v d) e) = Some v).
    rewrite dict_get_update_None; [apply dict_get_set_eq|].
    by apply dict_get_None.
  - intros He. by apply IH.
Qed.

(** [{**d, **e}] read at a key. *)
Lemma dict_get_update d e k :
  dict_wf e →
  Dict.get k (Dict.update d e) =
    match Dict.get k e with Some v => Some v | None => Dict.get k d end.
Proof.
  intros Hwf. destruct (Dict.get k e) eqn:E.
  - by apply dict_get_update_Some.
  - by apply dict_get_update_None.
Qed.

Lemma dict_wf_update d e : dict_wf d → dict_wf (Dict.update d e).
Proof.
  unfold Dict.update. revert d.
  induction e as [|[k v] e IH]; intros d Hd; simpl; [done|].
  apply IH. by apply dict_wf_set.
Qed.

Lemma dict_update_nil d : Dict.update d [] = d.
Proof. done. Qed.

#[global] Instance dict_equiv_equivalence : Equivalence (@Dict.equiv V).
Proof.
  split.
  - by intros d k.
  - intros d e H k. by rewrite H.
  - intros d e f H1 H2 k. by rewrite H1.
Qed.

End dict_lemmas.

(** ** Store lemmas *)

Lemma get_obj_Some (s : store) (l : loc) (o : obj) :
  heap s !! l = Some o → get_obj s l = Ok o.
Proof. unfold get_obj. by intros ->. Qed.

Lemma get_obj_Ok (s : store) (l : loc) (o : obj) :
  get_obj s l = Ok o → heap s !! l = Some o.
Proof. unfold get_obj. by destruct (heap s !! l); intros [= ->]. Qed.

Lemma get_obj_set_obj (s : store) (l : loc) (o : obj) :
  get_obj (set_obj s l o) l = Ok o.
Proof. apply get_obj_Some, lookup_insert_eq. Qed.

Lemma get_obj_set_obj_ne (s : store) (l l' : loc) (o : obj) :
  l ≠ l' → get_obj (set_obj s l o) l' = get_obj s l'.
Proof. intros Hne. unfold get_obj, set_obj; simpl. by rewrite lookup_insert_ne. Qed.

Lemma alloc_fresh (s : store) (o : obj) : heap s !! (alloc s o).2 = None.
Proof. apply not_elem_of_dom, is_fresh. Qed.

Lemma alloc_lookup (s : store) (o : obj) :
  heap (alloc s o).1 !! (alloc s o).2 = Some o.
Proof. apply lookup_insert_eq. Qed.

Lemma alloc_lookup_old (s : store) (o o' : obj) (l : loc) :
  heap s !! l = Some o' → heap (alloc s o).1 !! l = Some o'.
Proof.
  intros Hl.
  assert ((alloc s o).2 ≠ l) as Hne.
  { intros <-. by rewrite alloc_fresh in Hl. }
  unfold alloc in *; simpl in *. by rewrite lookup_insert_ne.
Qed.

Lemma alloc_last_parent (s : store) (o : obj) :
  last_parent (alloc s o).1 = last_parent s.
Proof. done. Qed.

Lemma children_capable_Some (s : store) (l : loc) (o : obj) :
  heap s !! l = Some o → has_children_mixin (cls_kind (cls o)) = true →
  children_capable s l = Ok o.
Proof.
  intros Hl Hk. unfold children_capable. rewrite (get_obj_Some _ _ _ Hl).
  simpl. by rewrite Hk.
Qed.

(** ** Scoped blocks *)

Section scoped_block.

Context `{!Prims}.



End scoped_block.




(** ** Multiplication *)

(** C8.  For an integer operand [n >= 0], [instance * n] returns a new
    instance of a new component type without parameters (no argument names,
    no props) whose rendering is the rendering of [instance] repeated [n]
    times; for an operand that is not an integer the method returns
    [NotImplemented] and the store is untouched. *)
Theorem mul_repeats_safe_text `{!Prims}
    (s : store) (self : loc) (o : obj) (other other' : value) (n : Z) :
  heap s !! self = Some o →
  operand_int other = Some n →
  0 ≤ n →
  operand_int other' = None →
  (∃ s' m om,
      __mul__ s self other = Ok (s', Returned m) ∧
      heap s !! m = None ∧
      heap s' = <[m := om]> (heap s) ∧
      last_parent s' = last_parent s ∧
      cls_name (cls om) = "Multi" +:+ cls_name (cls o) ∧
      _argnames (cls om) = [] ∧ props om = [] ∧
      ∀ limit,
        py_str (S limit) s' m =
          (text ← py_str limit s' self;
           Ok (Str.repeat_nat text (Z.to_nat n)))) ∧
  __mul__ s self other' = Ok (s, NotImplemented).
Proof.
  intros Hl Hn Hpos Hnot. split.
  - destruct other as [d| |]; simpl in Hn; try done.
    unfold __mul__. rewrite (get_obj_Some _ _ _ Hl). simpl. rewrite Hn. simpl.
    eexists _, _, _. split; [reflexivity|].
    split; [apply not_elem_of_dom, is_fresh|].
    split; [reflexivity|]. split; [reflexivity|].
    split; [reflexivity|]. split; [reflexivity|]. split; [reflexivity|].
    intros limit. simpl. unfold __str__.
    rewrite get_obj_set_obj. simpl.
    unfold __render, _render, func_get_content, func_arguments,
      Call.call, Call.bind. simpl.
    by destruct (py_str limit _ self).
  - unfold __mul__. rewrite (get_obj_Some _ _ _ Hl). simpl.
    destruct other' as [d| |]; simpl in *; [by rewrite Hnot|done|done].
Qed.

Lemma mul_repeats_safe_text_witness :
  (∃ s' m om,
      __mul__ MulScene.st 0%nat (VData (DInt 3)) = Ok (s', Returned m) ∧
      heap MulScene.st !! m = None ∧
      heap s' = <[m := om]> (heap MulScene.st) ∧
      last_parent s' = last_parent MulScene.st ∧
      cls_name (cls om) = "Multi" +:+ cls_name (cls MulScene.hr) ∧
      _argnames (cls om) = [] ∧ props om = [] ∧
      ∀ limit,
        py_str (S limit) s' m =
          (text ← py_str limit s' 0%nat;
           Ok (Str.repeat_nat text (Z.to_nat 3)))) ∧
  __mul__ MulScene.st 0%nat (VData (DStr "3")) = Ok (MulScene.st, NotImplemented).
Proof.
  apply (mul_repeats_safe_text MulScene.st 0%nat MulScene.hr
           (VData (DInt 3)) (VData (DStr "3")) 3).
  - reflexivity.
  - reflexivity.
  - lia.
  - reflexivity.
Defined.

(** The example of the specification: a component that renders [<hr />],
    times 3. *)
Example mul_hr_three :
  ('(s', r) ← __mul__ MulScene.st 0%nat (VData (DInt 3));
   match r with
   | Returned m => py_str 2 s' m
   | NotImplemented => Ok ""
   end) = Ok "<hr /><hr /><hr />".
Proof. vm_compute. reflexivity. Qed.

(** ** Passing the children to the content producer *)

Lemma result_mapM_ok {A B} (f : A → result B) (l : list A) :
  (∀ x, x ∈ l → ∃ y, f x = Ok y) → ∃ ys, result_mapM f l = Ok ys.
Proof.
  induction l as [|x l IH]; intros Hall; simpl; [by eexists|].
  destruct (Hall x) as [y ->]; [by left|].
  destruct IH as [ys ->]; [intros z Hz; apply Hall; by right|].
  by eexists.
Qed.

(** C4, as stated, fails: a content function that declares [children] as
    an ordinary (positional) parameter is not given the resolved children.
    [Echo(children="prop")["kid"]] calls the function with the prop and
    renders [prop]; the resolved children [kid] are not passed. *)
Lemma children_positional_not_passed :
  "children" ∈ args (fn_spec ChildrenArg.echo_positional)
               ++ kwonlyargs (fn_spec ChildrenArg.echo_positional) ∧
  ∃ c, Factory._make_func_component ChildrenArg.echo_positional = Ok c ∧
       _pass_children c = false ∧
       let o := ChildrenArg.instance_of c [("children", DSafe "prop")] in
       func_arguments o "kid" = Ok ([DSafe "prop"], []) ∧
       base_getitem 3 (ChildrenArg.store_of o) 0%nat (VData (DStr "kid"))
         = Ok "prop".
Proof.
  split; [by apply list_elem_of_here|].
  eexists. split; [reflexivity|]. split; [reflexivity|].
  split; vm_compute; reflexivity.
Qed.

(** C4, amended.  A function-backed component passes the resolved children,
    as the keyword argument [children], exactly when its function declares
    [children] as a keyword-only parameter; otherwise the keyword arguments
    are the props that are not positional parameters, and nothing else.  A
    class-backed component passes the resolved children to [render] exactly
    when [children] is among the parameters of [render]. *)
Theorem children_passed_iff_declared
    (func : pyfunc) (u : userclass) (cf cu : comp_class) (o_f o_u : obj)
    (children : string) :
  Factory._make_func_component func = Ok cf →
  cls o_f = cf →
  (∀ a, a ∈ args (fn_spec func) → Dict.mem a (props o_f) = true) →
  Factory._make_class_component u = Ok cu →
  cls o_u = cu →
  (∃ pos kwargs,
      func_arguments o_f children = Ok (pos, kwargs) ∧
      if bool_decide ("children" ∈ kwonlyargs (fn_spec func))
      then Dict.get "children" kwargs = Some (DSafe children)
      else kwargs = filter (fun kv => kv.1 ∉ args (fn_spec func)) (props o_f)) ∧
  (∃ render_spec body,
      uc_render u = Some (render_spec, body) ∧
      class_render_arguments o_u children =
        if bool_decide ("children" ∈ args render_spec ++ kwonlyargs render_spec)
        then [DSafe children] else []).
Proof.
  intros Hf Hcf Hprops Hu Hcu. split.
  - unfold Factory._make_func_component in Hf.
    destruct (Factory._make_defaults (fn_spec func)) as [dflt|] eqn:Hd;
      simpl in Hf; [|done].
    injection Hf as <-. unfold func_arguments. rewrite Hcf. simpl.
    edestruct (result_mapM_ok
                 (fun argname => match Dict.get argname (props o_f) with
                                 | Some v => Ok v
                                 | None => Raise (KeyError argname)
                                 end) (args (fn_spec func))) as [pos ->].
    { intros a Ha. specialize (Hprops a Ha). unfold Dict.mem in Hprops.
      destruct (Dict.get a (props o_f)); [by eexists|done]. }
    simpl. eexists _, _. split; [reflexivity|].
    destruct (bool_decide ("children" ∈ kwonlyargs (fn_spec func))); [|done].
    apply dict_get_set_eq.
  - unfold Factory._make_class_component in Hu.
    destruct (uc_render u) as [[render_spec body]|]; [|done].
    exists render_spec, body. split; [done|].
    destruct (Factory.list_remove "self" (args (uc_init u))); simpl in Hu; [|done].
    destruct (Factory._make_defaults _); simpl in Hu; [|done].
    injection Hu as <-. unfold class_render_arguments. by rewrite Hcu.
Qed.

Lemma children_passed_iff_declared_witness :
  (∃ pos kwargs,
      func_arguments
        (ChildrenArg.instance_of ChildrenArg.kwonly_component []) "kid"
        = Ok (pos, kwargs) ∧
      if bool_decide ("children" ∈ kwonlyargs (fn_spec ChildrenArg.echo_kwonly))
      then Dict.get "children" kwargs = Some (DSafe "kid")
      else kwargs = filter (fun kv => kv.1 ∉ args (fn_spec ChildrenArg.echo_kwonly)) []) ∧
  (∃ render_spec body,
      uc_render ChildrenArg.echo_class = Some (render_spec, body) ∧
      class_render_arguments
        (ChildrenArg.instance_of ChildrenArg.class_component []) "kid" =
        if bool_decide ("children" ∈ args render_spec ++ kwonlyargs render_spec)
        then [DSafe "kid"] else []).
Proof.
  apply (children_passed_iff_declared
           ChildrenArg.echo_kwonly ChildrenArg.echo_class
           ChildrenArg.kwonly_component ChildrenArg.class_component
           (ChildrenArg.instance_of ChildrenArg.kwonly_component [])
           (ChildrenArg.instance_of ChildrenArg.class_component []) "kid").
  - reflexivity.
  - reflexivity.
  - intros a Ha. by apply elem_of_nil in Ha.
  - reflexivity.
  - reflexivity.
Defined.

(** ** Indexed attachment and lazy binding *)

(** C3, as stated, fails: the guard of the lazy item access is the
    emptiness of the children container.  After [c.lazy[()]] the container
    is still empty, and a second item access with other content succeeds
    and rebinds the children. *)
Lemma lazy_rebinds_after_empty_binding :
  ∃ s1 s2 o2,
    __getitem__ 3 LazyScene.st 0%nat (VSeq []) = Ok (s1, Bound 0%nat) ∧
    __getitem__ 3 s1 0%nat (VData (DStr "other")) = Ok (s2, Bound 0%nat) ∧
    heap s2 !! 0%nat = Some o2 ∧
    _children o2 = VData (DStr "other").
Proof.
  eexists _, _, _. split; [reflexivity|]. split; [reflexivity|].
  split; reflexivity.
Qed.

(** C3, amended.  On a component that is not lazy, item access is the
    rendering of the given content and returns the store it was given.  On
    a lazy component whose children container is empty it stores the
    content as the children and returns the instance itself; if that
    content is not empty, every later item access on the instance fails
    with the rebinding error, whatever the content.  On a lazy component
    whose children are not empty it fails with the rebinding error (so the
    children stay as they are). *)
Theorem indexed_attachment `{!Prims}
    (limit : nat) (s : store) (self : loc) (o : obj) (content content' : value) :
  heap s !! self = Some o →
  has_children_mixin (cls_kind (cls o)) = true →
  (_lazy o = false →
     __getitem__ limit s self content =
       (text ← base_getitem limit s self content; Ok (s, Rendered text))) ∧
  (_lazy o = true → value_truthy (_children o) = false →
     ∃ s1,
       __getitem__ limit s self content = Ok (s1, Bound self) ∧
       heap s1 = <[self := with_children o content]> (heap s) ∧
       last_parent s1 = last_parent s ∧
       (value_truthy content = true →
        ∀ limit',
          __getitem__ limit' s1 self content' =
            Raise (ValueError "Lazy component already has children"))) ∧
  (_lazy o = true → value_truthy (_children o) = true →
     __getitem__ limit s self content' =
       Raise (ValueError "Lazy component already has children")).
Proof.
  intros Hl Hk. split; [|split].
  - intros Hlz. unfold __getitem__.
    rewrite (children_capable_Some _ _ _ Hl Hk). simpl. by rewrite Hlz.
  - intros Hlz Hempty. exists (set_obj s self (with_children o content)).
    split; [|split; [done|split; [done|]]].
    + unfold __getitem__.
      rewrite (children_capable_Some _ _ _ Hl Hk). simpl.
      by rewrite Hlz, Hempty.
    + intros Ht limit'. unfold __getitem__.
      rewrite (children_capable_Some _ self (with_children o content));
        [|apply lookup_insert_eq|done].
      simpl. by rewrite Hlz, Ht.
  - intros Hlz Hfull. unfold __getitem__.
    rewrite (children_capable_Some _ _ _ Hl Hk). simpl. by rewrite Hlz, Hfull.
Qed.

Lemma indexed_attachment_witness :
  (_lazy LazyScene.lazy_div = false →
     __getitem__ 3 LazyScene.st 0%nat (VData (DStr "Hello")) =
       (text ← base_getitem 3 LazyScene.st 0%nat (VData (DStr "Hello"));
        Ok (LazyScene.st, Rendered text))) ∧
  (_lazy LazyScene.lazy_div = true →
   value_truthy (_children LazyScene.lazy_div) = false →
     ∃ s1,
       __getitem__ 3 LazyScene.st 0%nat (VData (DStr "Hello")) = Ok (s1, Bound 0%nat) ∧
       heap s1 = <[0%nat := with_children LazyScene.lazy_div (VData (DStr "Hello"))]>
                   (heap LazyScene.st) ∧
       last_parent s1 = last_parent LazyScene.st ∧
       (value_truthy (VData (DStr "Hello")) = true →
        ∀ limit',
          __getitem__ limit' s1 0%nat (VData (DStr "Another")) =
            Raise (ValueError "Lazy component already has children"))) ∧
  (_lazy LazyScene.lazy_div = true →
   value_truthy (_children LazyScene.lazy_div) = true →
     __getitem__ 3 LazyScene.st 0%nat (VData (DStr "Another")) =
       Raise (ValueError "Lazy component already has children")).
Proof.
  apply (indexed_attachment 3 LazyScene.st 0%nat LazyScene.lazy_div
           (VData (DStr "Hello")) (VData (DStr "Another"))).
  - reflexivity.
  - reflexivity.
Defined.

(** ** Assembly of a children sequence *)

Section assembly.

Context `{!Prims}.

Lemma escape_item_assembled (s : store) (str_of : loc → result string)
    (v : value) :
  match v with
  | VRef l => str_of l
  | _ => Ok (escape s v)
  end = assembled_item s str_of v.
Proof. destruct v as [[]| |]; reflexivity. Qed.

Lemma result_mapM_ext {A B} (f g : A → result B) (l : list A) :
  (∀ x, f x = g x) → result_mapM f l = result_mapM g l.
Proof.
  intros Hfg. induction l as [|x l IH]; simpl; [done|]. by rewrite Hfg, IH.
Qed.

Lemma escape_sequence (s : store) (str_of : loc → result string)
    (vs : list value) :
  _escape s str_of (VSeq vs) = result_mapM (assembled_item s str_of) vs.
Proof.
  unfold _escape. simpl. apply result_mapM_ext.
  intros v. apply escape_item_assembled.
Qed.

Lemma render_sequence (s : store) (str_of : loc → result string)
    (o : obj) (vs : list value) :
  __render s str_of o (VSeq vs) =
    (texts ← result_mapM (assembled_item s str_of) vs;
     _render s str_of o (Str.concat texts)).
Proof.
  unfold __render. destruct vs as [|v vs]; [reflexivity|].
  simpl negb. cbv iota. by rewrite escape_sequence.
Qed.

End assembly.

(** C2, as stated, fails on a child that is itself a sequence: the rules
of the specification flatten it ([abc]), the pipeline escapes the text of
the list instead. *)
Lemma nested_sequence_not_flattened :
  (texts ← result_mapM (flattened_item (py_str 3 AssemblyScene.st))
                       [VData (DSeq [DStr "a"; DStr "b"]); VData (DStr "c")];
   Ok (Str.concat texts)) = Ok "abc" ∧
  (texts ← _escape AssemblyScene.st (py_str 3 AssemblyScene.st)
                   AssemblyScene.nested;
   Ok (Str.concat texts)) = Ok "[&#39;a&#39;, &#39;b&#39;]c" ∧
  base_getitem 3 AssemblyScene.st 0%nat AssemblyScene.nested
    = Ok "<div>[&#39;a&#39;, &#39;b&#39;]c</div>".
Proof. repeat split; vm_compute; reflexivity. Qed.

(** C2, amended.  A children sequence is assembled child by child, in
order: a component child contributes its own full rendering, which is not
escaped again; a SafeString child passes unchanged; a plain string child is
escaped; any other child, a nested sequence included, is escaped via its
text representation (it is not flattened).  The texts are concatenated and
given to the content-producing step, which also receives the empty text
when the sequence is empty.  Only the sequence given to item access itself
is taken as the sequence of children. *)
Theorem children_assembled_by_rules `{!Prims}
    (limit : nat) (s : store) (self : loc) (o : obj) (vs : list value) :
  heap s !! self = Some o →
  has_children_mixin (cls_kind (cls o)) = true →
  __render s (py_str limit s) o (VSeq vs) =
    (texts ← result_mapM (assembled_item s (py_str limit s)) vs;
     _render s (py_str limit s) o (Str.concat texts)) ∧
  __render s (py_str limit s) o (VSeq []) = _render s (py_str limit s) o "" ∧
  (∀ l, assembled_item s (py_str limit s) (VRef l) = py_str limit s l) ∧
  (∀ t, assembled_item s (py_str limit s) (VData (DSafe t)) = Ok t) ∧
  (∀ t, assembled_item s (py_str limit s) (VData (DStr t))
        = Ok (escape_text t)) ∧
  (∀ ws, assembled_item s (py_str limit s) (VSeq ws)
         = Ok (escape_text (seq_text (map (value_repr s) ws)))) ∧
  py_str (S limit) s self = __render s (py_str limit s) o (_children o) ∧
  base_getitem limit s self (VSeq vs)
    = __render s (py_str limit s) o (VSeq vs).
Proof.
  intros Hl Hk.
  split; [apply render_sequence|]. split; [reflexivity|].
  do 4 (split; [reflexivity|]). split.
  - simpl. unfold __str__. rewrite (get_obj_Some _ _ _ Hl). simpl.
    by destruct (cls_kind (cls o)).
  - unfold base_getitem. by rewrite (children_capable_Some _ _ _ Hl Hk).
Qed.

Lemma children_assembled_by_rules_witness :
  __render AssemblyScene.st AssemblyWitness.str_of Scene.fresh_div
           (VSeq AssemblyWitness.vs) =
    (texts ← result_mapM
               (assembled_item AssemblyScene.st AssemblyWitness.str_of)
               AssemblyWitness.vs;
     _render AssemblyScene.st AssemblyWitness.str_of Scene.fresh_div
             (Str.concat texts)) ∧
  __render AssemblyScene.st AssemblyWitness.str_of Scene.fresh_div (VSeq [])
    = _render AssemblyScene.st AssemblyWitness.str_of Scene.fresh_div "" ∧
  (∀ l, assembled_item AssemblyScene.st AssemblyWitness.str_of (VRef l)
        = AssemblyWitness.str_of l) ∧
  (∀ t, assembled_item AssemblyScene.st AssemblyWitness.str_of
          (VData (DSafe t)) = Ok t) ∧
  (∀ t, assembled_item AssemblyScene.st AssemblyWitness.str_of
          (VData (DStr t)) = Ok (escape_text t)) ∧
  (∀ ws, assembled_item AssemblyScene.st AssemblyWitness.str_of (VSeq ws)
         = Ok (escape_text
                 (seq_text (map (value_repr AssemblyScene.st) ws)))) ∧
  py_str 4 AssemblyScene.st 0%nat
    = __render AssemblyScene.st AssemblyWitness.str_of Scene.fresh_div
               (_children Scene.fresh_div) ∧
  base_getitem 3 AssemblyScene.st 0%nat (VSeq AssemblyWitness.vs)
    = __render AssemblyScene.st AssemblyWitness.str_of Scene.fresh_div
               (VSeq AssemblyWitness.vs).
Proof.
  apply (children_assembled_by_rules 3 AssemblyScene.st 0%nat Scene.fresh_div
           AssemblyWitness.vs).
  - reflexivity.
  - reflexivity.
Defined.

(** The examples of the specification: [Div] around [Hello], and [Div]
around that [Div]; the inner rendering is not escaped again. *)
Example div_in_div :
  ('(s, inner) ← construct empty_store Scene.Div [] [];
   '(s, _) ← __iadd__ s inner (VData (DStr "Hello"));
   '(s, outer) ← construct s Scene.Div [] [];
   '(s, _) ← __iadd__ s outer (VRef inner);
   a ← py_str 3 s inner; b ← py_str 3 s outer; Ok (a, b))
  = Ok ("<div>Hello</div>", "<div><div>Hello</div></div>").
Proof. vm_compute. reflexivity. Qed.

(** ** Attribute serialization *)

(** C5 at the inputs where the code leaves it.  The reserved-word test is
made on the key without its last character, whatever that character is, and
before the test for booleans: [Input(form="f1")] is serialized under the
name [for], and the flags [async_=True] and [async_=False] are both
serialized as key/value attributes. *)
Lemma reserved_word_test_misclassifies :
  AttrScene.rendered AttrScene.Input [("form", DStr "f1")]
    = Ok ("<input for=" +:+ AttrScene.q +:+ "f1" +:+ AttrScene.q +:+ " />") ∧
  AttrScene.rendered AttrScene.Script [("async_", DBool true)]
    = Ok ("<script async=" +:+ AttrScene.q +:+ "True" +:+ AttrScene.q +:+
          "></script>") ∧
  AttrScene.rendered AttrScene.Script [("async_", DBool false)]
    = Ok ("<script async=" +:+ AttrScene.q +:+ "False" +:+ AttrScene.q +:+
          "></script>") ∧
  AttrScene.rendered AttrScene.Script
      [("class_", DStr "a b"); ("hidden", DBool true); ("defer", DBool false);
       ("data_id", DInt 3); ("title", DNone)]
    = Ok ("<script hidden class=" +:+ AttrScene.q +:+ "a b" +:+ AttrScene.q +:+
          " data-id=" +:+ AttrScene.q +:+ "3" +:+ AttrScene.q +:+ "></script>").
Proof. repeat split; vm_compute; reflexivity. Qed.

(** ** Keyword conversion *)

Section conversion.

Context `{!Prims}.

Lemma convert_item_Raise (acc : Html.converted) (kv : string * data) (e : exn) :
  Html.convert_item acc kv = Raise e → e = quoting_error.
Proof.
  destruct acc as [[new kv_args] bools], kv as [k v]. unfold Html.convert_item.
  destruct (Html.both_quotes v); [by intros [= <-]|].
  destruct (iskeyword _); [done|]. by destruct v as [|[]| | | |].
Qed.

Lemma convert_item_both_quotes (acc : Html.converted) (k : string) (v : data) :
  Html.both_quotes v = true → Html.convert_item acc (k, v) = Raise quoting_error.
Proof.
  destruct acc as [[new kv_args] bools]. unfold Html.convert_item.
  by intros ->.
Qed.

(** The loop stops with the quoting error as soon as one value holds both
quote characters, wherever it stands among the keywords. *)
Lemma convert_loop_both_quotes (acc : Html.converted) (kwargs : dict data)
    (k : string) (v : data) :
  (k, v) ∈ kwargs → Html.both_quotes v = true →
  Html.convert_loop acc kwargs = Raise quoting_error.
Proof.
  intros Hin Hq. revert acc.
  induction kwargs as [|kv rest IH]; intros acc; [by apply elem_of_nil in Hin|].
  simpl. apply elem_of_cons in Hin as [<-|Hin].
  - by rewrite convert_item_both_quotes.
  - destruct (Html.convert_item acc kv) as [acc'|e] eqn:E; simpl.
    + by apply IH.
    + by rewrite (convert_item_Raise _ _ _ E).
Qed.

Lemma dict_set_keeps {V} (d : dict V) (k k' : string) (v v' : V) :
  (k, v) ∈ d → k ≠ k' → (k, v) ∈ Dict.set k' v' d.
Proof.
  intros Hin Hne. induction d as [|[k0 v0] d IH]; [by apply elem_of_nil in Hin|].
  simpl. destruct (String.eqb k0 k') eqn:E.
  - apply String.eqb_eq in E as ->.
    apply elem_of_cons in Hin as [[= -> ->]|Hin]; [done|]. by right.
  - apply elem_of_cons in Hin as [[= -> ->]|Hin]; [by left|].
    right. by apply IH.
Qed.

Lemma dict_update_keeps {V} (d e : dict V) (k : string) (v : V) :
  (k, v) ∈ d → k ∉ Dict.keys e → (k, v) ∈ Dict.update d e.
Proof.
  unfold Dict.update. revert d.
  induction e as [|[k' v'] e IH]; intros d Hin Hk; simpl; [done|].
  simpl in Hk. apply not_elem_of_cons in Hk as [Hne Hk].
  apply IH; [|done]. by apply dict_set_keeps.
Qed.

End conversion.

(** C9, as amended.  On a markup-element component, a keyword whose value
is a text with both quote characters makes the call itself fail with the
quoting error: in [replace], [append] and [merge] always, and at
construction for a keyword that the element class does not fix itself
(class-level attributes replace the supplied ones before the check, as the
example after the theorem shows). *)
Theorem both_quotes_rejected `{!Prims}
    (s : store) (c : comp_class) (self : loc) (o : obj)
    (kwargs : dict data) (k : string) (v : data) :
  is_html (cls_kind c) = true →
  (∀ fixed, _attributes c = Some fixed → k ∉ Dict.keys fixed) →
  heap s !! self = Some o →
  is_html (cls_kind (cls o)) = true →
  (k, v) ∈ kwargs →
  text_with_both_quotes v →
  construct s c [] kwargs = Raise quoting_error ∧
  replace s self kwargs = Raise quoting_error ∧
  append s self kwargs = Raise quoting_error ∧
  merge s self kwargs = Raise quoting_error.
Proof.
  intros Hc Hfixed Hl Ho Hin (t & Hv & Hd & Hs).
  assert (Html.both_quotes v = true) as Hq.
  { destruct Hv as [-> | ->]; simpl; by rewrite Hd, Hs. }
  assert (html_converted o kwargs = Raise quoting_error) as Hconv.
  { unfold html_converted, Html._convert_kwargs. rewrite Ho.
    by rewrite (convert_loop_both_quotes _ _ k v). }
  split; [|split; [|split]].
  - unfold construct, init_instance, Html._convert_kwargs. rewrite Hc.
    destruct (_attributes c) as [fixed|] eqn:Hattr.
    + rewrite (convert_loop_both_quotes _ _ k v); [done| |done].
      apply dict_update_keeps; [done|]. by apply Hfixed.
    + by rewrite (convert_loop_both_quotes _ _ k v).
  - unfold replace. rewrite (get_obj_Some _ _ _ Hl). simpl. by rewrite Hconv.
  - unfold append. rewrite (get_obj_Some _ _ _ Hl). simpl. by rewrite Hconv.
  - unfold merge. rewrite (get_obj_Some _ _ _ Hl). simpl. by rewrite Hconv.
Qed.

Lemma both_quotes_rejected_witness :
  construct AssemblyScene.st Scene.Div [] [("title", DStr QuoteScene.both)]
    = Raise quoting_error ∧
  replace AssemblyScene.st 0%nat [("title", DStr QuoteScene.both)]
    = Raise quoting_error ∧
  append AssemblyScene.st 0%nat [("title", DStr QuoteScene.both)]
    = Raise quoting_error ∧
  merge AssemblyScene.st 0%nat [("title", DStr QuoteScene.both)]
    = Raise quoting_error.
Proof.
  apply (both_quotes_rejected AssemblyScene.st Scene.Div 0%nat Scene.fresh_div
           [("title", DStr QuoteScene.both)] "title" (DStr QuoteScene.both)).
  - reflexivity.
  - intros fixed Hfixed. vm_compute in Hfixed. discriminate Hfixed.
  - reflexivity.
  - reflexivity.
  - apply list_elem_of_here.
  - exists QuoteScene.both. split; [by left|]. split; reflexivity.
Defined.

(** The claim for every keyword fails at construction.  With
[class Titled(Div): _attributes = {"title": "ok"}], the call
[Titled(title=t)] for a text [t] with both quote characters raises nothing:
the constructor overlays the class attributes on the keywords before it
checks them, so the supplied text is dropped and the instance has the title
the class fixes. *)
Lemma class_fixed_key_hides_both_quotes :
  text_with_both_quotes (DStr QuoteScene.both) ∧
  is_html (cls_kind FixedTitleScene.Titled) = true ∧
  ∃ s' new o,
    construct empty_store FixedTitleScene.Titled []
              [("title", DStr QuoteScene.both)] = Ok (s', new) ∧
    heap s' !! new = Some o ∧
    props o = [("title", DStr "ok")] ∧
    py_str 1 s' new =
      Ok ("<div title=" +:+ AttrScene.q +:+ "ok" +:+ AttrScene.q +:+ "></div>").
Proof.
  split.
  { exists QuoteScene.both. split; [by left|]. split; reflexivity. }
  split; [reflexivity|].
  eexists _, _, _. split; [vm_compute; reflexivity|].
  split; [vm_compute; reflexivity|]. split; [reflexivity|].
  vm_compute. reflexivity.
Qed.

(** ** Booleans and the property bag of an element *)

Lemma element_class_inv (c : comp_class) :
  element_class c →
  is_html (cls_kind c) = true ∧ _defaults c = None ∧ _argnames c = [].
Proof. induction 1 as [tag k Hk|name base fixed _ IH]; simpl; [done|apply IH]. Qed.

Section dict_entries.

Context {V : Type}.

Implicit Types (d e : dict V) (k : string) (v : V).

Lemma dict_set_entries d k k' v v' :
  (k, v) ∈ Dict.set k' v' d → (k, v) = (k', v') ∨ (k, v) ∈ d.
Proof.
  induction d as [|[k0 v0] d IH]; simpl.
  - intros ->%list_elem_of_singleton. by left.
  - destruct (String.eqb k0 k').
    + intros [->|Hin]%elem_of_cons; [by left|]. right. by right.
    + intros [->|Hin]%elem_of_cons; [right; by left|].
      destruct (IH Hin) as [?|?]; [by left|]. right. by right.
Qed.

Lemma dict_update_entries d e k v :
  (k, v) ∈ Dict.update d e → (k, v) ∈ d ∨ (k, v) ∈ e.
Proof.
  unfold Dict.update. revert d.
  induction e as [|[k' v'] e IH]; intros d; simpl; [by left|].
  intros [Hin|Hin]%IH; [|right; by right].
  apply dict_set_entries in Hin as [->|Hin]; [right; by left|by left].
Qed.

Lemma dict_keys_entries d k : k ∈ Dict.keys d → ∃ v, (k, v) ∈ d.
Proof.
  unfold Dict.keys. intros ([k' v] & -> & Hin)%list_elem_of_fmap. by exists v.
Qed.

Lemma dict_entries_keys d k v : (k, v) ∈ d → k ∈ Dict.keys d.
Proof.
  intros Hin. unfold Dict.keys. apply list_elem_of_fmap. by exists (k, v).
Qed.

Lemma dict_wf_unique d k v v' :
  dict_wf d → (k, v) ∈ d → (k, v') ∈ d → v = v'.
Proof.
  unfold dict_wf. induction d as [|[k0 v0] d IH]; simpl.
  - by intros _ ?%elem_of_nil.
  - intros [Hnotin Hwf]%NoDup_cons.
    intros H1%elem_of_cons H2%elem_of_cons.
    destruct H1 as [H1|H1], H2 as [H2|H2].
    + congruence.
    + injection H1 as -> ->. by apply dict_entries_keys in H2.
    + injection H2 as -> ->. by apply dict_entries_keys in H1.
    + by apply IH.
Qed.

Lemma dict_get_entry d k v : Dict.get k d = Some v → (k, v) ∈ d.
Proof.
  induction d as [|[k0 v0] d IH]; simpl; [done|].
  destruct (String.eqb k0 k) eqn:E.
  - apply String.eqb_eq in E as ->. intros [= ->]. by left.
  - intros ?. right. by apply IH.
Qed.

End dict_entries.

Section boolean_props.

Context `{!Prims}.

Lemma keyword_has_no_trailing_underscore (k : string) :
  iskeyword k = true → strip_trailing_underscore k = k.
Proof.
  unfold iskeyword. intros Hk%bool_decide_eq_true. unfold kwlist in Hk.
  repeat (apply elem_of_cons in Hk as [->|Hk]; [reflexivity|]).
  by apply elem_of_nil in Hk.
Qed.

Lemma not_reserved_not_keyword (k : string) :
  iskeyword (strip_trailing_underscore k) = false → iskeyword k = false.
Proof.
  intros Hs. destruct (iskeyword k) eqn:Hk; [|done].
  by rewrite (keyword_has_no_trailing_underscore k Hk), Hk in Hs.
Qed.

Lemma convert_item_from (src : dict data) (acc acc' : Html.converted)
    (kv : string * data) :
  kv ∈ src → converted_from src acc →
  Html.convert_item acc kv = Ok acc' → converted_from src acc'.
Proof.
  destruct acc as [[new kvs] bools], kv as [key val].
  intros Hin [Hnew Hbools]. unfold Html.convert_item.
  destruct (Html.both_quotes val); [done|].
  destruct (iskeyword (Str.drop_last key)) eqn:Hkw.
  - intros [= <-]. split; simpl; [|done].
    intros k v [[= -> ->]|Hold]%dict_set_entries; [|by apply Hnew].
    exists key. split; [done|by left].
  - assert (∀ v0, is_bool v0 = false → (key, v0) ∈ src →
              converted_from src (Dict.set key v0 new, Dict.set key v0 kvs, bools))
      as Hplain.
    { intros v0 Hv0 Hv. split; simpl; [|done].
      intros k v [[= -> ->]|Hold]%dict_set_entries; [|by apply Hnew].
      exists key. split; [done|by right]. }
    destruct val as [|[]| | | |]; intros [= <-];
      try (by apply Hplain).
    + split; simpl; [done|].
      intros k [Hk| ->%list_elem_of_singleton]%elem_of_app; [by apply Hbools|done].
    + by split.
Qed.

Lemma convert_loop_from (src kwargs : dict data) (acc acc' : Html.converted) :
  (∀ kv, kv ∈ kwargs → kv ∈ src) → converted_from src acc →
  Html.convert_loop acc kwargs = Ok acc' → converted_from src acc'.
Proof.
  revert acc. induction kwargs as [|kv rest IH]; intros acc Hsub Hacc; simpl.
  - by intros [= <-].
  - destruct (Html.convert_item acc kv) as [acc1|] eqn:E; simpl; [|done].
    apply IH; [intros ? ?; apply Hsub; by right|].
    apply (convert_item_from src acc acc1 kv); [apply Hsub; by left|done|done].
Qed.

Lemma convert_kwargs_from (kwargs : dict data) (r : Html.converted) :
  Html._convert_kwargs kwargs = Ok r → converted_from kwargs r.
Proof.
  apply convert_loop_from; [done|].
  split; simpl; [intros ? ? ?%elem_of_nil|intros ? ?%elem_of_nil]; done.
Qed.

Lemma py_add_not_bool (a b r : data) : py_add a b = Ok r → is_bool r = false.
Proof.
  unfold py_add.
  destruct (int_of a), (int_of b), a, b; simpl; intros [= <-]; reflexivity.
Qed.

(** The keywords [append] merges: each is a keyword it was given, or a
sum, which is never a boolean. *)
Lemma append_loop_entries (pr appended kwargs r : dict data) :
  Base.append_loop pr appended kwargs = Ok r →
  ∀ k v, (k, v) ∈ r →
         (k, v) ∈ appended ∨ (k, v) ∈ kwargs ∨ is_bool v = false.
Proof.
  revert appended. induction kwargs as [|[key val] rest IH];
    intros appended; simpl.
  - intros [= <-] k v ?. by left.
  - destruct (Dict.get key pr) as [old|] eqn:Hold.
    + destruct (py_add old val) as [val'|] eqn:Hadd; simpl; [|done].
      intros Hr k v Hin.
      destruct (IH _ Hr k v Hin) as [Ha|[Hb|Hc]]; [|right; left; by right|by right; right].
      apply dict_set_entries in Ha as [[= -> ->]|Ha]; [|by left].
      right; right. by apply (py_add_not_bool old val).
    + simpl. intros Hr k v Hin.
      destruct (IH _ Hr k v Hin) as [Ha|[Hb|Hc]]; [|right; left; by right|by right; right].
      apply dict_set_entries in Ha as [[= -> ->]|Ha]; [|by left].
      right; left. by left.
Qed.

End boolean_props.

Section element_rebuild.

Context `{!Prims}.

Lemma convert_item_ok (acc : Html.converted) (kv : string * data) :
  Html.both_quotes kv.2 = false → ∃ r, Html.convert_item acc kv = Ok r.
Proof.
  destruct acc as [[new kvs] bools], kv as [key val]. simpl. intros Hq.
  unfold Html.convert_item. rewrite Hq.
  destruct (iskeyword _); [by eexists|].
  destruct val as [|[]| | | |]; by eexists.
Qed.

Lemma convert_loop_ok (acc : Html.converted) (kwargs : dict data) :
  (∀ kv, kv ∈ kwargs → Html.both_quotes kv.2 = false) →
  ∃ r, Html.convert_loop acc kwargs = Ok r.
Proof.
  revert acc. induction kwargs as [|kv rest IH]; intros acc Hall; simpl.
  - by eexists.
  - destruct (convert_item_ok acc kv) as [acc1 ->]; [apply Hall; by left|].
    simpl. apply IH. intros ? ?. apply Hall. by right.
Qed.

Lemma convert_loop_values (acc r : Html.converted) (kwargs : dict data) :
  Html.convert_loop acc kwargs = Ok r →
  ∀ kv, kv ∈ kwargs → Html.both_quotes kv.2 = false.
Proof.
  intros Hok [k v] Hin. simpl.
  destruct (Html.both_quotes v) eqn:Hq; [|done].
  by rewrite (convert_loop_both_quotes acc kwargs k v Hin Hq) in Hok.
Qed.

Lemma dict_entry_get {V} (d : dict V) (k : string) (v : V) :
  dict_wf d → (k, v) ∈ d → Dict.get k d = Some v.
Proof.
  intros Hwf Hin. destruct (Dict.get k d) as [v'|] eqn:E.
  - f_equal. apply (dict_wf_unique d k); [done| |done]. by apply dict_get_entry.
  - apply dict_get_None in E. by apply dict_entries_keys in Hin.
Qed.

(** A key assigned by [e] reads the same after [update], whatever the
dictionary updated. *)
Lemma dict_get_update_in {V} (d d' e : dict V) (k : string) :
  k ∈ Dict.keys e →
  Dict.get k (Dict.update d e) = Dict.get k (Dict.update d' e).
Proof.
  unfold Dict.update. revert d d'.
  induction e as [|[k' v'] e IH]; intros d d' Hk; simpl;
    [by apply elem_of_nil in Hk|].
  destruct (decide (k ∈ Dict.keys e)) as [Hin|Hnotin]; [by apply IH|].
  simpl in Hk. apply elem_of_cons in Hk as [->|Hk]; [|done].
  apply dict_get_None in Hnotin.
  pose proof (dict_get_update_None (Dict.set k' v' d) e k' Hnotin) as H1.
  pose proof (dict_get_update_None (Dict.set k' v' d') e k' Hnotin) as H2.
  unfold Dict.update in H1, H2. rewrite H1, H2.
  by rewrite !dict_get_set_eq.
Qed.

Lemma init_instance_element (c : comp_class) (kwargs : dict data) (o : obj) :
  element_class c →
  init_instance c [] kwargs = Ok o →
  ∃ new kvs,
    Html._convert_kwargs (effective_kwargs c kwargs) = Ok (new, kvs, _bool_args o) ∧
    props o = Dict.update [] new ∧ cls o = c.
Proof.
  intros (Hk & Hd & _)%element_class_inv. unfold init_instance, effective_kwargs.
  rewrite Hk. unfold base_init. rewrite Hd.
  destruct (Html._convert_kwargs _) as [[[new kvs] bools]|]; simpl; [|done].
  intros [= <-]. by exists new, kvs.
Qed.

Lemma init_instance_element_ok (c : comp_class) (kwargs : dict data) :
  element_class c →
  (∀ kv, kv ∈ effective_kwargs c kwargs → Html.both_quotes kv.2 = false) →
  ∃ o, init_instance c [] kwargs = Ok o.
Proof.
  intros (Hk & _)%element_class_inv Hall.
  unfold init_instance. rewrite Hk. fold (effective_kwargs c kwargs).
  destruct (convert_loop_ok ([], [], []) _ Hall) as [[[new kvs] bools] Hr].
  unfold Html._convert_kwargs. rewrite Hr. simpl. by eexists.
Qed.

End element_rebuild.

Section element_props.

Context `{!Prims}.

Lemma construct_inv (s s2 : store) (c : comp_class) (pos : list data)
    (kwargs : dict data) (new : loc) :
  construct s c pos kwargs = Ok (s2, new) →
  ∃ o', init_instance c pos kwargs = Ok o' ∧
        heap s !! new = None ∧
        heap s2 = <[new := o']> (heap s) ∧
        last_parent s2 = last_parent s.
Proof.
  unfold construct. destruct (init_instance c pos kwargs) as [o'|]; simpl; [|done].
  intros [= <- <-]. exists o'. split; [done|].
  split; [apply not_elem_of_dom, is_fresh|done].
Qed.

Lemma merge_inv (s s2 : store) (self new : loc) (o : obj) (extra : dict data) :
  heap s !! self = Some o →
  _merge s self extra = Ok (s2, new) →
  ∃ o', init_instance (cls o) [] (Dict.update (props o) extra) = Ok o' ∧
        heap s !! new = None ∧
        heap s2 = <[new := o']> (heap s) ∧
        last_parent s2 = last_parent s.
Proof.
  intros Hl. unfold _merge. rewrite (get_obj_Some _ _ _ Hl). simpl.
  apply construct_inv.
Qed.

(** The props of an element instance: each holds the value of a keyword
its constructor converted, under a reserved word or else under the keyword's
own name with a value that is not a boolean. *)
Lemma element_props_entries (c : comp_class) (kwargs : dict data) (o : obj) :
  element_class c → init_instance c [] kwargs = Ok o →
  ∀ k v, (k, v) ∈ props o →
         ∃ k0, (k0, v) ∈ effective_kwargs c kwargs ∧
               (iskeyword k = true ∨ (is_bool v = false ∧ k0 = k)).
Proof.
  intros Hc Hinit k v Hin.
  destruct (init_instance_element c kwargs o Hc Hinit) as (new & kvs & Hconv & Hp & _).
  apply convert_kwargs_from in Hconv as [Hnew _].
  rewrite Hp in Hin. apply dict_update_entries in Hin as [Hin|Hin];
    [by apply elem_of_nil in Hin|].
  by apply Hnew.
Qed.

Lemma element_props_wf (c : comp_class) (kwargs : dict data) (o : obj) :
  element_class c → init_instance c [] kwargs = Ok o → dict_wf (props o).
Proof.
  intros Hc Hinit.
  destruct (init_instance_element c kwargs o Hc Hinit) as (new & kvs & _ & -> & _).
  apply dict_wf_update. apply NoDup_nil_2.
Qed.

Lemma element_bool_args (c : comp_class) (kwargs : dict data) (o : obj)
    (k : string) :
  element_class c → init_instance c [] kwargs = Ok o →
  k ∈ _bool_args o → (k, DBool true) ∈ effective_kwargs c kwargs.
Proof.
  intros Hc Hinit Hk.
  destruct (init_instance_element c kwargs o Hc Hinit) as (new & kvs & Hconv & _).
  apply convert_kwargs_from in Hconv as [_ Hbools]. by apply Hbools.
Qed.

Lemma effective_kwargs_entries (c : comp_class) (kwargs : dict data)
    (k : string) (v : data) :
  (k, v) ∈ effective_kwargs c kwargs →
  (k, v) ∈ kwargs ∨ ∃ fixed, _attributes c = Some fixed ∧ k ∈ Dict.keys fixed.
Proof.
  unfold effective_kwargs. destruct (_attributes c) as [fixed|]; [|by left].
  intros [Hin|Hin]%dict_update_entries; [by left|].
  right. exists fixed. split; [done|]. by apply (dict_entries_keys fixed k v).
Qed.

(** An instance rebuilt from keywords in which [k] has no boolean value
does not have [k] among its presence-only attributes, unless the class
fixes [k]. *)
Lemma rebuilt_without_flag (c : comp_class) (merged : dict data) (o' : obj)
    (k : string) :
  element_class c →
  (∀ fixed, _attributes c = Some fixed → k ∉ Dict.keys fixed) →
  (∀ v, (k, v) ∈ merged → is_bool v = false) →
  init_instance c [] merged = Ok o' →
  k ∉ _bool_args o'.
Proof.
  intros Hc Hfixed Hmerged Hinit Hk.
  apply (element_bool_args c merged o' k Hc Hinit) in Hk.
  apply effective_kwargs_entries in Hk as [Hk|(fixed & Hf & Hk)].
  - by apply Hmerged in Hk.
  - by apply (Hfixed fixed Hf).
Qed.

End element_props.

Section rebuild_values.

Context `{!Prims}.

(** Rebuilding from the props converts only values the first construction
already converted. *)
Lemma effective_rebuilt_values (c : comp_class) (kwargs : dict data) (o : obj) :
  element_class c → init_instance c [] kwargs = Ok o →
  ∀ k v, (k, v) ∈ effective_kwargs c (props o) →
         ∃ k0, (k0, v) ∈ effective_kwargs c kwargs.
Proof.
  intros Hc Hinit k v Hkv.
  pose proof (element_props_entries c kwargs o Hc Hinit) as Hentries.
  pose proof (element_props_wf c kwargs o Hc Hinit) as Hwf.
  unfold effective_kwargs in *. destruct (_attributes c) as [fixed|].
  - destruct (decide (k ∈ Dict.keys fixed)) as [Hfix|Hnofix].
    + exists k. apply dict_get_entry.
      rewrite (dict_get_update_in kwargs (props o) fixed k Hfix).
      apply dict_entry_get; [by apply dict_wf_update|done].
    + apply dict_update_entries in Hkv as [Hkv|Hkv].
      * destruct (Hentries k v Hkv) as (k0 & Hk0 & _). by exists k0.
      * by apply dict_entries_keys in Hkv.
  - destruct (Hentries k v Hkv) as (k0 & Hk0 & _). by exists k0.
Qed.

Lemma copy_element_ok (s1 : store) (self : loc) (c : comp_class)
    (kwargs : dict data) (o : obj) :
  element_class c → init_instance c [] kwargs = Ok o →
  heap s1 !! self = Some o →
  ∃ s2 new, copy s1 self = Ok (s2, new).
Proof.
  intros Hc Hinit Hl.
  destruct (init_instance_element c kwargs o Hc Hinit) as (new0 & kvs & Hconv & _ & Hcls).
  unfold copy, Base.copy, _merge. rewrite (get_obj_Some _ _ _ Hl). simpl.
  rewrite Hcls. unfold construct.
  destruct (init_instance_element_ok c (props o) Hc) as [o' ->]; [|by eexists _, _].
  intros [k v] Hkv. simpl.
  destruct (effective_rebuilt_values c kwargs o Hc Hinit k v Hkv) as [k0 Hk0].
  apply (convert_loop_values _ _ _ Hconv (k0, v) Hk0).
Qed.

End rebuild_values.

Section keyword_removed.

Context `{!Prims}.

Lemma without_keyword_cons (k : string) (kv : string * data) (d : dict data) :
  without_keyword k (kv :: d) =
    if decide (kv.1 ≠ k) then kv :: without_keyword k d
    else without_keyword k d.
Proof. unfold without_keyword. by rewrite filter_cons. Qed.

Lemma without_keyword_set (k k' : string) (v : data) (d : dict data) :
  k' ≠ k →
  without_keyword k (Dict.set k' v d) = Dict.set k' v (without_keyword k d).
Proof.
  intros Hne. induction d as [|[k0 v0] d IH]; simpl.
  - rewrite without_keyword_cons. simpl. by rewrite decide_True.
  - destruct (String.eqb k0 k') eqn:E.
    + apply String.eqb_eq in E as ->.
      rewrite !without_keyword_cons. simpl. rewrite !decide_True by done.
      simpl. by rewrite String.eqb_refl.
    + rewrite !without_keyword_cons. simpl.
      destruct (decide (k0 ≠ k)); simpl; [by rewrite E, IH|done].
Qed.

Lemma without_keyword_update (k : string) (d e : dict data) :
  k ∉ Dict.keys e →
  without_keyword k (Dict.update d e) = Dict.update (without_keyword k d) e.
Proof.
  unfold Dict.update. revert d.
  induction e as [|[k' v'] e IH]; intros d Hk; simpl; [done|].
  simpl in Hk. apply not_elem_of_cons in Hk as [Hne Hk].
  rewrite IH by done. by rewrite without_keyword_set.
Qed.

(** What one step of the conversion loop does to the two dictionaries does
not depend on the flags gathered so far. *)
Lemma convert_item_flags_aside (n kvs n' kvs' : dict data)
    (bl bl' bl2 : list string) (kv : string * data) :
  Html.convert_item (n, kvs, bl) kv = Ok (n', kvs', bl') →
  ∃ bl2', Html.convert_item (n, kvs, bl2) kv = Ok (n', kvs', bl2').
Proof.
  destruct kv as [key val]. simpl.
  destruct (Html.both_quotes val); [done|].
  destruct (iskeyword (Str.drop_last key)).
  - intros [= <- <- <-]. by eexists.
  - destruct val as [|[]| | | |]; intros [= <- <- <-]; by eexists.
Qed.

(** A boolean keyword that the reserved-word test lets through leaves the
two dictionaries of the conversion as they are without it. *)
Lemma convert_loop_without (k : string) (L : dict data) :
  iskeyword (Str.drop_last k) = false →
  (∀ v, (k, v) ∈ L → is_bool v = true) →
  ∀ n kvs bl bl2 n' kvs' bl',
    Html.convert_loop (n, kvs, bl) L = Ok (n', kvs', bl') →
    ∃ bl2', Html.convert_loop (n, kvs, bl2) (without_keyword k L) =
              Ok (n', kvs', bl2').
Proof.
  intros Hres. induction L as [|[key val] L IH]; intros Hbool n kvs bl bl2 n' kvs' bl'.
  - simpl. intros [= <- <- <-]. by eexists.
  - rewrite without_keyword_cons. cbn [fst Html.convert_loop].
    destruct (Html.convert_item (n, kvs, bl) (key, val))
      as [[[n1 kvs1] bl1]|] eqn:E; simpl; [|done].
    intros Hloop.
    assert (∀ v, (k, v) ∈ L → is_bool v = true) as Hbool'.
    { intros v Hv. apply Hbool. by right. }
    destruct (decide (key ≠ k)) as [Hne|Heq].
    + destruct (convert_item_flags_aside _ _ _ _ _ _ bl2 _ E) as [bl3 E3].
      cbn [Html.convert_loop]. rewrite E3. simpl.
      by apply (IH Hbool' _ _ bl1 bl3 _ _ bl').
    + apply dec_stable in Heq as ->.
      assert (is_bool val = true) as Hv by (apply Hbool; by left).
      simpl in E. rewrite Hres in E.
      destruct val as [|b0| | | |]; try done.
      assert (n1 = n ∧ kvs1 = kvs) as [-> ->].
      { destruct b0; by injection E as <- <- <-. }
      by apply (IH Hbool' _ _ bl1 bl2 _ _ bl').
Qed.

End keyword_removed.

(** C10, as amended.  Take an element instance constructed with a
boolean-valued keyword [k] such that neither the name without a trailing
underscore nor the name without its last character (which is what the
constructor tests) is a reserved word, and that the element class does not
fix itself.  The keyword leaves no trace in the props: [k] is not a key,
and the props and key/value attributes are those of the instance
constructed without the keyword; it is kept as a presence-only flag at
most, and only when its value is true.  [copy] succeeds on the instance,
and every instance that [copy], [replace], [append] or [merge] rebuilds
from it has no presence-only attribute [k]: the boolean part of its
serialization, which is printed from [_bool_args], does not contain [k].
Without the two added conditions the claim fails, as the example after
the theorem shows. *)
Theorem boolean_keyword_leaves_props `{!Prims}
    (s s1 : store) (c : comp_class) (kwargs : dict data) (k : string)
    (b : bool) (self : loc) :
  element_class c →
  dict_wf kwargs →
  (k, DBool b) ∈ kwargs →
  iskeyword (strip_trailing_underscore k) = false →
  iskeyword (Str.drop_last k) = false →
  (∀ fixed, _attributes c = Some fixed → k ∉ Dict.keys fixed) →
  construct s c [] kwargs = Ok (s1, self) →
  ∃ o, heap s1 !! self = Some o ∧
       (k ∉ Dict.keys (props o)) ∧
       (∃ o0, init_instance c [] (without_keyword k kwargs) = Ok o0 ∧
              props o = props o0 ∧ _keyval_args o = _keyval_args o0) ∧
       (k ∈ _bool_args o → b = true) ∧
       (∃ s2 new, copy s1 self = Ok (s2, new)) ∧
       ∀ (K : dict data) (s2 : store) (new : loc),
         (copy s1 self = Ok (s2, new) ∨ replace s1 self K = Ok (s2, new) ∨
          append s1 self K = Ok (s2, new) ∨ merge s1 self K = Ok (s2, new)) →
         ∃ o', heap s2 !! new = Some o' ∧ cls o' = c ∧ k ∉ _bool_args o'.
Proof.
  intros Hc Hwf Hin Hres Hlast Hfixed Hcons.
  destruct (construct_inv _ _ _ _ _ _ Hcons) as (o & Hinit & _ & Hheap & _).
  assert (heap s1 !! self = Some o) as Hl.
  { rewrite Hheap. apply lookup_insert_eq. }
  pose proof (not_reserved_not_keyword k Hres) as Hnk.
  destruct (init_instance_element c kwargs o Hc Hinit)
    as (new0 & kvs & Hconv & Hp & Hcls).
  pose proof (element_class_inv c Hc) as (Hhtml & _ & _).
  assert ((k, DBool b) ∈ effective_kwargs c kwargs) as HE.
  { unfold effective_kwargs. destruct (_attributes c) as [fixed|] eqn:Ha; [|done].
    apply dict_update_keeps; [done|]. by apply Hfixed. }
  assert (dict_wf (effective_kwargs c kwargs)) as HwfE.
  { unfold effective_kwargs. destruct (_attributes c); [|done].
    by apply dict_wf_update. }
  assert (∀ v, (k, v) ∈ props o → is_bool v = false) as Hprops.
  { intros v Hv.
    destruct (element_props_entries c kwargs o Hc Hinit k v Hv)
      as (k0 & _ & [Hkw|[Hnb _]]); [congruence|done]. }
  assert (∀ X s2 new, (∀ v, (k, v) ∈ X → is_bool v = false) →
            _merge s1 self X = Ok (s2, new) →
            ∃ o', heap s2 !! new = Some o' ∧ cls o' = c ∧ k ∉ _bool_args o')
    as Hrebuild.
  { intros X s2 new HX Hm.
    destruct (merge_inv s1 s2 self new o X Hl Hm) as (o' & Hinit' & _ & Hheap' & _).
    rewrite Hcls in Hinit'. exists o'.
    split; [rewrite Hheap'; apply lookup_insert_eq|]. split.
    - by destruct (init_instance_element c _ o' Hc Hinit') as (? & ? & _ & _ & ?).
    - apply (rebuilt_without_flag c (Dict.update (props o) X) o' k); try done.
      intros v [Hv|Hv]%dict_update_entries; [by apply Hprops|by apply HX]. }
  assert (∀ K cK, html_converted o K = Ok cK →
            ∀ v, (k, v) ∈ cK → is_bool v = false) as HconvK.
  { intros K cK. unfold html_converted. rewrite Hcls, Hhtml.
    destruct (Html._convert_kwargs K) as [[[n kv] bl]|] eqn:E; simpl; [|done].
    intros [= <-] v Hv. apply convert_kwargs_from in E as [Hn _].
    destruct (Hn k v Hv) as (k0 & _ & [?|[? _]]); [congruence|done]. }
  assert (∃ o0, init_instance c [] (without_keyword k kwargs) = Ok o0 ∧
                props o = props o0 ∧ _keyval_args o = _keyval_args o0)
    as Hwithout.
  { assert (effective_kwargs c (without_keyword k kwargs) =
            without_keyword k (effective_kwargs c kwargs)) as Heff.
    { unfold effective_kwargs.
      destruct (_attributes c) as [fixed|] eqn:Ha; [|done].
      symmetry. apply without_keyword_update. by apply Hfixed. }
    revert Hinit. unfold init_instance. rewrite Hhtml.
    change (match _attributes c with
            | Some a => Dict.update kwargs a
            | None => kwargs
            end) with (effective_kwargs c kwargs).
    change (match _attributes c with
            | Some a => Dict.update (without_keyword k kwargs) a
            | None => without_keyword k kwargs
            end) with (effective_kwargs c (without_keyword k kwargs)).
    rewrite Heff. unfold Html._convert_kwargs.
    destruct (Html.convert_loop ([], [], []) (effective_kwargs c kwargs))
      as [[[n kv] bl]|] eqn:E; simpl; [|done].
    intros [= <-].
    destruct (convert_loop_without k (effective_kwargs c kwargs) Hlast)
      with (n := @nil (string * data)) (kvs := @nil (string * data))
           (bl := @nil string) (bl2 := @nil string)
           (n' := n) (kvs' := kv) (bl' := bl) as [bl2 ->]; [|done|].
    - intros v Hv.
      by rewrite (dict_wf_unique _ k v (DBool b) HwfE Hv HE).
    - simpl. eexists. split; [reflexivity|]. by split. }
  exists o. split; [done|]. split; [|split; [done|split; [|split]]].
  - intros Hk. apply dict_keys_entries in Hk as [v Hv].
    destruct (element_props_entries c kwargs o Hc Hinit k v Hv)
      as (k0 & Hk0 & [Hkw|[Hnb ->]]); [congruence|].
    assert (v = DBool b) as -> by by apply (dict_wf_unique _ k v (DBool b) HwfE).
    done.
  - intros Hk. apply (element_bool_args c kwargs o k Hc Hinit) in Hk.
    pose proof (dict_wf_unique _ k _ _ HwfE Hk HE) as Hb. by injection Hb.
  - by apply (copy_element_ok s1 self c kwargs o).
  - intros K s2 new [Hcopy|[Hrep|[Happ|Hmer]]].
    + apply (Hrebuild [] s2 new); [by intros v ?%elem_of_nil|done].
    + unfold replace in Hrep. rewrite (get_obj_Some _ _ _ Hl) in Hrep.
      simpl in Hrep.
      destruct (html_converted o K) as [cK|] eqn:E; simpl in Hrep; [|done].
      apply (Hrebuild cK s2 new); [by apply (HconvK K)|done].
    + unfold append in Happ. rewrite (get_obj_Some _ _ _ Hl) in Happ.
      simpl in Happ.
      destruct (html_converted o K) as [cK|] eqn:E; simpl in Happ; [|done].
      unfold Base.append in Happ. rewrite (get_obj_Some _ _ _ Hl) in Happ.
      simpl in Happ.
      destruct (Base.append_loop (props o) [] cK) as [appended|] eqn:EA;
        simpl in Happ; [|done].
      apply (Hrebuild appended s2 new); [|done].
      intros v Hv.
      destruct (append_loop_entries _ _ _ _ EA k v Hv) as [Ha|[Hb|Hnb]];
        [by apply elem_of_nil in Ha|by apply (HconvK K cK)|done].
    + unfold merge in Hmer. rewrite (get_obj_Some _ _ _ Hl) in Hmer.
      simpl in Hmer.
      destruct (html_converted o K) as [cK|] eqn:E; simpl in Hmer; [|done].
      unfold Base.merge in Hmer. rewrite (get_obj_Some _ _ _ Hl) in Hmer.
      simpl in Hmer.
      destruct (Base.overlapping (props o) cK); [|done].
      apply (Hrebuild cK s2 new); [by apply (HconvK K)|done].
Qed.

Lemma boolean_keyword_leaves_props_witness :
  ∃ o, heap FlagScene.built.1 !! FlagScene.built.2 = Some o ∧
       ("hidden" ∉ Dict.keys (props o)) ∧
       (∃ o0, init_instance Scene.Div []
                (without_keyword "hidden" FlagScene.kwargs) = Ok o0 ∧
              props o = props o0 ∧ _keyval_args o = _keyval_args o0) ∧
       ("hidden" ∈ _bool_args o → true = true) ∧
       (∃ s2 new, copy FlagScene.built.1 FlagScene.built.2 = Ok (s2, new)) ∧
       ∀ (K : dict data) (s2 : store) (new : loc),
         (copy FlagScene.built.1 FlagScene.built.2 = Ok (s2, new) ∨
          replace FlagScene.built.1 FlagScene.built.2 K = Ok (s2, new) ∨
          append FlagScene.built.1 FlagScene.built.2 K = Ok (s2, new) ∨
          merge FlagScene.built.1 FlagScene.built.2 K = Ok (s2, new)) →
         ∃ o', heap s2 !! new = Some o' ∧ cls o' = Scene.Div ∧
               "hidden" ∉ _bool_args o'.
Proof.
  apply (boolean_keyword_leaves_props empty_store FlagScene.built.1 Scene.Div
           FlagScene.kwargs "hidden" true FlagScene.built.2).
  - apply element_made. reflexivity.
  - unfold dict_wf. simpl. apply (bool_decide_unpack _). vm_compute. exact I.
  - apply list_elem_of_here.
  - reflexivity.
  - reflexivity.
  - intros fixed Hfixed. vm_compute in Hfixed. discriminate Hfixed.
  - reflexivity.
Defined.

(** The claim as it was worded fails in two ways.  First, [Input(form=True)]:
the name [form] has no trailing underscore and is not a reserved word, but
the constructor tests the name without its last character, [for], which is
one; the boolean is stored in the props under [for] and printed as a
key/value attribute, and the copy, rebuilt from these props, gains a
presence-only attribute [for] that the original did not have.  Second,
with [class Hidden(Div): _attributes = {"hidden": True}] the flag of
[Hidden(hidden=True)] is not in the props, yet the copy has it again,
because the constructor applies the class attributes on every rebuild. *)
Lemma boolean_kept_in_props_or_rebuilt :
  (iskeyword (strip_trailing_underscore "form") = false ∧
   construct empty_store AttrScene.Input [] FormScene.kwargs =
     Ok FormScene.built ∧
   copy FormScene.built.1 FormScene.built.2 = Ok FormScene.copied ∧
   ∃ o o',
     heap FormScene.built.1 !! FormScene.built.2 = Some o ∧
     props o = [("for", DBool true)] ∧ _bool_args o = [] ∧
     heap FormScene.copied.1 !! FormScene.copied.2 = Some o' ∧
     props o' = [] ∧ _bool_args o' = ["for"] ∧
     py_str 1 FormScene.copied.1 FormScene.built.2 =
       Ok ("<input for=" +:+ AttrScene.q +:+ "True" +:+ AttrScene.q +:+ " />") ∧
     py_str 1 FormScene.copied.1 FormScene.copied.2 = Ok "<input for />") ∧
  (iskeyword (strip_trailing_underscore "hidden") = false ∧
   iskeyword (Str.drop_last "hidden") = false ∧
   construct empty_store FixedFlagScene.Hidden [] FixedFlagScene.kwargs =
     Ok FixedFlagScene.built ∧
   copy FixedFlagScene.built.1 FixedFlagScene.built.2 =
     Ok FixedFlagScene.copied ∧
   ∃ o o',
     heap FixedFlagScene.built.1 !! FixedFlagScene.built.2 = Some o ∧
     props o = [] ∧ _bool_args o = ["hidden"] ∧
     heap FixedFlagScene.copied.1 !! FixedFlagScene.copied.2 = Some o' ∧
     _bool_args o' = ["hidden"] ∧
     py_str 1 FixedFlagScene.copied.1 FixedFlagScene.copied.2 =
       Ok "<div hidden></div>").
Proof.
  split.
  - split; [reflexivity|]. split; [vm_compute; reflexivity|].
    split; [vm_compute; reflexivity|].
    eexists _, _. split; [vm_compute; reflexivity|].
    split; [reflexivity|]. split; [reflexivity|].
    split; [vm_compute; reflexivity|].
    split; [reflexivity|]. split; [reflexivity|].
    split; vm_compute; reflexivity.
  - split; [reflexivity|]. split; [reflexivity|].
    split; [vm_compute; reflexivity|]. split; [vm_compute; reflexivity|].
    eexists _, _. split; [vm_compute; reflexivity|].
    split; [reflexivity|]. split; [reflexivity|].
    split; [vm_compute; reflexivity|]. split; [reflexivity|].
    vm_compute. reflexivity.
Qed.

(** The same on the rendering: the copy of [Div(hidden=True, id="x")] has
lost the flag. *)
Example copy_drops_flag :
  ('(s2, new) ← copy FlagScene.built.1 FlagScene.built.2;
   a ← py_str 2 s2 FlagScene.built.2; b ← py_str 2 s2 new; Ok (a, b))
  = Ok ("<div hidden id=" +:+ AttrScene.q +:+ "x" +:+ AttrScene.q +:+ "></div>",
        "<div id=" +:+ AttrScene.q +:+ "x" +:+ AttrScene.q +:+ "></div>").
Proof. vm_compute. reflexivity. Qed.

(** ** The property bag: [replace] and [merge] *)

Section property_bag.

Context `{!Prims}.

Lemma dict_keys_update {V} (d e : dict V) (k : string) :
  k ∈ Dict.keys d → k ∈ Dict.keys (Dict.update d e).
Proof.
  unfold Dict.update. revert d.
  induction e as [|[k' v'] e IH]; intros d Hk; simpl; [done|].
  apply IH. rewrite dict_keys_set. destruct (Dict.mem k' d); [done|].
  apply elem_of_app. by left.
Qed.

Lemma base_init_keywords (c : comp_class) (kwargs : dict data) :
  base_init c [] kwargs = Dict.update (initial_props c) kwargs.
Proof.
  unfold base_init, initial_props. by destruct (_defaults c) as [[|]|].
Qed.

(** Rebuilding from keywords that cover the defaults gives back those
keywords, as a dictionary. *)
Lemma base_init_equiv (c : comp_class) (kwargs : dict data) :
  dict_wf kwargs →
  (∀ d k, _defaults c = Some d → k ∈ Dict.keys d → k ∈ Dict.keys kwargs) →
  Dict.equiv (base_init c [] kwargs) kwargs.
Proof.
  intros Hwf Hcover k. rewrite base_init_keywords, dict_get_update by done.
  destruct (Dict.get k kwargs) eqn:E; [done|].
  apply dict_get_None. apply dict_get_None in E. intros Hk. apply E.
  unfold initial_props in Hk. destruct (_defaults c) as [d|] eqn:Hd.
  - by apply (Hcover d).
  - by apply elem_of_nil in Hk.
Qed.

Lemma base_init_wf (c : comp_class) (kwargs : dict data) :
  (∀ d, _defaults c = Some d → dict_wf d) → dict_wf (base_init c [] kwargs).
Proof.
  intros Hd. rewrite base_init_keywords. apply dict_wf_update.
  unfold initial_props. destruct (_defaults c); [by apply Hd|apply NoDup_nil_2].
Qed.

(** [_merge] on a component that is not a markup element. *)
Lemma merge_plain_component (s : store) (self : loc) (o : obj)
    (extra : dict data) :
  heap s !! self = Some o →
  is_html (cls_kind (cls o)) = false →
  props_cover_defaults o →
  dict_wf extra →
  ∃ s2 new o',
    _merge s self extra = Ok (s2, new) ∧
    heap s !! new = None ∧
    heap s2 = <[new := o']> (heap s) ∧
    last_parent s2 = last_parent s ∧
    cls o' = cls o ∧
    Dict.equiv (props o') (Dict.update (props o) extra).
Proof.
  intros Hl Hk [Hwf Hcover] Hextra.
  unfold _merge. rewrite (get_obj_Some _ _ _ Hl). simpl.
  unfold construct, init_instance. rewrite Hk. simpl.
  eexists _, _, _. split; [reflexivity|].
  split; [apply not_elem_of_dom, is_fresh|].
  split; [reflexivity|]. split; [reflexivity|]. split; [reflexivity|].
  simpl. apply base_init_equiv; [by apply dict_wf_update|].
  intros d k Hd Hin. apply dict_keys_update. by apply (Hcover d).
Qed.

End property_bag.

Section replace_merge.

Context `{!Prims}.

Lemma dict_update_nil_equiv {V} (d : dict V) :
  dict_wf d → Dict.equiv (Dict.update [] d) d.
Proof.
  intros Hwf k. rewrite dict_get_update by done. by destruct (Dict.get k d).
Qed.

Lemma dict_update_equiv_r {V} (d e e' : dict V) :
  dict_wf e → dict_wf e' → Dict.equiv e e' →
  Dict.equiv (Dict.update d e) (Dict.update d e').
Proof. intros He He' Heq k. by rewrite !dict_get_update, Heq. Qed.

Lemma convert_loop_plain (acc : Html.converted) (kwargs : dict data) :
  (∀ kv, kv ∈ kwargs → plain_keyword kv) →
  Html.convert_loop acc kwargs
    = Ok (Dict.update acc.1.1 kwargs, Dict.update acc.1.2 kwargs, acc.2).
Proof.
  revert acc. induction kwargs as [|[k v] rest IH]; intros [[new kvs] bools] Hall.
  - reflexivity.
  - destruct (Hall (k, v)) as (Hq & Hkw & Hb); [by left|]. simpl in *.
    rewrite Hq, Hkw.
    assert (∀ kv, kv ∈ rest → plain_keyword kv) as Hrest.
    { intros ? ?. apply Hall. by right. }
    destruct v as [|b| | | |]; try done; simpl; by rewrite (IH _ Hrest).
Qed.

Lemma rebuilt_next_to_intro (s s2 : store) (self new : loc) (o o' : obj) :
  heap s !! self = Some o → heap s !! new = None →
  heap s2 = <[new := o']> (heap s) → last_parent s2 = last_parent s →
  rebuilt_next_to s s2 self new o o'.
Proof.
  intros Hl Hnew Hheap Hlp.
  assert (new ≠ self) as Hne by (intros ->; congruence).
  repeat split; try done. rewrite Hheap. by rewrite lookup_insert_ne.
Qed.

Lemma replace_element_plain (s : store) (self : loc) (o : obj) (K : dict data) :
  heap s !! self = Some o →
  dict_wf K → dict_wf (props o) →
  element_class (cls o) →
  _attributes (cls o) = None →
  (∀ kv, kv ∈ props o ++ K → plain_keyword kv) →
  ∃ s2 new o',
    replace s self K = Ok (s2, new) ∧
    rebuilt_next_to s s2 self new o o' ∧
    cls o' = cls o ∧
    Dict.equiv (props o') (Dict.update (props o) K).
Proof.
  intros Hl HwfK Hwfp Hc Hattr Hplain.
  pose proof (element_class_inv _ Hc) as (Hhtml & Hd & _).
  unfold replace. rewrite (get_obj_Some _ _ _ Hl). simpl.
  unfold html_converted, Html._convert_kwargs. rewrite Hhtml.
  rewrite convert_loop_plain by (intros kv Hkv; apply Hplain, elem_of_app; by right).
  simpl. unfold Base.replace, _merge. rewrite (get_obj_Some _ _ _ Hl). simpl.
  unfold construct, init_instance, Html._convert_kwargs. rewrite Hhtml, Hattr.
  rewrite convert_loop_plain.
  - simpl. eexists _, _, _. split; [reflexivity|]. split; [|split].
    + apply rebuilt_next_to_intro;
        [exact Hl|apply not_elem_of_dom, is_fresh|reflexivity|reflexivity].
    + reflexivity.
    + simpl. unfold base_init. rewrite Hd.
      assert (dict_wf (Dict.update (props o) (Dict.update [] K))) as HwfM
        by by apply dict_wf_update.
      etrans; [apply dict_update_nil_equiv; apply dict_wf_update, NoDup_nil_2|].
      etrans; [by apply dict_update_nil_equiv|].
      apply dict_update_equiv_r; [apply dict_wf_update, NoDup_nil_2|done|].
      by apply dict_update_nil_equiv.
  - intros [k v] [Hkv|Hkv]%dict_update_entries.
    + apply Hplain, elem_of_app. by left.
    + apply dict_update_entries in Hkv as [Hkv|Hkv]; [by apply elem_of_nil in Hkv|].
      apply Hplain, elem_of_app. by right.
Qed.

End replace_merge.

(** C7, as stated, fails on a markup element: [Div(id="a").replace(
hidden=True)] returns an instance whose props are still [{id: "a"}], not
the union with the keyword given. *)
Lemma replace_on_element_drops_boolean :
  ∃ s2 new o o',
    heap BagScene.built.1 !! BagScene.built.2 = Some o ∧
    replace BagScene.built.1 BagScene.built.2 [("hidden", DBool true)]
      = Ok (s2, new) ∧
    heap s2 !! new = Some o' ∧
    props o' = [("id", DStr "a")] ∧
    Dict.update (props o) [("hidden", DBool true)]
      = [("id", DStr "a"); ("hidden", DBool true)] ∧
    ¬ Dict.equiv (props o') (Dict.update (props o) [("hidden", DBool true)]).
Proof.
  eexists _, _, _, _. split; [reflexivity|]. split; [reflexivity|].
  split; [reflexivity|]. split; [reflexivity|]. split; [reflexivity|].
  intros Heq. specialize (Heq "hidden"). vm_compute in Heq. discriminate Heq.
Qed.

(** C7, amended.  On a function- or class-backed component whose props
hold the keys of the defaults of its type (as every constructed instance
does), [replace] leaves the receiver as it was and returns a new instance,
not the receiver, whose props equal the receiver's props overlaid with the
keywords.  On a markup element the keywords are converted first, and the
new instance is the one the element constructor builds from the receiver's
props overlaid with the converted keywords; its props equal the receiver's
props overlaid with the keywords given when the class fixes no attributes
and conversion leaves the props and the keywords as they are. *)
Theorem replace_overlays_keywords `{!Prims}
    (s : store) (self : loc) (o : obj) (K : dict data) :
  heap s !! self = Some o →
  dict_wf K →
  (is_html (cls_kind (cls o)) = false → props_cover_defaults o →
   ∃ s2 new o',
     replace s self K = Ok (s2, new) ∧
     rebuilt_next_to s s2 self new o o' ∧
     cls o' = cls o ∧
     Dict.equiv (props o') (Dict.update (props o) K)) ∧
  (element_class (cls o) →
   (∀ s2 new,
      replace s self K = Ok (s2, new) →
      ∃ cK kvs bools o',
        Html._convert_kwargs K = Ok (cK, kvs, bools) ∧
        init_instance (cls o) [] (Dict.update (props o) cK) = Ok o' ∧
        rebuilt_next_to s s2 self new o o') ∧
   (dict_wf (props o) → _attributes (cls o) = None →
    (∀ kv, kv ∈ props o ++ K → plain_keyword kv) →
    ∃ s2 new o',
      replace s self K = Ok (s2, new) ∧
      rebuilt_next_to s s2 self new o o' ∧
      cls o' = cls o ∧
      Dict.equiv (props o') (Dict.update (props o) K))).
Proof.
  intros Hl HwfK. split.
  - intros Hk Hcover.
    destruct (merge_plain_component s self o K Hl Hk Hcover HwfK)
      as (s2 & new & o' & Hm & Hnew & Hheap & Hlp & Hcls & Heq).
    exists s2, new, o'. split; [|split; [|done]].
    + unfold replace. rewrite (get_obj_Some _ _ _ Hl). simpl.
      unfold html_converted. by rewrite Hk.
    + by apply rebuilt_next_to_intro.
  - intros Hc. split.
    + intros s2 new. unfold replace. rewrite (get_obj_Some _ _ _ Hl). simpl.
      unfold html_converted.
      destruct (element_class_inv _ Hc) as (-> & _ & _).
      destruct (Html._convert_kwargs K) as [[[cK kvs] bools]|]; simpl; [|done].
      intros Hm.
      destruct (merge_inv s s2 self new o cK Hl Hm) as (o' & Hinit & Hnew & Hheap & Hlp).
      exists cK, kvs, bools, o'. split; [done|]. split; [done|].
      by apply rebuilt_next_to_intro.
    + intros Hwfp Hattr Hplain. by apply replace_element_plain.
Qed.

Lemma replace_overlays_keywords_witness :
  (is_html (cls_kind (cls BagScene.card)) = false →
   props_cover_defaults BagScene.card →
   ∃ s2 new o',
     replace BagScene.card_store 0%nat [("size", DInt 2)] = Ok (s2, new) ∧
     rebuilt_next_to BagScene.card_store s2 0%nat new BagScene.card o' ∧
     cls o' = cls BagScene.card ∧
     Dict.equiv (props o')
                (Dict.update (props BagScene.card) [("size", DInt 2)])) ∧
  (element_class (cls BagScene.card) →
   (∀ s2 new,
      replace BagScene.card_store 0%nat [("size", DInt 2)] = Ok (s2, new) →
      ∃ cK kvs bools o',
        Html._convert_kwargs [("size", DInt 2)] = Ok (cK, kvs, bools) ∧
        init_instance (cls BagScene.card) []
                      (Dict.update (props BagScene.card) cK) = Ok o' ∧
        rebuilt_next_to BagScene.card_store s2 0%nat new BagScene.card o') ∧
   (dict_wf (props BagScene.card) → _attributes (cls BagScene.card) = None →
    (∀ kv, kv ∈ props BagScene.card ++ [("size", DInt 2)] → plain_keyword kv) →
    ∃ s2 new o',
      replace BagScene.card_store 0%nat [("size", DInt 2)] = Ok (s2, new) ∧
      rebuilt_next_to BagScene.card_store s2 0%nat new BagScene.card o' ∧
      cls o' = cls BagScene.card ∧
      Dict.equiv (props o')
                 (Dict.update (props BagScene.card) [("size", DInt 2)]))).
Proof.
  apply (replace_overlays_keywords BagScene.card_store 0%nat BagScene.card
           [("size", DInt 2)]).
  - reflexivity.
  - unfold dict_wf. simpl. apply NoDup_singleton.
Defined.

Example card_covers_defaults : props_cover_defaults BagScene.card.
Proof.
  split.
  - unfold dict_wf. simpl. apply (bool_decide_unpack _). vm_compute. exact I.
  - intros d k [= <-] Hk. simpl in *.
    apply list_elem_of_singleton in Hk as ->. by left.
Qed.

Example card_replace_size :
  ('(s2, new) ← replace BagScene.card_store 0%nat [("size", DInt 2)];
   o' ← get_obj s2 new; o ← get_obj s2 0%nat; Ok (props o, props o'))
  = Ok ([("size", DInt 1); ("title", DStr "t")],
        [("size", DInt 2); ("title", DStr "t")]).
Proof. vm_compute. reflexivity. Qed.

(** C6, as stated, fails on a markup element: [Div(id="a").merge(id=True)]
does not fail although [id] is already among the props, because the
boolean keyword is dropped before the keys are compared; the instance
returned has the props of the receiver. *)
Lemma merge_on_element_misses_conflict :
  ∃ s2 new o o',
    heap BagScene.built.1 !! BagScene.built.2 = Some o ∧
    "id" ∈ Dict.keys (props o) ∧
    "id" ∈ Dict.keys [("id", DBool true)] ∧
    merge BagScene.built.1 BagScene.built.2 [("id", DBool true)]
      = Ok (s2, new) ∧
    heap s2 !! new = Some o' ∧
    props o' = [("id", DStr "a")].
Proof.
  eexists _, _, _, _. split; [reflexivity|].
  split; [by apply list_elem_of_here|]. split; [by apply list_elem_of_here|].
  split; [reflexivity|]. split; reflexivity.
Qed.

Section merge_conflict.

Context `{!Prims}.

Lemma overlapping_spec (pr kwargs : dict data) (k : string) :
  k ∈ Base.overlapping pr kwargs ↔ k ∈ Dict.keys kwargs ∧ k ∈ Dict.keys pr.
Proof.
  unfold Base.overlapping. rewrite list_elem_of_filter, dict_mem_keys.
  split; intros [? ?]; by split.
Qed.

Lemma overlapping_nil (pr kwargs : dict data) :
  Base.overlapping pr kwargs = [] ↔
  ∀ k, k ∈ Dict.keys kwargs → k ∉ Dict.keys pr.
Proof.
  split.
  - intros Hnil k Hk Hp.
    assert (k ∈ Base.overlapping pr kwargs) as Hin by by apply overlapping_spec.
    rewrite Hnil in Hin. by apply elem_of_nil in Hin.
  - intros Hno. destruct (Base.overlapping pr kwargs) as [|k ov] eqn:E; [done|].
    assert (k ∈ Base.overlapping pr kwargs) as Hin by (rewrite E; by left).
    apply overlapping_spec in Hin as [Hk Hp]. by destruct (Hno k Hk).
Qed.

(** [_ComponentBase.merge], on a receiver found in the store. *)
Lemma base_merge_cases (s : store) (self : loc) (o : obj) (kwargs : dict data) :
  heap s !! self = Some o →
  ((∃ k, k ∈ Dict.keys kwargs ∧ k ∈ Dict.keys (props o)) →
   Base.merge s self kwargs =
     Raise (KeyError (Base.merge_message o (Base.overlapping (props o) kwargs)))) ∧
  ((∀ k, k ∈ Dict.keys kwargs → k ∉ Dict.keys (props o)) →
   Base.merge s self kwargs = _merge s self kwargs).
Proof.
  intros Hl. unfold Base.merge. rewrite (get_obj_Some _ _ _ Hl). simpl. split.
  - intros (k & Hk & Hp).
    destruct (Base.overlapping (props o) kwargs) as [|k' ov] eqn:E; [|done].
    assert (k ∈ Base.overlapping (props o) kwargs) as Hin by by apply overlapping_spec.
    rewrite E in Hin. by apply elem_of_nil in Hin.
  - intros Hno. by rewrite (proj2 (overlapping_nil _ _) Hno).
Qed.

End merge_conflict.

(** C6, amended.  On a function- or class-backed component (its props
holding the keys of the defaults of its type), [merge] fails exactly when a
key of the keywords is already among the props; the error is a [KeyError]
whose message starts with the overlapping keys, all of them, in the order of
the keywords, and no store comes back, so the receiver is as it was; without
overlap it returns a new instance whose props equal the receiver's props
overlaid with the keywords.  On a markup element the keywords are converted
first and the overlap is looked for among the converted keys. *)
Theorem merge_fails_iff_overlap `{!Prims}
    (s : store) (self : loc) (o : obj) (K : dict data) :
  heap s !! self = Some o →
  dict_wf K →
  (is_html (cls_kind (cls o)) = false → props_cover_defaults o →
   ((∃ e, merge s self K = Raise e) ↔
    (∃ k, k ∈ Dict.keys K ∧ k ∈ Dict.keys (props o))) ∧
   ((∃ k, k ∈ Dict.keys K ∧ k ∈ Dict.keys (props o)) →
    merge s self K =
      Raise (KeyError
               (Str.join ", " (Base.overlapping (props o) K) +:+
                " already specified in " +:+ __repr__ o +:+ ", " +:+
                "use the replace method if you want to replace arguments")) ∧
    ∀ k, k ∈ Base.overlapping (props o) K ↔
         k ∈ Dict.keys K ∧ k ∈ Dict.keys (props o)) ∧
   ((∀ k, k ∈ Dict.keys K → k ∉ Dict.keys (props o)) →
    ∃ s2 new o',
      merge s self K = Ok (s2, new) ∧
      rebuilt_next_to s s2 self new o o' ∧
      cls o' = cls o ∧
      Dict.equiv (props o') (Dict.update (props o) K))) ∧
  (element_class (cls o) →
   ∀ cK kvs bools,
     Html._convert_kwargs K = Ok (cK, kvs, bools) →
     ((∃ k, k ∈ Dict.keys cK ∧ k ∈ Dict.keys (props o)) →
      merge s self K =
        Raise (KeyError (Base.merge_message o (Base.overlapping (props o) cK)))) ∧
     ((∀ k, k ∈ Dict.keys cK → k ∉ Dict.keys (props o)) →
      merge s self K = _merge s self cK)).
Proof.
  intros Hl HwfK. split.
  - intros Hk Hcover.
    assert (merge s self K = Base.merge s self K) as Hm.
    { unfold merge. rewrite (get_obj_Some _ _ _ Hl). simpl.
      unfold html_converted. by rewrite Hk. }
    destruct (base_merge_cases s self o K Hl) as [Hfail Hgo].
    assert ((∀ k, k ∈ Dict.keys K → k ∉ Dict.keys (props o)) →
            ∃ s2 new o',
              merge s self K = Ok (s2, new) ∧
              rebuilt_next_to s s2 self new o o' ∧
              cls o' = cls o ∧
              Dict.equiv (props o') (Dict.update (props o) K)) as Hsuccess.
    { intros Hno.
      destruct (merge_plain_component s self o K Hl Hk Hcover HwfK)
        as (s2 & new & o' & Hmg & Hnew & Hheap & Hlp & Hcls & Heq).
      exists s2, new, o'. split; [by rewrite Hm, Hgo|].
      split; [by apply rebuilt_next_to_intro|done]. }
    split; [|split; [|done]].
    + split.
      * intros [e He].
        destruct (Base.overlapping (props o) K) as [|k ov] eqn:E.
        -- pose proof (proj1 (overlapping_nil _ _) E) as Hno.
           destruct (Hsuccess Hno) as (? & ? & ? & Hok & _). congruence.
        -- exists k. apply overlapping_spec. rewrite E. by left.
      * intros Hov. eexists. by rewrite Hm, Hfail.
    + intros Hov. split; [by rewrite Hm, Hfail|]. apply overlapping_spec.
  - intros Hc cK kvs bools Hconv.
    assert (merge s self K = Base.merge s self cK) as Hm.
    { unfold merge. rewrite (get_obj_Some _ _ _ Hl). simpl.
      unfold html_converted.
      destruct (element_class_inv _ Hc) as (-> & _ & _). by rewrite Hconv. }
    destruct (base_merge_cases s self o cK Hl) as [Hfail Hgo].
    split; intros ?; rewrite Hm; [by apply Hfail|by apply Hgo].
Qed.

Lemma merge_fails_iff_overlap_witness :
  (is_html (cls_kind (cls BagScene.card)) = false →
   props_cover_defaults BagScene.card →
   ((∃ e, merge BagScene.card_store 0%nat [("size", DInt 2)] = Raise e) ↔
    (∃ k, k ∈ Dict.keys [("size", DInt 2)] ∧
          k ∈ Dict.keys (props BagScene.card))) ∧
   ((∃ k, k ∈ Dict.keys [("size", DInt 2)] ∧
          k ∈ Dict.keys (props BagScene.card)) →
    merge BagScene.card_store 0%nat [("size", DInt 2)] =
      Raise (KeyError
               (Str.join ", " (Base.overlapping (props BagScene.card)
                                                [("size", DInt 2)]) +:+
                " already specified in " +:+ __repr__ BagScene.card +:+ ", " +:+
                "use the replace method if you want to replace arguments")) ∧
    ∀ k, k ∈ Base.overlapping (props BagScene.card) [("size", DInt 2)] ↔
         k ∈ Dict.keys [("size", DInt 2)] ∧
         k ∈ Dict.keys (props BagScene.card)) ∧
   ((∀ k, k ∈ Dict.keys [("size", DInt 2)] →
          k ∉ Dict.keys (props BagScene.card)) →
    ∃ s2 new o',
      merge BagScene.card_store 0%nat [("size", DInt 2)] = Ok (s2, new) ∧
      rebuilt_next_to BagScene.card_store s2 0%nat new BagScene.card o' ∧
      cls o' = cls BagScene.card ∧
      Dict.equiv (props o')
                 (Dict.update (props BagScene.card) [("size", DInt 2)]))) ∧
  (element_class (cls BagScene.card) →
   ∀ cK kvs bools,
     Html._convert_kwargs [("size", DInt 2)] = Ok (cK, kvs, bools) →
     ((∃ k, k ∈ Dict.keys cK ∧ k ∈ Dict.keys (props BagScene.card)) →
      merge BagScene.card_store 0%nat [("size", DInt 2)] =
        Raise (KeyError (Base.merge_message BagScene.card
                           (Base.overlapping (props BagScene.card) cK)))) ∧
     ((∀ k, k ∈ Dict.keys cK → k ∉ Dict.keys (props BagScene.card)) →
      merge BagScene.card_store 0%nat [("size", DInt 2)]
        = _merge BagScene.card_store 0%nat cK)).
Proof.
  apply (merge_fails_iff_overlap BagScene.card_store 0%nat BagScene.card
           [("size", DInt 2)]).
  - reflexivity.
  - unfold dict_wf. simpl. apply NoDup_singleton.
Defined.

(** The conflict error on [Card("t").merge(size=2, title="u", kind="k")]
names both overlapping keys; [merge(kind="k")] succeeds. *)
Example card_merge_conflict :
  merge BagScene.card_store 0%nat
        [("size", DInt 2); ("title", DStr "u"); ("kind", DStr "k")]
    = Raise (KeyError ("size, title already specified in " +:+
                       "<Card(size=1, title='t')>, " +:+
                       "use the replace method if you want to replace arguments")) ∧
  ('(s2, new) ← merge BagScene.card_store 0%nat [("kind", DStr "k")];
   o' ← get_obj s2 new; Ok (props o'))
    = Ok [("size", DInt 1); ("title", DStr "t"); ("kind", DStr "k")].
Proof. split; vm_compute; reflexivity. Qed.

(** ** What the constructor establishes *)

Section constructed.

Context `{!Prims}.

Lemma base_init_updates (c : comp_class) (pos : list data) (kwargs : dict data) :
  base_init c pos kwargs =
    Dict.update (Dict.update (initial_props c) (zip (_argnames c) pos)) kwargs.
Proof.
  unfold base_init, initial_props. destruct pos as [|v pos].
  - replace (zip (_argnames c) []) with (@nil (string * data))
      by by destruct (_argnames c).
    by destruct (_defaults c) as [[|]|].
  - by destruct (_defaults c) as [[|]|].
Qed.

(** Every instance of a function- or class-backed type whose defaults are a
dictionary leaves its constructor with props that cover the defaults. *)
Lemma constructed_covers_defaults (c : comp_class) (pos : list data)
    (kwargs : dict data) (o : obj) :
  is_html (cls_kind c) = false →
  (∀ d, _defaults c = Some d → dict_wf d) →
  init_instance c pos kwargs = Ok o →
  props_cover_defaults o.
Proof.
  intros Hk Hd. unfold init_instance. rewrite Hk. intros [= <-].
  unfold props_cover_defaults. simpl. rewrite base_init_updates. split.
  - do 2 apply dict_wf_update. unfold initial_props.
    destruct (_defaults c); [by apply Hd|apply NoDup_nil_2].
  - intros d k Hdc Hin. do 2 apply dict_keys_update.
    unfold initial_props. by rewrite Hdc.
Qed.

(** The defaults [_make_defaults] computes are a dictionary. *)
Lemma make_defaults_wf (sp : argspec) (d : dict data) :
  Factory._make_defaults sp = Ok (Some d) → dict_wf d.
Proof.
  unfold Factory._make_defaults.
  destruct (_ || _); [done|]. destruct (_ && _); [done|].
  intros [= <-].
  destruct (kwonlydefaults sp), (defaults sp);
    repeat apply dict_wf_update; apply NoDup_nil_2.
Qed.

End constructed.

(** ** Sibling blocks *)

Section siblings.

Context `{!Prims}.

Lemma run_leaf_block_attaches (f : Z) (s : store) (p c : loc) (po o : obj)
    (vs : list value) :
  last_parent s = (Some f, Some p) →
  heap s !! p = Some po → _children po = VSeq vs →
  heap s !! c = Some o → has_children_mixin (cls_kind (cls o)) = true →
  c ≠ p →
  run_leaf_block f s c =
    Ok {| heap := <[p := with_children po (VSeq (vs ++ [VRef c]))]>
                    (<[c := with_saved o (Some f, Some p)]> (heap s));
          last_parent := (Some f, Some p) |}.
Proof.
  intros Hlp Hp Hvs Hc Hk Hne. unfold run_leaf_block, __enter__.
  rewrite (children_capable_Some _ _ _ Hc Hk). simpl. rewrite Hlp. simpl.
  unfold __exit__.
  rewrite (children_capable_Some _ c (with_saved o (Some f, Some p)));
    [|apply lookup_insert_eq|done].
  simpl. rewrite bool_decide_true by done.
  rewrite (get_obj_Some _ p po); [|simpl; by rewrite lookup_insert_ne].
  simpl. by rewrite Hvs.
Qed.

(** X22.  Blocks opened and closed one after the other inside the block of
[p], in the scope of [p]'s own enter, end up as the children of [p] in the order
in which they were written, each of them once; the slot holds [p] again. *)
Theorem siblings_in_document_order (f : Z) (cs : list loc) (s : store)
    (p : loc) (po : obj) (vs : list value) :
  last_parent s = (Some f, Some p) →
  heap s !! p = Some po → _children po = VSeq vs →
  p ∉ cs → NoDup cs →
  (∀ c, c ∈ cs → ∃ o, heap s !! c = Some o ∧
                      has_children_mixin (cls_kind (cls o)) = true) →
  ∃ s', run_leaf_blocks f s cs = Ok s' ∧
        last_parent s' = (Some f, Some p) ∧
        heap s' !! p = Some (with_children po (VSeq (vs ++ map VRef cs))).
Proof.
  revert s po vs. induction cs as [|c cs IH]; intros s po vs Hlp Hp Hvs Hnot Hnd Hall.
  - exists s. split; [done|]. split; [done|]. simpl. rewrite app_nil_r.
    rewrite Hp. f_equal. destruct po; simpl in *; by subst.
  - apply not_elem_of_cons in Hnot as [Hne Hnot].
    apply NoDup_cons in Hnd as [Hc_fresh Hnd].
    destruct (Hall c) as (o & Hc & Hk); [by left|].
    simpl. rewrite (run_leaf_block_attaches f s p c po o vs); try done.
    simpl.
    match goal with
    | |- context [run_leaf_blocks f ?s1 cs] =>
        destruct (IH s1 (with_children po (VSeq (vs ++ [VRef c])))
                    (vs ++ [VRef c]))
          as (s' & Hrun & Hlp' & Hp')
    end.
    + done.
    + apply lookup_insert_eq.
    + done.
    + done.
    + done.
    + intros c' Hc'. destruct (Hall c') as (o' & Ho' & Hk'); [by right|].
      exists o'. split; [|done]. simpl.
      rewrite !lookup_insert_ne; [done| |]; intros <-; done.
    + exists s'. split; [done|]. split; [done|].
      rewrite Hp'. simpl. by rewrite <- app_assoc.
Qed.

End siblings.

(** Three [Div] blocks written one after the other inside a [Div] block. *)
Example three_siblings :
  ('(s, p) ← construct empty_store Scene.Div [] [];
   '(s, a) ← construct s Scene.Div [] [];
   '(s, b) ← construct s Scene.Div [] [];
   '(s, c) ← construct s Scene.Div [] [];
   '(s, _) ← __enter__ s p 7;
   s ← run_leaf_blocks 7 s [a; b; c];
   s ← __exit__ s p 7 None;
   o ← get_obj s p;
   Ok (_children o, last_parent s))
  = Ok (VSeq [VRef 1%nat; VRef 2%nat; VRef 3%nat], (None, None)).
Proof. vm_compute. reflexivity. Qed.

(** ** Serialization by classification *)

Section classification.

Context `{!Prims}.

Lemma dict_set_fresh {V} (d : dict V) (k : string) (v : V) :
  k ∉ Dict.keys d → Dict.set k v d = d ++ [(k, v)].
Proof.
  induction d as [|[k' v'] d IH]; simpl; [done|].
  intros [Hne Hk]%not_elem_of_cons.
  assert (k' ≠ k) as ->%String.eqb_neq by done. by rewrite IH.
Qed.

Lemma classified_keyvals_cons (kv : string * data) (rest : dict data) :
  classified_keyvals (kv :: rest) =
    if is_keyval kv then (attr_name kv.1, kv.2) :: classified_keyvals rest
    else classified_keyvals rest.
Proof.
  unfold classified_keyvals. rewrite filter_cons.
  destruct (is_keyval kv); [by rewrite decide_True|by rewrite decide_False].
Qed.

Lemma classified_flags_cons (kv : string * data) (rest : dict data) :
  classified_flags (kv :: rest) =
    if is_flag kv then kv.1 :: classified_flags rest
    else classified_flags rest.
Proof.
  unfold classified_flags. rewrite filter_cons.
  destruct (is_flag kv); [by rewrite decide_True|by rewrite decide_False].
Qed.

(** One more key/value attribute under a name not yet used. *)
Lemma convert_step_keyval (a : dict data) (k : string) (v : data)
    (rest : dict data) :
  NoDup (Dict.keys a ++ k :: Dict.keys rest) →
  Dict.set k v a = a ++ [(k, v)] ∧
  NoDup (Dict.keys (a ++ [(k, v)]) ++ Dict.keys rest).
Proof.
  intros (Ha & Hdisj & Hrest)%NoDup_app.
  apply NoDup_cons in Hrest as [Hk Hrest]. split.
  - apply dict_set_fresh. intros Hin. apply (Hdisj k Hin). by left.
  - unfold Dict.keys in *. rewrite fmap_app. simpl. rewrite <- app_assoc.
    apply NoDup_app. split; [done|]. split; [|by apply NoDup_cons].
    intros x Hx. apply (Hdisj x Hx).
Qed.

Lemma convert_loop_classifies (a : dict data) (b : list string)
    (kwargs : dict data) :
  (∀ kv, kv ∈ kwargs → Html.both_quotes kv.2 = false) →
  NoDup (Dict.keys a ++ Dict.keys (classified_keyvals kwargs)) →
  Html.convert_loop (a, a, b) kwargs =
    Ok (a ++ classified_keyvals kwargs, a ++ classified_keyvals kwargs,
        b ++ classified_flags kwargs).
Proof.
  revert a b. induction kwargs as [|[k v] rest IH]; intros a b Hq Hnd.
  - simpl. unfold classified_keyvals, classified_flags. simpl.
    by rewrite !app_nil_r.
  - assert (∀ kv, kv ∈ rest → Html.both_quotes kv.2 = false) as Hq'.
    { intros ? ?. apply Hq. by right. }
    pose proof (Hq (k, v) ltac:(by left)) as Hqv. simpl in Hqv.
    rewrite classified_keyvals_cons in Hnd |- *.
    rewrite classified_flags_cons.
    unfold is_keyval, is_flag, attr_name in *. simpl in *. rewrite Hqv.
    destruct (iskeyword (Str.drop_last k)) eqn:Hkw; simpl in *.
    + destruct (convert_step_keyval a _ v _ Hnd) as [-> Hnd'].
      rewrite (IH _ b Hq' Hnd'). by rewrite <- !app_assoc.
    + destruct v as [|[]| | | |]; simpl in *;
        try (match goal with
             | |- context [Dict.set k ?v a] =>
                 destruct (convert_step_keyval a k v _ Hnd) as [-> Hnd']
             end;
             rewrite (IH _ b Hq' Hnd'); by rewrite <- !app_assoc).
      * rewrite (IH a _ Hq' Hnd). by rewrite <- app_assoc.
      * by rewrite (IH a b Hq' Hnd).
Qed.

(** X23.  An element built from keywords whose serialized names are distinct
and whose class fixes nothing: the flags first, then the key/value attributes
that are not [None], each group in the order of the keywords. *)
Theorem serialization_by_classification (c : comp_class) (kwargs : dict data) :
  is_html (cls_kind c) = true →
  _attributes c = None →
  (∀ kv, kv ∈ kwargs → Html.both_quotes kv.2 = false) →
  NoDup (Dict.keys (classified_keyvals kwargs)) →
  ∃ o, init_instance c [] kwargs = Ok o ∧
       _bool_args o = classified_flags kwargs ∧
       _keyval_args o = classified_keyvals kwargs ∧
       Html._get_attributes o =
         Html.lead_space
           (Str.join " " (map Html.conv (classified_flags kwargs))) +:+
         Html.lead_space
           (Str.join " "
              (map (fun kv => Html.html_attr kv.1 kv.2)
                   (filter (fun kv => is_none kv.2 = false)
                           (classified_keyvals kwargs)))).
Proof.
  intros Hk Hattr Hq Hnd. unfold init_instance. rewrite Hk, Hattr.
  unfold Html._convert_kwargs.
  rewrite (convert_loop_classifies [] [] kwargs Hq Hnd). simpl.
  eexists. split; [reflexivity|]. by repeat split.
Qed.

End classification.

(** * Further properties of the component module *)

(** ** Construction: [_ComponentBase.__init__] *)

Section construction.
Context `{!Prims}.

Lemma zip_keys_wf (names : list string) (pos : list data) :
  NoDup names → dict_wf (zip names pos).
Proof.
  unfold dict_wf, Dict.keys. revert pos.
  induction names as [|n names IH]; intros pos Hnd; [apply NoDup_nil_2|].
  destruct pos as [|v pos]; [apply NoDup_nil_2|].
  apply NoDup_cons in Hnd as [Hn Hnd]. simpl. apply NoDup_cons. split; [|by apply IH].
  intros ((n' & v') & Heq & Hin)%list_elem_of_fmap. simpl in Heq. subst n'.
  apply Hn. clear -Hin. revert pos Hin.
  induction names as [|m names IH]; intros pos Hin; [by apply elem_of_nil in Hin|].
  destruct pos as [|w pos]; [by apply elem_of_nil in Hin|].
  simpl in Hin. apply elem_of_cons in Hin as [[= -> _]|Hin]; [by left|].
  right. by apply (IH pos).
Qed.

Lemma zip_surplus {A B} (names : list A) (pos extra : list B) :
  (length names ≤ length pos)%nat → zip names (pos ++ extra) = zip names pos.
Proof.
  revert pos. induction names as [|n names IH]; intros pos Hlen; [done|].
  destruct pos as [|v pos]; simpl in *; [lia|].
  f_equal. apply IH. lia.
Qed.

(** The instance fields every constructor sets. *)
Lemma init_instance_fields (c : comp_class) (pos : list data)
    (kwargs : dict data) (o : obj) :
  init_instance c pos kwargs = Ok o →
  cls o = c ∧ _children o = VSeq [] ∧ _lazy o = false ∧ saved o = None.
Proof.
  unfold init_instance. destruct (is_html (cls_kind c)).
  - destruct pos; [|done].
    destruct (Html._convert_kwargs _) as [[[new kvs] bools]|]; simpl; [|done].
    by intros [= <-].
  - by intros [= <-].
Qed.
End construction.

(** X1.  The props of a new instance of a function- or class-backed
component: a keyword argument wins over a positional argument, which wins
over a declared default; a name given in none of the three ways is not a
prop. *)
Theorem constructor_precedence `{!Prims}
    (c : comp_class) (pos : list data) (kwargs : dict data) (k : string) :
  is_html (cls_kind c) = false →
  dict_wf kwargs →
  NoDup (_argnames c) →
  ∃ o, init_instance c pos kwargs = Ok o ∧
       Dict.get k (props o) =
         match Dict.get k kwargs with
         | Some v => Some v
         | None =>
             match Dict.get k (zip (_argnames c) pos) with
             | Some v => Some v
             | None => Dict.get k (initial_props c)
             end
         end.
Proof.
  intros Hk Hwf Hnd. unfold init_instance. rewrite Hk.
  eexists. split; [reflexivity|]. simpl.
  rewrite base_init_updates, dict_get_update by done.
  destruct (Dict.get k kwargs); [done|].
  by rewrite dict_get_update by by apply zip_keys_wf.
Qed.

(** X2.  Positional arguments beyond the declared parameter names are
dropped without an error: the instance is the one built from the first
arguments alone. *)
Theorem surplus_positional_ignored `{!Prims}
    (c : comp_class) (pos extra : list data) (kwargs : dict data) :
  is_html (cls_kind c) = false →
  (length (_argnames c) ≤ length pos)%nat →
  init_instance c (pos ++ extra) kwargs = init_instance c pos kwargs.
Proof.
  intros Hk Hlen. unfold init_instance. rewrite Hk.
  by rewrite !base_init_updates, zip_surplus.
Qed.

Lemma constructor_precedence_witness :
  ∃ o, init_instance BagScene.Card CardWitness.pos CardWitness.kwargs = Ok o ∧
       Dict.get "size" (props o) =
         match Dict.get "size" CardWitness.kwargs with
         | Some v => Some v
         | None =>
             match Dict.get "size" (zip (_argnames BagScene.Card) CardWitness.pos) with
             | Some v => Some v
             | None => Dict.get "size" (initial_props BagScene.Card)
             end
         end.
Proof.
  apply (constructor_precedence BagScene.Card CardWitness.pos
           CardWitness.kwargs "size").
  - reflexivity.
  - unfold dict_wf. simpl. apply NoDup_singleton.
  - apply (bool_decide_unpack _). vm_compute. exact I.
Defined.

Lemma surplus_positional_ignored_witness :
  init_instance BagScene.Card ([DStr "t"; DInt 2] ++ [DInt 9]) []
    = init_instance BagScene.Card [DStr "t"; DInt 2] [].
Proof.
  apply (surplus_positional_ignored BagScene.Card [DStr "t"; DInt 2] [DInt 9] []).
  - reflexivity.
  - simpl. lia.
Defined.

(** ** Copies *)

Section copies.
Context `{!Prims}.

Lemma insert_same_key_inj (h : gmap loc obj) (l : loc) (o1 o2 : obj) :
  <[l := o1]> h = <[l := o2]> h → o1 = o2.
Proof.
  intros Heq.
  assert (<[l := o1]> h !! l = <[l := o2]> h !! l) as Hlk by by rewrite Heq.
  rewrite !lookup_insert_eq in Hlk. by injection Hlk.
Qed.

Lemma merge_fields (s s2 : store) (self new : loc) (o : obj) (extra : dict data) :
  heap s !! self = Some o →
  _merge s self extra = Ok (s2, new) →
  ∃ o', init_instance (cls o) [] (Dict.update (props o) extra) = Ok o' ∧
        rebuilt_next_to s s2 self new o o' ∧
        cls o' = cls o ∧ _children o' = VSeq [] ∧ _lazy o' = false ∧
        saved o' = None.
Proof.
  intros Hl Hm.
  destruct (merge_inv s s2 self new o extra Hl Hm) as (o' & Hinit & Hnew & Hheap & Hlp).
  exists o'. split; [done|]. split; [by apply rebuilt_next_to_intro|].
  by apply init_instance_fields in Hinit.
Qed.
End copies.

(** X3.  A copy starts afresh: whatever the receiver holds, the new
instance, of the same type, has no children, is not lazy and has never been
entered, and the receiver is left as it was.  On a function- or class-backed
component whose props cover the defaults of its type, [copy] succeeds and
the props of the copy equal the props of the receiver. *)
Theorem copy_starts_afresh `{!Prims} (s : store) (self : loc) (o : obj) :
  heap s !! self = Some o →
  (∀ s2 new,
     copy s self = Ok (s2, new) →
     ∃ o', rebuilt_next_to s s2 self new o o' ∧
           cls o' = cls o ∧ _children o' = VSeq [] ∧ _lazy o' = false ∧
           saved o' = None) ∧
  (is_html (cls_kind (cls o)) = false → props_cover_defaults o →
   ∃ s2 new o',
     copy s self = Ok (s2, new) ∧ heap s2 !! new = Some o' ∧
     Dict.equiv (props o') (props o)).
Proof.
  intros Hl. split.
  - intros s2 new Hc.
    destruct (merge_fields s s2 self new o [] Hl Hc) as (o' & _ & ? & ? & ? & ? & ?).
    by exists o'.
  - intros Hk Hcover.
    destruct (merge_plain_component s self o [] Hl Hk Hcover)
      as (s2 & new & o' & Hm & _ & Hheap & _ & _ & Heq); [apply NoDup_nil_2|].
    exists s2, new, o'. split; [done|]. split; [|done].
    rewrite Hheap. apply lookup_insert_eq.
Qed.

Lemma copy_starts_afresh_witness :
  (∀ s2 new,
     copy BagScene.card_store 0%nat = Ok (s2, new) →
     ∃ o', rebuilt_next_to BagScene.card_store s2 0%nat new BagScene.card o' ∧
           cls o' = cls BagScene.card ∧ _children o' = VSeq [] ∧
           _lazy o' = false ∧ saved o' = None) ∧
  (is_html (cls_kind (cls BagScene.card)) = false →
   props_cover_defaults BagScene.card →
   ∃ s2 new o',
     copy BagScene.card_store 0%nat = Ok (s2, new) ∧
     heap s2 !! new = Some o' ∧
     Dict.equiv (props o') (props BagScene.card)).
Proof.
  apply (copy_starts_afresh BagScene.card_store 0%nat BagScene.card).
  reflexivity.
Defined.

(** ** [append] *)

Section append_laws.
Context `{!Prims}.

Lemma append_loop_fresh (pr acc K : dict data) :
  (∀ k, k ∈ Dict.keys K → k ∉ Dict.keys pr) →
  NoDup (Dict.keys acc ++ Dict.keys K) →
  Base.append_loop pr acc K = Ok (acc ++ K).
Proof.
  revert acc. induction K as [|[key val] rest IH]; intros acc Hfresh Hnd; simpl.
  - by rewrite app_nil_r.
  - assert (Dict.get key pr = None) as ->.
    { apply dict_get_None, Hfresh. by left. }
    simpl. destruct (convert_step_keyval acc key val rest Hnd) as [-> Hnd'].
    rewrite IH; [by rewrite <- app_assoc| |done].
    intros k Hk. apply Hfresh. by right.
Qed.

Lemma append_loop_get (pr acc K A : dict data) :
  dict_wf K →
  Base.append_loop pr acc K = Ok A →
  ∀ k, match Dict.get k K with
       | Some v => ∃ r, appended_value pr k v = Ok r ∧ Dict.get k A = Some r
       | None => Dict.get k A = Dict.get k acc
       end.
Proof.
  unfold dict_wf. revert acc.
  induction K as [|[key val] rest IH]; intros acc Hwf; simpl.
  - by intros [= <-] k.
  - apply NoDup_cons in Hwf as [Hkey Hwf].
    fold (appended_value pr key val).
    destruct (appended_value pr key val) as [val'|] eqn:Hval; simpl; [|done].
    intros Hloop k. specialize (IH _ Hwf Hloop k).
    destruct (String.eqb key k) eqn:E.
    + apply String.eqb_eq in E as <-.
      assert (Dict.get key rest = None) as Hnone by by apply dict_get_None.
      rewrite Hnone in IH. exists val'. split; [done|].
      by rewrite IH, dict_get_set_eq.
    + apply String.eqb_neq in E.
      destruct (Dict.get k rest); [done|]. by rewrite IH, dict_get_set_ne.
Qed.

Lemma append_loop_wf (pr acc K A : dict data) :
  dict_wf acc → Base.append_loop pr acc K = Ok A → dict_wf A.
Proof.
  revert acc. induction K as [|[key val] rest IH]; intros acc Hacc; simpl.
  - by intros [= <-].
  - destruct (match Dict.get key pr with
              | Some old => py_add old val
              | None => Ok val
              end) as [val'|]; simpl; [|done].
    apply IH. by apply dict_wf_set.
Qed.

Lemma append_loop_ok_iff (pr acc K : dict data) :
  (∃ A, Base.append_loop pr acc K = Ok A) ↔
  (∀ k v, (k, v) ∈ K → ∃ r, appended_value pr k v = Ok r).
Proof.
  revert acc. induction K as [|[key val] rest IH]; intros acc; simpl.
  - split; [by intros _ k v ?%elem_of_nil|by eexists].
  - fold (appended_value pr key val).
    destruct (appended_value pr key val) as [val'|e] eqn:Hval; simpl.
    + rewrite IH. split.
      * intros Hrest k v [[= -> ->]|Hin]%elem_of_cons; [by eexists|by apply Hrest].
      * intros Hall k v Hin. apply Hall. by right.
    + split; [by intros [A ?]|]. intros Hall.
      destruct (Hall key val) as [r Hr]; [by left|]. congruence.
Qed.
End append_laws.

(** X4.  On a function- or class-backed component, [append] with keywords
none of which is a prop yet is [replace] with the same keywords. *)
Theorem append_fresh_keys_is_replace `{!Prims}
    (s : store) (self : loc) (o : obj) (K : dict data) :
  heap s !! self = Some o →
  is_html (cls_kind (cls o)) = false →
  dict_wf K →
  (∀ k, k ∈ Dict.keys K → k ∉ Dict.keys (props o)) →
  append s self K = replace s self K.
Proof.
  intros Hl Hk Hwf Hfresh. unfold append, replace.
  rewrite (get_obj_Some _ _ _ Hl). simpl. unfold html_converted. rewrite Hk.
  simpl. unfold Base.append, Base.replace. rewrite (get_obj_Some _ _ _ Hl).
  simpl. by rewrite (append_loop_fresh (props o) [] K Hfresh).
Qed.

(** X5.  On a function- or class-backed component whose props cover the
defaults of its type, [append] succeeds exactly when every sum of a present
prop with its keyword is defined; the new instance then holds, under each
keyword, that sum (or the keyword's value when the prop was absent), every
other prop is as in the receiver, and the receiver is left as it was. *)
Theorem append_sums_present_props `{!Prims}
    (s : store) (self : loc) (o : obj) (K : dict data) :
  heap s !! self = Some o →
  is_html (cls_kind (cls o)) = false →
  props_cover_defaults o →
  dict_wf K →
  ((∃ r, append s self K = Ok r) ↔
   (∀ k v, (k, v) ∈ K → ∃ r, appended_value (props o) k v = Ok r)) ∧
  (∀ s2 new,
     append s self K = Ok (s2, new) →
     ∃ o', rebuilt_next_to s s2 self new o o' ∧
           ∀ k, match Dict.get k K with
                | Some v => ∃ r, appended_value (props o) k v = Ok r ∧
                                 Dict.get k (props o') = Some r
                | None => Dict.get k (props o') = Dict.get k (props o)
                end).
Proof.
  intros Hl Hk Hcover Hwf.
  assert (append s self K =
          (appended ← Base.append_loop (props o) [] K; _merge s self appended))
    as Happ.
  { unfold append. rewrite (get_obj_Some _ _ _ Hl). simpl.
    unfold html_converted. rewrite Hk. simpl. unfold Base.append.
    by rewrite (get_obj_Some _ _ _ Hl). }
  assert (∀ A, Base.append_loop (props o) [] K = Ok A →
            ∃ s2 new o', _merge s self A = Ok (s2, new) ∧
                         rebuilt_next_to s s2 self new o o' ∧
                         Dict.equiv (props o') (Dict.update (props o) A) ∧
                         dict_wf A) as Hmerge.
  { intros A HA.
    assert (dict_wf A) as HwfA
      by (apply (append_loop_wf (props o) [] K A); [apply NoDup_nil_2|done]).
    destruct (merge_plain_component s self o A Hl Hk Hcover HwfA)
      as (s2 & new & o' & Hm & Hnew & Hheap & Hlp & _ & Heq).
    exists s2, new, o'. split; [done|]. split; [by apply rebuilt_next_to_intro|done]. }
  split.
  - rewrite <- (append_loop_ok_iff (props o) [] K). rewrite Happ. split.
    + intros [r Hr]. destruct (Base.append_loop (props o) [] K); [by eexists|done].
    + intros [A HA]. rewrite HA. simpl.
      destruct (Hmerge A HA) as (s2 & new & o' & -> & _). by eexists.
  - intros s2 new. rewrite Happ.
    destruct (Base.append_loop (props o) [] K) as [A|] eqn:HA; simpl; [|done].
    intros Hm. destruct (Hmerge A eq_refl) as (s2' & new' & o' & Hm' & Hre & Heq & HwfA).
    rewrite Hm in Hm'. injection Hm' as <- <-.
    exists o'. split; [done|]. intros k.
    pose proof (append_loop_get (props o) [] K A Hwf HA k) as Hget.
    rewrite (Heq k), dict_get_update by done.
    destruct (Dict.get k K) as [v|].
    + destruct Hget as (r & Hr & ->). by exists r.
    + by rewrite Hget.
Qed.

(** X6.  [merge] differs from [replace] only by its conflict error: when it
succeeds it returns what [replace] returns, and when it fails it fails with
the [KeyError] of the conflict or with the error of [replace]. *)
Theorem merge_is_guarded_replace `{!Prims}
    (s : store) (self : loc) (K : dict data) :
  (∀ r, merge s self K = Ok r → replace s self K = Ok r) ∧
  (∀ e, merge s self K = Raise e →
        (∃ msg, e = KeyError msg) ∨ replace s self K = Raise e).
Proof.
  unfold merge, replace.
  destruct (get_obj s self) as [o|e0] eqn:Hget; simpl; [|split; [done|by right]].
  destruct (html_converted o K) as [cK|e1]; simpl; [|split; [done|by right]].
  unfold Base.merge, Base.replace. rewrite Hget. simpl.
  destruct (Base.overlapping (props o) cK) as [|k ov].
  - split; [done|]. intros e He. by right.
  - split; [done|]. intros e [= <-]. left. by eexists.
Qed.

Lemma append_fresh_keys_is_replace_witness :
  append BagScene.card_store 0%nat [("kind", DStr "k")]
    = replace BagScene.card_store 0%nat [("kind", DStr "k")].
Proof.
  apply (append_fresh_keys_is_replace BagScene.card_store 0%nat BagScene.card
           [("kind", DStr "k")]).
  - reflexivity.
  - reflexivity.
  - unfold dict_wf. simpl. apply NoDup_singleton.
  - intros k Hk. simpl in Hk. apply list_elem_of_singleton in Hk as ->.
    apply (bool_decide_unpack _). vm_compute. exact I.
Defined.

Lemma append_sums_present_props_witness :
  ((∃ r, append BagScene.card_store 0%nat [("title", DStr "!")] = Ok r) ↔
   (∀ k v, (k, v) ∈ [("title", DStr "!")] →
           ∃ r, appended_value (props BagScene.card) k v = Ok r)) ∧
  (∀ s2 new,
     append BagScene.card_store 0%nat [("title", DStr "!")] = Ok (s2, new) →
     ∃ o', rebuilt_next_to BagScene.card_store s2 0%nat new BagScene.card o' ∧
           ∀ k, match Dict.get k [("title", DStr "!")] with
                | Some v => ∃ r, appended_value (props BagScene.card) k v = Ok r ∧
                                 Dict.get k (props o') = Some r
                | None => Dict.get k (props o') = Dict.get k (props BagScene.card)
                end).
Proof.
  apply (append_sums_present_props BagScene.card_store 0%nat BagScene.card
           [("title", DStr "!")]).
  - reflexivity.
  - reflexivity.
  - split.
    + unfold dict_wf. simpl. apply (bool_decide_unpack _). vm_compute. exact I.
    + intros d k Hd Hk. vm_compute in Hd. injection Hd as <-. simpl in Hk.
      apply list_elem_of_singleton in Hk as ->. simpl. by left.
  - unfold dict_wf. simpl. apply NoDup_singleton.
Defined.

(** ** An invariant of the store *)

Section store_invariant.
Context `{!Prims}.

Lemma instance_in_order_fields (o o' : obj) :
  cls o' = cls o → props o' = props o →
  instance_in_order o → instance_in_order o'.
Proof.
  unfold instance_in_order, props_cover_defaults.
  intros -> ->. done.
Qed.

Lemma set_obj_in_order (s : store) (l : loc) (o o' : obj) :
  store_in_order s → heap s !! l = Some o →
  cls o' = cls o → props o' = props o →
  store_in_order (set_obj s l o').
Proof.
  intros Hs Hl Hc Hp l' o''. unfold set_obj; simpl.
  destruct (decide (l = l')) as [<-|Hne].
  - rewrite lookup_insert_eq. intros [= <-].
    apply (instance_in_order_fields o); [done|done|by apply (Hs l)].
  - rewrite lookup_insert_ne by done. apply Hs.
Qed.

Lemma with_last_parent_in_order (s : store) (p : option Z * option loc) :
  store_in_order s → store_in_order (with_last_parent s p).
Proof. done. Qed.

Lemma construct_in_order (s s2 : store) (c : comp_class) (pos : list data)
    (kwargs : dict data) (new : loc) :
  store_in_order s →
  (is_html (cls_kind c) = false → ∀ d, _defaults c = Some d → dict_wf d) →
  construct s c pos kwargs = Ok (s2, new) →
  store_in_order s2.
Proof.
  intros Hs Hc Hcons.
  destruct (construct_inv _ _ _ _ _ _ Hcons) as (o' & Hinit & _ & Hheap & _).
  pose proof (init_instance_fields _ _ _ _ Hinit) as (Hcls & _).
  intros l o. rewrite Hheap. destruct (decide (new = l)) as [<-|Hne].
  - rewrite lookup_insert_eq. intros [= <-] Hk. rewrite Hcls in Hk |- *.
    split; [|by apply Hc].
    apply (constructed_covers_defaults c pos kwargs); [done|by apply Hc|done].
  - rewrite lookup_insert_ne by done. apply Hs.
Qed.

Lemma merge_in_order (s s2 : store) (self new : loc) (extra : dict data) :
  store_in_order s → _merge s self extra = Ok (s2, new) → store_in_order s2.
Proof.
  intros Hs. unfold _merge.
  destruct (get_obj s self) as [o|] eqn:Hget; simpl; [|done].
  apply get_obj_Ok in Hget. apply construct_in_order; [done|].
  intros Hk. by apply (Hs self o Hget).
Qed.

Lemma component_class_in_order (x : Factory.pyobj) (c : comp_class) :
  Factory.Component x = Ok c →
  is_html (cls_kind c) = false ∧ ∀ d, _defaults c = Some d → dict_wf d.
Proof.
  destruct x as [f|u|]; simpl; [| |done].
  - unfold Factory._make_func_component.
    destruct (Factory._make_defaults (fn_spec f)) as [dflt|] eqn:Hd; simpl; [|done].
    intros [= <-]. split; [done|]. simpl. intros d ->.
    by apply (make_defaults_wf (fn_spec f)).
  - unfold Factory._make_class_component.
    destruct (uc_render u) as [[rs body]|]; [|done].
    destruct (Factory.list_remove "self" (args (uc_init u))) as [init_args|];
      simpl; [|done].
    destruct (Factory._make_defaults _) as [dflt|] eqn:Hd; simpl; [|done].
    intros [= <-]. split; [done|]. simpl. intros d ->.
    by apply (make_defaults_wf _ _ Hd).
Qed.

Lemma module_step_in_order (s s2 : store) :
  module_step s s2 → store_in_order s → store_in_order s2.
Proof.
  intros Hstep Hs. destruct Hstep as
    [x c pos kwargs s s2 new Hx Hc
    |c kwargs s s2 new Hel Hc
    |self K s s2 new Hop|self K s s2 new Hop|self K s s2 new Hop
    |self s s2 new Hop|self s s2 new Hop
    |self other s s2 r Hop|self other s s2 r Hop
    |self caller s s2 r Hop|self caller exc s s2 Hop
    |limit self content s s2 r Hop].
  - destruct (component_class_in_order x c Hx) as [_ Hd].
    by apply (construct_in_order s s2 c pos kwargs new).
  - apply (construct_in_order s s2 c [] kwargs new); [done| |done].
    destruct (element_class_inv c Hel) as (-> & _). done.
  - unfold replace in Hop. destruct (get_obj s self) as [o|]; simpl in Hop; [|done].
    destruct (html_converted o K) as [cK|]; simpl in Hop; [|done].
    by apply (merge_in_order s s2 self new cK).
  - unfold append in Hop. destruct (get_obj s self) as [o|] eqn:Hg; simpl in Hop; [|done].
    destruct (html_converted o K) as [cK|]; simpl in Hop; [|done].
    unfold Base.append in Hop. rewrite Hg in Hop. simpl in Hop.
    destruct (Base.append_loop (props o) [] cK) as [A|]; simpl in Hop; [|done].
    by apply (merge_in_order s s2 self new A).
  - unfold merge in Hop. destruct (get_obj s self) as [o|] eqn:Hg; simpl in Hop; [|done].
    destruct (html_converted o K) as [cK|]; simpl in Hop; [|done].
    unfold Base.merge in Hop. rewrite Hg in Hop. simpl in Hop.
    destruct (Base.overlapping (props o) cK); [|done].
    by apply (merge_in_order s s2 self new cK).
  - by apply (merge_in_order s s2 self new []).
  - unfold lazy in Hop.
    destruct (children_capable s self) as [o|]; simpl in Hop; [|done].
    destruct (copy s self) as [[s' new']|] eqn:Hc; simpl in Hop; [|done].
    destruct (get_obj s' new') as [o'|] eqn:Hg; simpl in Hop; [|done].
    injection Hop as <- <-. apply get_obj_Ok in Hg.
    apply (set_obj_in_order s' new' o'); [|done|done|done].
    by apply (merge_in_order s s' self new' []).
  - unfold __mul__ in Hop.
    destruct (get_obj s self) as [o|]; simpl in Hop; [|done].
    destruct other as [d| |]; try (by injection Hop as <- <-).
    destruct (int_of d) as [n|]; [|by injection Hop as <- <-].
    simpl in Hop.
    injection Hop as <- <-.
    intros l o'. simpl. destruct (decide (fresh (dom (heap s)) = l)) as [<-|Hne].
    + rewrite lookup_insert_eq. intros [= <-] _.
      split; [split|]; simpl; [apply NoDup_nil_2|done|done].
    + rewrite lookup_insert_ne by done. apply Hs.
  - unfold __iadd__ in Hop.
    destruct (children_capable s self) as [o|] eqn:Hcap; simpl in Hop; [|done].
    destruct (py_append (_children o) other) as [ch|]; simpl in Hop; [|done].
    injection Hop as <- <-.
    apply (set_obj_in_order s self o); try done.
    unfold children_capable in Hcap.
    destruct (get_obj s self) as [o0|] eqn:Hg; simpl in Hcap; [|done].
    destruct (has_children_mixin _); [|done]. injection Hcap as ->.
    by apply get_obj_Ok.
  - unfold __enter__ in Hop.
    destruct (children_capable s self) as [o|] eqn:Hcap; simpl in Hop; [|done].
    destruct (last_parent s) as [fid parent]. injection Hop as <- <-.
    apply with_last_parent_in_order.
    apply (set_obj_in_order s self o); try done.
    unfold children_capable in Hcap.
    destruct (get_obj s self) as [o0|] eqn:Hg; simpl in Hcap; [|done].
    destruct (has_children_mixin _); [|done]. injection Hcap as ->.
    by apply get_obj_Ok.
  - unfold __exit__ in Hop.
    destruct (children_capable s self) as [o|]; simpl in Hop; [|done].
    destruct (saved o) as [[fid parent]|]; [|done].
    destruct parent as [p|]; simpl in Hop.
    + destruct (bool_decide _); simpl in Hop.
      * destruct (get_obj s p) as [po|] eqn:Hg; simpl in Hop; [|done].
        destruct (py_append (_children po) (VRef self)) as [ch|]; simpl in Hop; [|done].
        injection Hop as <-. apply with_last_parent_in_order.
        apply (set_obj_in_order s p po); try done. by apply get_obj_Ok.
      * by injection Hop as <-.
    + by injection Hop as <-.
  - unfold __getitem__ in Hop.
    destruct (children_capable s self) as [o|] eqn:Hcap; simpl in Hop; [|done].
    destruct (_lazy o); simpl in Hop.
    + destruct (value_truthy (_children o)); [done|]. injection Hop as <- <-.
      apply (set_obj_in_order s self o); try done.
      unfold children_capable in Hcap.
      destruct (get_obj s self) as [o0|] eqn:Hg; simpl in Hcap; [|done].
      destruct (has_children_mixin _); [|done]. injection Hcap as ->.
      by apply get_obj_Ok.
    + destruct (base_getitem limit s self content); simpl in Hop; [|done].
      by injection Hop as <- <-.
Qed.
End store_invariant.

(** X7.  In every store a program reaches from the empty one through the
operations of the module (construction of factory-made and element
components, replace, append, merge, copy, lazy, multiplication, explicit
attachment, scoped blocks and item access), each instance of a function- or
class-backed type holds, among its props, every key of the defaults of its
type: no operation loses a default. *)
Theorem reachable_store_in_order `{!Prims} (s : store) :
  reachable s → store_in_order s.
Proof.
  unfold reachable. revert s.
  apply (rtc_ind_r (R := module_step) store_in_order empty_store).
  - intros l o Hl. simpl in Hl. by rewrite lookup_empty in Hl.
  - intros s1 s2 _ Hstep IH. by apply (module_step_in_order s1 s2).
Qed.

Lemma reachable_store_in_order_witness : store_in_order CardBuilt.built.1.
Proof.
  apply (reachable_store_in_order CardBuilt.built.1).
  apply rtc_once.
  apply (step_component (Factory.PyFunction BagScene.card_fn) BagScene.Card
           [DStr "t"] [] empty_store CardBuilt.built.1 CardBuilt.built.2).
  - reflexivity.
  - reflexivity.
Defined.

(** ** Element construction *)

Section element_construction.
Context `{!Prims}.

Lemma dict_update_app {V} (acc d : dict V) :
  NoDup (Dict.keys acc ++ Dict.keys d) → Dict.update acc d = acc ++ d.
Proof.
  unfold Dict.update. revert acc.
  induction d as [|[k v] d IH]; intros acc Hnd; simpl; [by rewrite app_nil_r|].
  assert (Dict.set k v acc = acc ++ [(k, v)] ∧
          NoDup (Dict.keys (acc ++ [(k, v)]) ++ Dict.keys d)) as [-> Hnd'].
  { apply NoDup_app in Hnd as (Ha & Hdisj & Hrest).
    apply NoDup_cons in Hrest as [Hk Hrest]. split.
    - apply dict_set_fresh. intros Hin. apply (Hdisj k Hin). by left.
    - unfold Dict.keys in *. rewrite fmap_app. simpl. rewrite <- app_assoc.
      apply NoDup_app. split; [done|]. split; [|by apply NoDup_cons].
      intros x Hx. apply (Hdisj x Hx). }
  rewrite IH by done. by rewrite <- app_assoc.
Qed.

Lemma dict_update_nil_eq {V} (d : dict V) : dict_wf d → Dict.update [] d = d.
Proof. intros Hwf. by rewrite dict_update_app. Qed.

(** The loop keeps [new_kwargs] and [keyval_args] equal, and a dictionary. *)
Lemma convert_loop_same (a : dict data) (b : list string) (kwargs : dict data)
    (r : Html.converted) :
  dict_wf a →
  Html.convert_loop (a, a, b) kwargs = Ok r →
  r.1.1 = r.1.2 ∧ dict_wf r.1.1.
Proof.
  revert a b. induction kwargs as [|[k v] rest IH]; intros a b Hwf; simpl.
  - by intros [= <-].
  - destruct (Html.both_quotes v); [done|].
    destruct (iskeyword (Str.drop_last k)); simpl.
    + apply IH. by apply dict_wf_set.
    + destruct v as [|[]| | | |]; simpl; apply IH; try done; by apply dict_wf_set.
Qed.

Lemma construct_ok_iff (s : store) (c : comp_class) (pos : list data)
    (kwargs : dict data) :
  (∃ r, construct s c pos kwargs = Ok r) ↔ ∃ o, init_instance c pos kwargs = Ok o.
Proof.
  unfold construct. destruct (init_instance c pos kwargs); simpl.
  - split; intros _; by eexists.
  - split; intros [? ?]; done.
Qed.
End element_construction.

(** X8.  The construction of a markup element fails in one way only: it
succeeds exactly when no keyword, among those given overlaid with the
attributes the class fixes, has a text value with both quote characters,
and when it fails the error is the quoting error. *)
Theorem element_construction_fails_only_on_quotes `{!Prims}
    (s : store) (c : comp_class) (kwargs : dict data) :
  element_class c →
  ((∃ r, construct s c [] kwargs = Ok r) ↔
   (∀ kv, kv ∈ effective_kwargs c kwargs → Html.both_quotes kv.2 = false)) ∧
  (∀ e, construct s c [] kwargs = Raise e → e = quoting_error).
Proof.
  intros Hc. pose proof (element_class_inv c Hc) as (Hhtml & _ & _). split.
  - rewrite construct_ok_iff. split.
    + intros [o Ho].
      destruct (init_instance_element c kwargs o Hc Ho) as (new & kvs & Hconv & _).
      by apply (convert_loop_values _ _ _ Hconv).
    + by apply init_instance_element_ok.
  - unfold construct, init_instance. rewrite Hhtml.
    fold (effective_kwargs c kwargs). unfold Html._convert_kwargs.
    destruct (Html.convert_loop _ (effective_kwargs c kwargs))
      as [[[new kvs] bools]|e0] eqn:E; simpl; [done|].
    intros e [= <-]. clear -E.
    revert E. generalize (@nil (string * data), @nil (string * data), @nil string).
    induction (effective_kwargs c kwargs) as [|kv rest IH]; intros acc; simpl; [done|].
    destruct (Html.convert_item acc kv) as [acc'|e1] eqn:Hitem; simpl.
    + apply IH.
    + intros [= <-]. by apply (convert_item_Raise acc kv).
Qed.

Lemma init_instance_element_keyval `{!Prims}
    (c : comp_class) (kwargs : dict data) (o : obj) :
  element_class c →
  init_instance c [] kwargs = Ok o →
  props o = _keyval_args o ∧ dict_wf (props o) ∧
  _original_kwargs o = effective_kwargs c kwargs.
Proof.
  intros Hc. pose proof (element_class_inv c Hc) as (Hhtml & Hd & _).
  unfold init_instance. rewrite Hhtml. fold (effective_kwargs c kwargs).
  unfold Html._convert_kwargs.
  destruct (Html.convert_loop _ (effective_kwargs c kwargs))
    as [[[new kvs] bools]|] eqn:E; simpl; [|done].
  intros [= <-]. simpl.
  destruct (convert_loop_same [] [] _ _ (NoDup_nil_2 : dict_wf []) E) as [Heq Hwf].
  simpl in Heq, Hwf. subst kvs.
  unfold base_init. rewrite Hd. by rewrite dict_update_nil_eq.
Qed.

(** X9.  The props of a markup-element instance are exactly its key/value
attributes, in the same order, each name once; the presence-only flags are
kept beside them and are not props. *)
Theorem element_props_are_keyval_args `{!Prims}
    (c : comp_class) (kwargs : dict data) (o : obj) :
  element_class c →
  init_instance c [] kwargs = Ok o →
  props o = _keyval_args o ∧ dict_wf (props o) ∧
  _original_kwargs o = effective_kwargs c kwargs.
Proof. apply init_instance_element_keyval. Qed.

Lemma element_construction_fails_only_on_quotes_witness :
  ((∃ r, construct empty_store Scene.Div [] ElementWitness.kwargs = Ok r) ↔
   (∀ kv, kv ∈ effective_kwargs Scene.Div ElementWitness.kwargs →
          Html.both_quotes kv.2 = false)) ∧
  (∀ e, construct empty_store Scene.Div [] ElementWitness.kwargs = Raise e →
        e = quoting_error).
Proof.
  apply (element_construction_fails_only_on_quotes empty_store Scene.Div
           ElementWitness.kwargs).
  apply element_made. reflexivity.
Defined.

Lemma element_props_are_keyval_args_witness :
  props ElementWitness.built_obj = _keyval_args ElementWitness.built_obj ∧
  dict_wf (props ElementWitness.built_obj) ∧
  _original_kwargs ElementWitness.built_obj
    = effective_kwargs Scene.Div ElementWitness.kwargs.
Proof.
  apply (element_props_are_keyval_args Scene.Div ElementWitness.kwargs
           ElementWitness.built_obj).
  - apply element_made. reflexivity.
  - reflexivity.
Defined.

Lemma serialization_by_classification_witness :
  ∃ o, init_instance Scene.Div [] ElementWitness.kwargs = Ok o ∧
       _bool_args o = classified_flags ElementWitness.kwargs ∧
       _keyval_args o = classified_keyvals ElementWitness.kwargs ∧
       Html._get_attributes o =
         Html.lead_space
           (Str.join " " (map Html.conv (classified_flags ElementWitness.kwargs))) +:+
         Html.lead_space
           (Str.join " "
              (map (fun kv => Html.html_attr kv.1 kv.2)
                   (filter (fun kv => is_none kv.2 = false)
                           (classified_keyvals ElementWitness.kwargs)))).
Proof.
  apply (serialization_by_classification Scene.Div ElementWitness.kwargs).
  - reflexivity.
  - reflexivity.
  - intros kv Hkv. unfold ElementWitness.kwargs in Hkv.
    repeat (apply elem_of_cons in Hkv as [->|Hkv]; [reflexivity|]).
    by apply elem_of_nil in Hkv.
  - apply (bool_decide_unpack _). vm_compute. exact I.
Defined.

(** ** Quoting of attribute values *)

Section quoting.
Context `{!Prims}.

Lemma keyval_args_pass_quote_check (c : comp_class) (kwargs : dict data)
    (o : obj) (k : string) (v : data) :
  element_class c → init_instance c [] kwargs = Ok o →
  (k, v) ∈ _keyval_args o → Html.both_quotes v = false.
Proof.
  intros Hc Hinit Hin.
  destruct (init_instance_element_keyval c kwargs o Hc Hinit) as (Hp & _).
  rewrite <- Hp in Hin.
  destruct (element_props_entries c kwargs o Hc Hinit k v Hin) as (k0 & Hk0 & _).
  destruct (init_instance_element c kwargs o Hc Hinit) as (new & kvs & Hconv & _).
  apply (convert_loop_values _ _ _ Hconv (k0, v) Hk0).
Qed.

Lemma html_attr_delimited (k : string) (v : data) :
  (∀ t, Str.contains Html.dquote (escape_text t) = false) →
  Html.both_quotes v = false →
  ∃ q body,
    (q = Html.dquote ∨ q = Html.squote) ∧
    Html.html_attr k v =
      Html.conv k +:+ "=" +:+ String q "" +:+ body +:+ String q "" ∧
    Str.contains q body = false.
Proof.
  intros Hesc Hq. unfold Html.html_attr.
  destruct (Str.contains Html.dquote (escape_data v)) eqn:Hd.
  - exists Html.squote, (escape_data v). split; [by right|]. split; [reflexivity|].
    destruct v as [| | |t|t|]; simpl in *; try (by rewrite Hesc in Hd).
    rewrite Hd in Hq. simpl in Hq. done.
  - exists Html.dquote, (escape_data v). split; [by left|]. by split.
Qed.
End quoting.

(** X10.  Whenever the escaping of raw text leaves no double quote, every
key/value attribute of a constructed markup element is written between two
equal quote characters that do not occur in the value written: between
double quotes, or between single quotes when the value (then a safe text)
holds a double quote. *)
Theorem attribute_value_never_holds_its_delimiter `{!Prims}
    (c : comp_class) (kwargs : dict data) (o : obj) (k : string) (v : data) :
  (∀ t, Str.contains Html.dquote (escape_text t) = false) →
  element_class c →
  init_instance c [] kwargs = Ok o →
  (k, v) ∈ _keyval_args o →
  ∃ q body,
    (q = Html.dquote ∨ q = Html.squote) ∧
    Html.html_attr k v =
      Html.conv k +:+ "=" +:+ String q "" +:+ body +:+ String q "" ∧
    Str.contains q body = false.
Proof.
  intros Hesc Hc Hinit Hin. apply html_attr_delimited; [done|].
  by apply (keyval_args_pass_quote_check c kwargs o k v).
Qed.

Section markup_facts.

Lemma contains_app (c : ascii) (a b : string) :
  Str.contains c (a +:+ b) = Str.contains c a || Str.contains c b.
Proof.
  induction a as [|x a IH]; simpl; [done|]. by destruct (Ascii.eqb x c).
Qed.

Lemma markup_escape_char_no_dquote (a : ascii) :
  Str.contains Html.dquote (Markup.escape_char a) = false.
Proof.
  unfold Markup.escape_char.
  destruct (nat_of_ascii a =? 38)%nat; [reflexivity|].
  destruct (nat_of_ascii a =? 60)%nat; [reflexivity|].
  destruct (nat_of_ascii a =? 62)%nat; [reflexivity|].
  destruct (nat_of_ascii a =? 34)%nat eqn:E; [reflexivity|].
  destruct (nat_of_ascii a =? 39)%nat; [reflexivity|].
  simpl. destruct (Ascii.eqb a Html.dquote) eqn:Ea; [|done].
  apply Ascii.eqb_eq in Ea. subst a. vm_compute in E. discriminate E.
Qed.

Lemma markup_escape_no_dquote (t : string) :
  Str.contains Html.dquote (Markup.escape_text t) = false.
Proof.
  induction t as [|a t IH]; simpl; [done|].
  by rewrite contains_app, markup_escape_char_no_dquote, IH.
Qed.
End markup_facts.

Lemma attribute_value_never_holds_its_delimiter_witness :
  ∃ q body,
    (q = Html.dquote ∨ q = Html.squote) ∧
    Html.html_attr "class" (DStr "a") =
      Html.conv "class" +:+ "=" +:+ String q "" +:+ body +:+ String q "" ∧
    Str.contains q body = false.
Proof.
  apply (attribute_value_never_holds_its_delimiter Scene.Div
           ElementWitness.kwargs ElementWitness.built_obj "class" (DStr "a")).
  - apply markup_escape_no_dquote.
  - apply element_made. reflexivity.
  - reflexivity.
  - apply list_elem_of_here.
Defined.

Lemma siblings_in_document_order_witness :
  ∃ s', run_leaf_blocks 7 SiblingScene.st [1%nat; 2%nat; 3%nat] = Ok s' ∧
        last_parent s' = (Some 7, Some 0%nat) ∧
        heap s' !! 0%nat =
          Some (with_children (with_saved Scene.fresh_div (None, None))
                  (VSeq ([] ++ map VRef [1%nat; 2%nat; 3%nat]))).
Proof.
  apply (siblings_in_document_order 7 [1%nat; 2%nat; 3%nat] SiblingScene.st
           0%nat (with_saved Scene.fresh_div (None, None)) []).
  - reflexivity.
  - reflexivity.
  - reflexivity.
  - apply (bool_decide_unpack _). vm_compute. exact I.
  - apply (bool_decide_unpack _). vm_compute. exact I.
  - intros c Hc. exists Scene.fresh_div.
    repeat (apply elem_of_cons in Hc as [->|Hc]; [split; reflexivity|]).
    by apply elem_of_nil in Hc.
Defined.

(** ** Rendering at the edges *)

Section render_edges.
Context `{!Prims}.

Lemma result_mapM_app_raise {A B} (f : A → result B) (pre post : list A)
    (x : A) (e : exn) :
  (∀ v, v ∈ pre → ∃ y, f v = Ok y) → f x = Raise e →
  result_mapM f (pre ++ x :: post) = Raise e.
Proof.
  induction pre as [|v pre IH]; intros Hpre Hx; simpl.
  - by rewrite Hx.
  - destruct (Hpre v) as [y ->]; [by left|]. simpl.
    rewrite IH; [done| |done]. intros ? ?. apply Hpre. by right.
Qed.

Lemma result_mapM_map_ok {A B} (f : A → result B) (g : A → B) (l : list A) :
  (∀ x, x ∈ l → f x = Ok (g x)) → result_mapM f l = Ok (map g l).
Proof.
  induction l as [|x l IH]; intros Hall; simpl; [done|].
  rewrite (Hall x) by by left. simpl.
  rewrite IH; [done|]. intros ? ?. apply Hall. by right.
Qed.
End render_edges.

(** X11.  An element that holds itself among its children, after plain
values only, never renders: at every recursion limit its rendering ends
with [RecursionError]. *)
Theorem self_child_never_renders `{!Prims}
    (s : store) (self : loc) (o : obj) (pre : list data) (post : list value)
    (limit : nat) :
  heap s !! self = Some o →
  cls_kind (cls o) = KHtml →
  _children o = VSeq (map VData pre ++ VRef self :: post) →
  py_str limit s self = Raise RecursionError.
Proof.
  intros Hl Hk Hch. induction limit as [|n IH]; [done|].
  simpl. unfold __str__. rewrite (get_obj_Some _ _ _ Hl). simpl. rewrite Hk.
  unfold __render. rewrite Hch.
  assert (value_truthy (VSeq (map VData pre ++ VRef self :: post)) = true) as ->.
  { simpl. by destruct (map VData pre). }
  simpl. unfold _escape. simpl.
  rewrite (result_mapM_app_raise _ (map VData pre) post (VRef self) RecursionError);
    [done| |done].
  intros v ([] & -> & _)%list_elem_of_fmap; by eexists.
Qed.

Lemma self_child_never_renders_witness :
  py_str 5 LoopScene.st 0%nat = Raise RecursionError.
Proof.
  apply (self_child_never_renders LoopScene.st 0%nat LoopScene.looped
           [DStr "a"] [] 5).
  - reflexivity.
  - reflexivity.
  - reflexivity.
Defined.

(** X12.  Construction does not check that the declared parameters are
given: a function-backed instance exists without a prop for one of its
positional parameters, and it is its rendering that fails, with a
[KeyError] that names the first such parameter. *)
Theorem missing_parameter_fails_at_render `{!Prims}
    (s : store) (self : loc) (o : obj) (func : pyfunc)
    (pre post : list string) (a : string) (limit : nat) :
  heap s !! self = Some o →
  cls_kind (cls o) = KFunc func →
  _argnames (cls o) = pre ++ a :: post →
  (∀ p, p ∈ pre → p ∈ Dict.keys (props o)) →
  a ∉ Dict.keys (props o) →
  _children o = VSeq [] →
  (∀ children, func_arguments o children = Raise (KeyError a)) ∧
  py_str (S limit) s self = Raise (KeyError a).
Proof.
  intros Hl Hk Hargs Hpre Ha Hch.
  assert (∀ children, func_arguments o children = Raise (KeyError a)) as Hfa.
  { intros children. unfold func_arguments. rewrite Hargs.
    rewrite (result_mapM_app_raise _ pre post a (KeyError a)); [done| |].
    - intros p Hp. apply Hpre in Hp. apply dict_mem_keys in Hp.
      unfold Dict.mem in Hp. destruct (Dict.get p (props o)); [by eexists|done].
    - apply dict_get_None in Ha. by rewrite Ha. }
  split; [done|].
  simpl. unfold __str__. rewrite (get_obj_Some _ _ _ Hl). simpl. rewrite Hk.
  unfold __render. rewrite Hch. simpl. unfold _render. rewrite Hk.
  unfold func_get_content. by rewrite Hfa.
Qed.

Lemma missing_parameter_fails_at_render_witness :
  (∀ children, func_arguments LoopScene.untitled children = Raise (KeyError "title")) ∧
  py_str 3 LoopScene.untitled_store 0%nat = Raise (KeyError "title").
Proof.
  apply (missing_parameter_fails_at_render LoopScene.untitled_store 0%nat
           LoopScene.untitled BagScene.card_fn [] ["size"] "title" 2).
  - reflexivity.
  - reflexivity.
  - reflexivity.
  - intros p Hp. by apply elem_of_nil in Hp.
  - apply (bool_decide_unpack _). vm_compute. exact I.
  - reflexivity.
Defined.

(** X13.  Entering an instance again inside its own block, in the same
scope, makes it its own child, twice, and leaves the instance itself in the
slot: the pair that was active before the outer enter is not restored. *)
Theorem reentered_block_attaches_to_itself `{!Prims}
    (f : Z) (s : store) (self : loc) (o : obj) (vs : list value) :
  heap s !! self = Some o →
  has_children_mixin (cls_kind (cls o)) = true →
  _children o = VSeq vs →
  ∃ s4 o4,
    run_reentered_block f s self = Ok s4 ∧
    last_parent s4 = (Some f, Some self) ∧
    heap s4 !! self = Some o4 ∧
    _children o4 = VSeq (vs ++ [VRef self; VRef self]) ∧
    props o4 = props o ∧ cls o4 = cls o.
Proof.
  intros Hl Hk Hch. unfold run_reentered_block.
  assert (__enter__ s self f =
          Ok (with_last_parent (set_obj s self (with_saved o (last_parent s)))
                (Some f, Some self), self)) as ->.
  { unfold __enter__. rewrite (children_capable_Some _ _ _ Hl Hk). simpl.
    by destruct (last_parent s). }
  simpl.
  set (o1 := with_saved o (last_parent s)).
  set (s1 := with_last_parent (set_obj s self o1) (Some f, Some self)).
  assert (__enter__ s1 self f =
          Ok (with_last_parent
                (set_obj s1 self (with_saved o1 (Some f, Some self)))
                (Some f, Some self), self)) as ->.
  { unfold __enter__.
    rewrite (children_capable_Some s1 self o1); [done|apply lookup_insert_eq|done]. }
  simpl.
  set (o2 := with_saved o1 (Some f, Some self)).
  set (s2 := with_last_parent (set_obj s1 self o2) (Some f, Some self)).
  set (o3 := with_children o2 (VSeq (vs ++ [VRef self]))).
  assert (__exit__ s2 self f None =
          Ok (with_last_parent (set_obj s2 self o3) (Some f, Some self))) as ->.
  { unfold __exit__.
    rewrite (children_capable_Some s2 self o2); [|apply lookup_insert_eq|done].
    simpl. rewrite bool_decide_true by done.
    rewrite (get_obj_Some s2 self o2) by apply lookup_insert_eq.
    simpl. by rewrite Hch. }
  simpl.
  set (s3 := with_last_parent (set_obj s2 self o3) (Some f, Some self)).
  set (o4 := with_children o3 (VSeq ((vs ++ [VRef self]) ++ [VRef self]))).
  exists (with_last_parent (set_obj s3 self o4) (Some f, Some self)), o4.
  split.
  { unfold __exit__.
    rewrite (children_capable_Some s3 self o3); [|apply lookup_insert_eq|done].
    simpl. rewrite bool_decide_true by done.
    by rewrite (get_obj_Some s3 self o3) by apply lookup_insert_eq. }
  split; [done|]. split; [apply lookup_insert_eq|].
  simpl. by rewrite <- app_assoc.
Qed.

Lemma reentered_block_attaches_to_itself_witness :
  ∃ s4 o4,
    run_reentered_block 7 AssemblyScene.st 0%nat = Ok s4 ∧
    last_parent s4 = (Some 7, Some 0%nat) ∧
    heap s4 !! 0%nat = Some o4 ∧
    _children o4 = VSeq ([] ++ [VRef 0%nat; VRef 0%nat]) ∧
    props o4 = props Scene.fresh_div ∧ cls o4 = cls Scene.fresh_div.
Proof.
  apply (reentered_block_attaches_to_itself 7 AssemblyScene.st 0%nat
           Scene.fresh_div []).
  - reflexivity.
  - reflexivity.
  - reflexivity.
Defined.

(** ** Item access, content and lazy binding *)

Section item_access.
Context `{!Prims}.

Lemma append_empty_r (x : string) : x +:+ "" = x.
Proof.
  induction x as [|a x IH]; [done|].
  change (String a (x +:+ "") = String a x). by rewrite IH.
Qed.

Lemma append_assoc (x y z : string) : (x +:+ y) +:+ z = x +:+ (y +:+ z).
Proof.
  induction x as [|a x IH]; [done|].
  change (String a ((x +:+ y) +:+ z) = String a (x +:+ (y +:+ z))).
  by rewrite IH.
Qed.

Lemma concat_cons (x : string) (xs : list string) :
  Str.concat (x :: xs) = x +:+ Str.concat xs.
Proof.
  unfold Str.concat. destruct xs as [|y ys]; simpl; [by rewrite append_empty_r|done].
Qed.

Lemma result_mapM_fmap {A B C} (f : B → result C) (h : A → B) (l : list A) :
  result_mapM f (map h l) = result_mapM (fun x => f (h x)) l.
Proof. induction l as [|x l IH]; simpl; [done|]. by rewrite IH. Qed.

(** The children texts of plain values. *)
Lemma assembled_plain_children (s : store) (str_of : loc → result string)
    (ds : list data) :
  result_mapM (assembled_item s str_of) (map VData ds) = Ok (map escape_data ds).
Proof.
  rewrite result_mapM_fmap. apply result_mapM_map_ok.
  intros d _. by destruct d.
Qed.

Lemma concat_escaped_chars (t : string) :
  escape_text "" = "" →
  (∀ a b, escape_text (a +:+ b) = escape_text a +:+ escape_text b) →
  Str.concat (map escape_text (Str.chars t)) = escape_text t.
Proof.
  intros Hnil Hhom. induction t as [|a t IH]; simpl; [done|].
  rewrite concat_cons, IH, <- Hhom. done.
Qed.

Lemma render_text_children (s : store) (str_of : loc → result string)
    (o : obj) (t : string) :
  escape_text "" = "" →
  (∀ a b, escape_text (a +:+ b) = escape_text a +:+ escape_text b) →
  cls_kind (cls o) = KHtml →
  __render s str_of o (VData (DStr t)) = Ok (element_text o (escape_text t)).
Proof.
  intros Hnil Hhom Hk. unfold __render. simpl.
  destruct (String.eqb t "") eqn:Et; simpl.
  - apply String.eqb_eq in Et as ->. unfold _render. rewrite Hk.
    by rewrite Hnil.
  - unfold _escape. simpl. rewrite result_mapM_fmap.
    rewrite (result_mapM_map_ok _ escape_text) by done. simpl.
    rewrite concat_escaped_chars by done. unfold _render. by rewrite Hk.
Qed.
End item_access.

(** X14.  Item access on an element type made by [_Elem], with plain values
as content, allocates one instance and returns the text of the element
around the escaped values in their order; the slot is left alone.  This
holds at every recursion limit and for an empty content as well. *)
Theorem element_type_item_access `{!Prims}
    (limit : nat) (s : store) (tag : string) (ds : list data) :
  ∃ s',
    __class_getitem__ limit s (Factory._Elem tag) (VSeq (map VData ds)) =
      Ok (s', Rendered ("<" +:+ tag +:+ ">" +:+
                        Str.concat (map escape_data ds) +:+
                        "</" +:+ tag +:+ ">")) ∧
    last_parent s' = last_parent s ∧
    ∃ new o, heap s !! new = None ∧ heap s' = <[new := o]> (heap s) ∧
             _children o = VSeq [].
Proof.
  unfold __class_getitem__, construct.
  change (init_instance (Factory._Elem tag) [] []) with
    (Ok {| cls := Factory._Elem tag; props := [];
           _children := VSeq []; _lazy := false; saved := None;
           _original_kwargs := [];
           _keyval_args := []; _bool_args := [] |}).
  set (o := {| cls := Factory._Elem tag |}).
  change ((Ok o ≫= λ o0 : obj, Ok (alloc s o0))
          ≫= (λ '(s'0, new), __getitem__ limit s'0 new (VSeq (map VData ds))))
    with (let '(s', new) := alloc s o in
          __getitem__ limit s' new (VSeq (map VData ds))).
  pose proof (alloc_lookup s o) as Hl. pose proof (alloc_fresh s o) as Hf.
  destruct (alloc s o) as [s' new] eqn:Ha. simpl in Hl, Hf.
  unfold __getitem__. rewrite (children_capable_Some _ _ _ Hl) by done.
  simpl. unfold base_getitem.
  rewrite (children_capable_Some _ _ _ Hl) by done.
  simpl. rewrite render_sequence, assembled_plain_children. simpl.
  unfold _render. simpl.
  eexists. split; [f_equal|].
  split; [by inversion Ha|].
  exists new, o. split; [done|]. split; [by inversion Ha|done].
Qed.

(** X15.  What the content step returns is rendered as a child of the same
value would be, a component through its own rendering, a safe text as it
is, anything else escaped, except that a returned sequence is taken as a
sequence of children instead of being escaped as a text. *)
Theorem content_rendered_as_children `{!Prims}
    (s : store) (str_of : loc → result string) :
  (∀ vs, render_content s str_of (VSeq vs) =
           (texts ← result_mapM (assembled_item s str_of) vs;
            Ok (Str.concat texts))) ∧
  (∀ ds, render_content s str_of (VData (DSeq ds)) = Ok (Str.concat (map escape_data ds))) ∧
  (∀ l, render_content s str_of (VRef l) = str_of l) ∧
  (∀ d, (∀ ds, d ≠ DSeq ds) →
        render_content s str_of (VData d) = assembled_item s str_of (VData d)).
Proof.
  split; [|split; [|split]].
  - intros vs. unfold render_content. simpl. by rewrite escape_sequence.
  - intros ds. unfold render_content. simpl. unfold _escape. simpl.
    rewrite result_mapM_fmap.
    by rewrite (result_mapM_map_ok _ escape_data) by (intros d _; by destruct d).
  - done.
  - intros d Hd. destruct d as [| | | | |ds]; try done. by destruct (Hd ds).
Qed.

(** X16.  The [lazy] accessor does not touch the receiver: it returns a new
instance of the same type, flagged lazy and without children, so that the
first item access on it binds whatever content it is given and returns that
instance. *)
Theorem lazy_copy_accepts_first_binding `{!Prims}
    (s s2 : store) (self new : loc) (o : obj) :
  heap s !! self = Some o →
  lazy s self = Ok (s2, new) →
  heap s2 !! self = Some o ∧ new ≠ self ∧
  ∃ o', heap s2 !! new = Some o' ∧ cls o' = cls o ∧ _lazy o' = true ∧
        _children o' = VSeq [] ∧
        ∀ limit content,
          __getitem__ limit s2 new content =
            Ok (set_obj s2 new (with_children o' content), Bound new).
Proof.
  intros Hl. unfold lazy, children_capable. rewrite (get_obj_Some _ _ _ Hl).
  simpl. destruct (has_children_mixin (cls_kind (cls o))) eqn:Hk; simpl; [|done].
  destruct (copy s self) as [[s' new']|] eqn:Hc; simpl; [|done].
  destruct (merge_fields s s' self new' o [] Hl Hc)
    as (o' & _ & (Hnew & Hne & Hheap & Hself & _) & Hcls & Hch & _ & _).
  rewrite (get_obj_Some s' new' o') by (rewrite Hheap; apply lookup_insert_eq).
  simpl. intros [= <- <-]. split; [|split; [done|]].
  - simpl. by rewrite lookup_insert_ne.
  - exists (with_lazy o' true). split; [apply lookup_insert_eq|].
    split; [done|]. split; [done|]. split; [done|].
    intros limit content. unfold __getitem__.
    rewrite (children_capable_Some _ new' (with_lazy o' true));
      [|apply lookup_insert_eq|simpl; by rewrite Hcls].
    simpl. by rewrite Hch.
Qed.

(** X17.  When the escaping of raw text works character by character,
binding a bare text to a lazy element and rendering the element gives the
text that item access on the same element, not lazy, renders at once: the
element around the escaped text. *)
Theorem lazy_text_renders_like_eager `{!Prims}
    (limit : nat) (s : store) (self : loc) (o : obj) (t : string) :
  escape_text "" = "" →
  (∀ a b, escape_text (a +:+ b) = escape_text a +:+ escape_text b) →
  heap s !! self = Some o →
  cls_kind (cls o) = KHtml →
  _lazy o = true →
  value_truthy (_children o) = false →
  ∃ s1,
    __getitem__ limit s self (VData (DStr t)) = Ok (s1, Bound self) ∧
    py_str (S limit) s1 self = Ok (element_text o (escape_text t)) ∧
    __getitem__ limit (set_obj s self (with_lazy o false)) self (VData (DStr t))
      = Ok (set_obj s self (with_lazy o false),
            Rendered (element_text o (escape_text t))).
Proof.
  intros Hnil Hhom Hl Hk Hlz Hempty.
  assert (has_children_mixin (cls_kind (cls o)) = true) as Hcap by by rewrite Hk.
  exists (set_obj s self (with_children o (VData (DStr t)))).
  split; [|split].
  - unfold __getitem__. rewrite (children_capable_Some _ _ _ Hl Hcap). simpl.
    by rewrite Hlz, Hempty.
  - simpl. unfold __str__. rewrite get_obj_set_obj. simpl. rewrite Hk.
    by rewrite (render_text_children _ _ (with_children o (VData (DStr t))) t).
  - unfold __getitem__.
    rewrite (children_capable_Some _ self (with_lazy o false));
      [|apply lookup_insert_eq|done].
    simpl. unfold base_getitem.
    rewrite (children_capable_Some _ self (with_lazy o false));
      [|apply lookup_insert_eq|done].
    simpl. rewrite render_sequence. simpl. unfold _render. simpl. rewrite Hk.
    rewrite (concat_cons (escape_text t) []).
    change (Str.concat []) with EmptyString. by rewrite append_empty_r.
Qed.

Lemma markup_escape_app (a b : string) :
  Markup.escape_text (a +:+ b) =
    Markup.escape_text a +:+ Markup.escape_text b.
Proof.
  induction a as [|c a IH]; [done|].
  change (Markup.escape_char c +:+ Markup.escape_text (a +:+ b) =
          (Markup.escape_char c +:+ Markup.escape_text a) +:+
          Markup.escape_text b).
  by rewrite IH, append_assoc.
Qed.

Lemma lazy_copy_accepts_first_binding_witness :
  heap (set_obj AssemblyScene.st 1%nat LazyScene.lazy_div) !! 0%nat =
    Some Scene.fresh_div ∧
  1%nat ≠ 0%nat ∧
  ∃ o', heap (set_obj AssemblyScene.st 1%nat LazyScene.lazy_div) !! 1%nat =
          Some o' ∧
        cls o' = cls Scene.fresh_div ∧ _lazy o' = true ∧
        _children o' = VSeq [] ∧
        ∀ limit content,
          __getitem__ limit (set_obj AssemblyScene.st 1%nat LazyScene.lazy_div)
                      1%nat content =
            Ok (set_obj (set_obj AssemblyScene.st 1%nat LazyScene.lazy_div)
                        1%nat (with_children o' content), Bound 1%nat).
Proof.
  apply (lazy_copy_accepts_first_binding AssemblyScene.st
           (set_obj AssemblyScene.st 1%nat LazyScene.lazy_div)
           0%nat 1%nat Scene.fresh_div).
  - reflexivity.
  - vm_compute. reflexivity.
Defined.

Lemma lazy_text_renders_like_eager_witness :
  ∃ s1,
    __getitem__ 1 LazyScene.st 0%nat (VData (DStr "a<b")) =
      Ok (s1, Bound 0%nat) ∧
    py_str 2 s1 0%nat =
      Ok (element_text LazyScene.lazy_div (escape_text "a<b")) ∧
    __getitem__ 1 (set_obj LazyScene.st 0%nat
                     (with_lazy LazyScene.lazy_div false))
                0%nat (VData (DStr "a<b"))
      = Ok (set_obj LazyScene.st 0%nat (with_lazy LazyScene.lazy_div false),
            Rendered (element_text LazyScene.lazy_div (escape_text "a<b"))).
Proof.
  apply (lazy_text_renders_like_eager 1 LazyScene.st 0%nat
           LazyScene.lazy_div "a<b").
  - reflexivity.
  - apply markup_escape_app.
  - reflexivity.
  - reflexivity.
  - reflexivity.
  - reflexivity.
Defined.

(** ** Adding a child in place, and the recursion limit *)

Section in_place.
Context `{!Prims}.

Lemma concat_snoc (xs : list string) (x : string) :
  Str.concat (xs ++ [x]) = Str.concat xs +:+ x.
Proof.
  induction xs as [|y xs IH].
  - change (Str.concat [x]) with x. done.
  - change ((y :: xs) ++ [x]) with (y :: (xs ++ [x])).
    by rewrite !concat_cons, IH, append_assoc.
Qed.

Lemma result_mapM_mono {A B} (f g : A → result B) (l : list A) (r : list B) :
  (∀ x y, f x = Ok y → g x = Ok y) →
  result_mapM f l = Ok r → result_mapM g l = Ok r.
Proof.
  intros Hfg. revert r. induction l as [|x l IH]; intros r; simpl; [done|].
  destruct (f x) as [y|] eqn:Ef; simpl; [|done].
  destruct (result_mapM f l) as [ys|] eqn:El; simpl; [|done].
  intros [= <-]. by rewrite (Hfg _ _ Ef), (IH ys eq_refl).
Qed.

Lemma element_str_mono (s : store) (f g : loc → result string)
    (l : loc) (t : string) :
  elements_only s →
  (∀ l' t', f l' = Ok t' → g l' = Ok t') →
  __str__ s f l = Ok t → __str__ s g l = Ok t.
Proof.
  intros Hs Hfg. unfold __str__.
  destruct (get_obj s l) as [o|] eqn:Ho; simpl; [|done].
  apply get_obj_Ok, Hs in Ho.
  destruct (cls_kind (cls o)) eqn:Hk; try done.
  unfold __render. destruct (negb _).
  - unfold _render. by rewrite Hk.
  - unfold _escape.
    destruct (py_iter (_children o)) as [items|]; simpl; [|done].
    destruct (result_mapM _ items) as [texts|] eqn:Et; simpl; [|done].
    assert (result_mapM (fun ch => match ch with
                                   | VRef l0 => g l0
                                   | _ => Ok (escape s ch)
                                   end) items = Ok texts) as ->.
    { revert Et. apply result_mapM_mono.
      intros [d|l0|vs] y; try done. apply Hfg. }
    simpl. unfold _render. by rewrite Hk.
Qed.
End in_place.

(** X18.  [c += d] on an element whose children are plain values puts [d]
after them: the element renders as before with the escaped [d] added at the
end of its content, and the statement gives back the same instance. *)
Theorem iadd_extends_rendering `{!Prims}
    (limit : nat) (s : store) (self : loc) (o : obj)
    (ds : list data) (d : data) :
  heap s !! self = Some o →
  cls_kind (cls o) = KHtml →
  _children o = VSeq (map VData ds) →
  ∃ s',
    __iadd__ s self (VData d) = Ok (s', self) ∧
    py_str (S limit) s self =
      Ok (element_text o (Str.concat (map escape_data ds))) ∧
    py_str (S limit) s' self =
      Ok (element_text o (Str.concat (map escape_data ds) +:+ escape_data d)).
Proof.
  intros Hl Hk Hch.
  assert (has_children_mixin (cls_kind (cls o)) = true) as Hcap by by rewrite Hk.
  exists (set_obj s self (with_children o (VSeq (map VData (ds ++ [d]))))).
  split; [|split].
  - unfold __iadd__. rewrite (children_capable_Some _ _ _ Hl Hcap). simpl.
    rewrite Hch. simpl. by rewrite map_app.
  - simpl. unfold __str__. rewrite (get_obj_Some _ _ _ Hl). simpl.
    rewrite Hk, Hch, render_sequence, assembled_plain_children. simpl.
    unfold _render. by rewrite Hk.
  - simpl. unfold __str__. rewrite get_obj_set_obj. simpl.
    rewrite Hk, render_sequence, assembled_plain_children. simpl.
    unfold _render. simpl. rewrite Hk.
    rewrite (map_app escape_data).
    change (map escape_data [d]) with [escape_data d].
    by rewrite concat_snoc.
Qed.

Lemma iadd_extends_rendering_witness :
  ∃ s',
    __iadd__ AssemblyScene.st 0%nat (VData (DStr "<")) = Ok (s', 0%nat) ∧
    py_str 1 AssemblyScene.st 0%nat =
      Ok (element_text Scene.fresh_div (Str.concat (map escape_data []))) ∧
    py_str 1 s' 0%nat =
      Ok (element_text Scene.fresh_div
            (Str.concat (map escape_data []) +:+ escape_data (DStr "<"))).
Proof.
  apply (iadd_extends_rendering 0 AssemblyScene.st 0%nat Scene.fresh_div
           [] (DStr "<")).
  - reflexivity.
  - reflexivity.
  - reflexivity.
Defined.

(** X19.  In a store that holds only HTML elements, a rendering that
succeeds under one recursion limit gives the same text under every larger
limit: the limit decides only whether a text is produced, never which. *)
Theorem element_rendering_stable_in_limit `{!Prims}
    (s : store) (n m : nat) (l : loc) (t : string) :
  elements_only s →
  (n ≤ m)%nat →
  py_str n s l = Ok t →
  py_str m s l = Ok t.
Proof.
  intros Hs. revert m l t.
  induction n as [|n IH]; intros m l t Hnm; [done|].
  destruct m as [|m]; [lia|]. simpl.
  apply element_str_mono; [done|].
  intros l' t'. apply IH. lia.
Qed.

Lemma element_rendering_stable_in_limit_witness :
  py_str 5 NestScene.st 0%nat = Ok "<div><hr />x</div>".
Proof.
  apply (element_rendering_stable_in_limit NestScene.st 2 5 0%nat
           "<div><hr />x</div>").
  - intros l o Hl. simpl in Hl.
    apply lookup_insert_Some in Hl as [[_ <-]|[_ Hl]]; [reflexivity|].
    apply lookup_singleton_Some in Hl as [_ <-]. reflexivity.
  - lia.
  - reflexivity.
Defined.

(** ** Making component types *)

Section factory_laws.
Context `{!Prims}.

Lemma zip_last_n {A B} (pre named : list A) (ds : list B) :
  length named = length ds →
  zip (Call.last_n (length ds) (pre ++ named)) ds = zip named ds.
Proof.
  intros Hlen. unfold Call.last_n. destruct ds as [|d ds].
  - change (zip (pre ++ named) ([] : list B) = zip named []).
    by rewrite !zip_with_nil_r.
  - rewrite <- Hlen. destruct named as [|k named]; [done|].
    cbn [length]. f_equal. apply drop_app_length'.
    rewrite length_app. simpl. lia.
Qed.

Lemma dict_keys_zip (named : list string) (ds : list data) :
  length named = length ds → Dict.keys (zip named ds) = named.
Proof.
  revert ds. induction named as [|k named IH]; intros [|d ds]; try done.
  simpl. intros [= Hlen]. by rewrite <- (IH ds Hlen) at 2.
Qed.

Lemma dict_get_of_pairs (e : dict data) (k : string) :
  dict_wf e → Dict.get k (Dict.of_pairs e) = Dict.get k e.
Proof.
  intros Hwf. unfold Dict.of_pairs. rewrite dict_get_update by done.
  by destruct (Dict.get k e).
Qed.

Lemma dict_get_kept (kd : dict data) (k : string) :
  dict_wf kd →
  Dict.get k (filter (fun kv => negb (is_none kv.2) = true) kd) =
    match Dict.get k kd with
    | Some v => if is_none v then None else Some v
    | None => None
    end.
Proof.
  unfold dict_wf. induction kd as [|[k' v'] kd IH]; [done|].
  simpl. intros [Hnotin Hwf]%NoDup_cons.
  rewrite filter_cons. simpl.
  destruct (String.eqb k' k) eqn:E.
  - apply String.eqb_eq in E as ->.
    destruct (is_none v') eqn:Hv; simpl.
    + rewrite IH by done.
      apply dict_get_None in Hnotin. by rewrite Hnotin.
    + by rewrite String.eqb_refl.
  - destruct (decide _); simpl; [rewrite E|]; by apply IH.
Qed.

Lemma dict_wf_kept (kd : dict data) :
  dict_wf kd → dict_wf (filter (fun kv => negb (is_none kv.2) = true) kd).
Proof.
  unfold dict_wf, Dict.keys. intros Hwf.
  assert (map fst (filter (fun kv : string * data =>
                             negb (is_none kv.2) = true) kd)
          `sublist_of` map fst kd) as Hsub.
  { clear Hwf. induction kd as [|kv kd IH]; [done|].
    rewrite filter_cons. destruct (decide _); simpl.
    - by apply sublist_skip.
    - by apply sublist_cons. }
  by eapply sublist_NoDup.
Qed.

Lemma list_remove_Ok (x : string) (l : list string) :
  x ∈ l ↔ ∃ r, Factory.list_remove x l = Ok r.
Proof.
  induction l as [|y l IH]; simpl.
  - split; [by intros ?%elem_of_nil|by intros [r ?]].
  - destruct (String.eqb y x) eqn:E.
    + apply String.eqb_eq in E as ->. split; [by eexists|intros _; left].
    + apply String.eqb_neq in E. rewrite elem_of_cons, IH. split.
      * intros [->|[r ->]]; [done|]. by eexists.
      * intros [r Hr]. right.
        destruct (Factory.list_remove x l); [by eexists|done].
Qed.

Lemma make_defaults_Ok (sp : argspec) :
  (∃ d, Factory._make_defaults sp = Ok d) ↔
  varargs sp = None ∧ varkw sp = None.
Proof.
  unfold Factory._make_defaults.
  destruct (varargs sp), (varkw sp); simpl;
    try (split; [by intros [d ?]|by intros [? ?]]).
  split; [done|intros _]. destruct (_ && _); by eexists.
Qed.
End factory_laws.

(** X20.  [Component] makes a type exactly from a function without starred
parameters, or from a class that has a [render] method and whose
[__init__] lists [self] and has no starred parameters.  Every refusal is a
[TypeError], except that an [__init__] whose parameters do not include
[self] by that name fails with the [ValueError] of [list.remove]. *)
Theorem component_type_made_iff (x : Factory.pyobj) :
  ((∃ c, Factory.Component x = Ok c) ↔
   match x with
   | Factory.PyFunction f =>
       varargs (fn_spec f) = None ∧ varkw (fn_spec f) = None
   | Factory.PyClass u =>
       is_Some (uc_render u) ∧ "self" ∈ args (uc_init u) ∧
       varargs (uc_init u) = None ∧ varkw (uc_init u) = None
   | Factory.PyOther => False
   end) ∧
  (∀ e, Factory.Component x = Raise e →
        (∃ msg, e = TypeError msg) ∨
        (e = ValueError "list.remove(x): x not in list" ∧
         ∃ u, x = Factory.PyClass u ∧ is_Some (uc_render u) ∧
              "self" ∉ args (uc_init u))).
Proof.
  destruct x as [f|u|]; simpl.
  - unfold Factory._make_func_component. split.
    + rewrite <- make_defaults_Ok.
      destruct (Factory._make_defaults (fn_spec f)) as [d|]; simpl.
      * split; by eexists.
      * split; by intros [? ?].
    + intros e. unfold Factory._make_defaults.
      destruct (_ || _); simpl; [intros [= <-]; left; by eexists|].
      by destruct (_ && _).
  - unfold Factory._make_class_component.
    destruct (uc_render u) as [[rspec rbody]|] eqn:Hrender; simpl.
    + destruct (Factory.list_remove "self" (args (uc_init u))) as [r|e0] eqn:Hr;
        simpl.
      * assert ("self" ∈ args (uc_init u)) as Hself.
        { apply list_remove_Ok. by eexists. }
        set (sp := {| args := r |}).
        pose proof (make_defaults_Ok sp) as Hd. split.
        -- destruct (Factory._make_defaults sp) as [d|]; simpl.
           ++ split; [intros _|by eexists].
              split; [by eexists|]. split; [done|]. apply Hd. by eexists.
           ++ split; [by intros [? ?]|]. intros (_ & _ & Hv).
              apply Hd in Hv as [d Hv]. done.
        -- intros e. unfold Factory._make_defaults.
           destruct (_ || _); simpl; [intros [= <-]; left; by eexists|].
           by destruct (_ && _).
      * assert ("self" ∉ args (uc_init u)) as Hself.
        { intros [r Hr']%list_remove_Ok. congruence. }
        split.
        -- split; [by intros [? ?]|]. by intros (_ & ? & _).
        -- intros e [= <-]. right. split.
           ++ clear Hself. revert e0 Hr.
              induction (args (uc_init u)) as [|y l IH]; simpl; intros e0.
              ** by intros [= <-].
              ** destruct (String.eqb y "self"); [done|].
                 destruct (Factory.list_remove "self" l) as [|e1]; [done|].
                 simpl. intros [= <-]. by apply IH.
           ++ exists u. split; [done|]. rewrite Hrender. split; [by eexists|done].
    + split.
      * split; [by intros [? ?]|]. intros [Hs _]. by apply is_Some_None in Hs.
      * intros e [= <-]. left. by eexists.
  - split.
    + split; [by intros [? ?]|done].
    + intros e [= <-]. left. by eexists.
Qed.

(** X21.  An instance of a function component built without arguments holds
the declared defaults and nothing else: under a name, the keyword-only
default unless that is absent or [None], and otherwise the default of the
positional parameter of that name, the defaults being paired with the last
positional names in order. *)
Theorem bare_instance_holds_declared_defaults `{!Prims}
    (f : pyfunc) (c : comp_class) (pre named : list string)
    (ds : list data) (kd : dict data) :
  Factory.Component (Factory.PyFunction f) = Ok c →
  args (fn_spec f) = pre ++ named →
  default [] (defaults (fn_spec f)) = ds →
  length named = length ds →
  NoDup named →
  default [] (kwonlydefaults (fn_spec f)) = kd →
  dict_wf kd →
  (∀ k, k ∈ Dict.keys kd → k ∈ kwonlyargs (fn_spec f)) →
  ∃ o, init_instance c [] [] = Ok o ∧
       ∀ k, Dict.get k (props o) =
              match Dict.get k kd with
              | Some v => if is_none v then Dict.get k (zip named ds)
                          else Some v
              | None => Dict.get k (zip named ds)
              end.
Proof.
  simpl. unfold Factory._make_func_component.
  destruct (Factory._make_defaults (fn_spec f)) as [dflt|] eqn:Hd;
    simpl; [|done].
  intros [= <-] Hargs Hds Hlen Hnamed Hkd Hwf Hkw.
  unfold init_instance. simpl. eexists. split; [reflexivity|].
  intros k. simpl. unfold base_init. simpl.
  unfold Factory._make_defaults in Hd.
  destruct (_ || _); [done|].
  destruct (bool_decide (args (fn_spec f) = [])
            && bool_decide (kwonlyargs (fn_spec f) = [])) eqn:Hempty.
  - injection Hd as <-. simpl.
    apply andb_true_iff in Hempty as [Ha%bool_decide_eq_true Hk%bool_decide_eq_true].
    rewrite Ha in Hargs. symmetry in Hargs.
    apply app_eq_nil in Hargs as [_ ->].
    destruct kd as [|[k0 v0] kd]; [done|].
    specialize (Hkw k0 ltac:(left)). rewrite Hk in Hkw.
    by apply elem_of_nil in Hkw.
  - injection Hd as <-.
    assert (∀ d : dict data,
              Dict.get k match d with [] => [] | _ :: _ => d end =
              Dict.get k d) as -> by (by intros []).
    assert (Dict.get k
              match defaults (fn_spec f) with
              | Some ds0 =>
                  Dict.update []
                    (Dict.of_pairs
                       (zip (Call.last_n (length ds0) (args (fn_spec f))) ds0))
              | None => []
              end = Dict.get k (zip named ds)) as Hpos.
    { destruct (defaults (fn_spec f)) as [ds0|]; simpl in Hds; subst ds.
      - rewrite Hargs, zip_last_n by done.
        assert (dict_wf (zip named ds0)) as Hz.
        { unfold dict_wf. by rewrite dict_keys_zip. }
        rewrite dict_get_update by (by apply dict_wf_update, NoDup_nil_2).
        rewrite dict_get_of_pairs by done.
        by destruct (Dict.get k (zip named ds0)).
      - destruct named; [done|done]. }
    destruct (kwonlydefaults (fn_spec f)) as [kd0|]; simpl in Hkd; subst kd.
    + rewrite dict_get_update by (by apply dict_wf_kept).
      rewrite dict_get_kept by done.
      destruct (Dict.get k kd0) as [v|]; [|done].
      by destruct (is_none v).
    + done.
Qed.

Lemma bare_instance_holds_declared_defaults_witness :
  ∃ o, init_instance BadgeScene.Badge [] [] = Ok o ∧
       ∀ k, Dict.get k (props o) =
              match Dict.get k [("size", DInt 2); ("note", DNone)] with
              | Some v => if is_none v
                          then Dict.get k (zip ["tone"] [DStr "info"])
                          else Some v
              | None => Dict.get k (zip ["tone"] [DStr "info"])
              end.
Proof.
  apply (bare_instance_holds_declared_defaults BadgeScene.badge_fn
           BadgeScene.Badge ["label"] ["tone"] [DStr "info"]
           [("size", DInt 2); ("note", DNone)]).
  - reflexivity.
  - reflexivity.
  - reflexivity.
  - reflexivity.
  - apply NoDup_singleton.
  - reflexivity.
  - apply (bool_decide_unpack _). reflexivity.
  - intros k Hk. exact Hk.
Defined.
